(** * gird-map: the grid server (server/index.mjs), embedded and verified

    The development follows the server module of the repository (the part
    of src/static/app.js headed [// server/index.mjs]): the grid
    builder [buildGrid], the point binning [binPointToCell], the CSV row
    handler of [loadCsv], the feature generator [buildFeatures] and the
    date partition computed in [main]; then the rest of [main] (the file
    search [guessCsv] and the route [/api/geo/:kind]), the functions of the
    browser client that style the features and choose the stride, and the
    village summary and the date selector of the React component.

    Modelling conventions.
    - A JavaScript number that is finite is an exact rational ([Q]); the
      rounding of binary floating point is not modelled, and a decimal
      literal of the source denotes its decimal value.  [NaN] and the two
      infinities appear where the source can produce them from text
      ([Number(...)] of a CSV field or of a query parameter).  The server
      divides by the grid steps only; the theorems that depend on the
      quotient assume the steps positive, so division by zero (infinite in
      JavaScript, 0 in [Q]) does not arise in them.  [scaleVillageCounts]
      divides by the sum of the counts in the branch where that sum is
      positive.
    - [Map] objects keyed by strings are [gmap string _]; the arrays
      [CELLS], [DATES_ISO] and the index arrays are lists.  The one [Map]
      whose entries are listed in insertion order ([byProv]) is the list of
      its entries.
    - A [TypeError] raised by the source (a method call on [undefined] or
      [null]) is the [Throw] result of the error monad below.
    - The two [for] loops of [buildGrid] recurse on a fuel argument; the
      theorems give the fuel that suffices. *)

From Stdlib Require Import QArith Qround Lqa ZArith Lia Ascii String.
From Stdlib Require Import DecimalString DecimalZ DecimalPos.
From stdpp Require Import gmap strings list sorting.

Local Open Scope Z_scope.

(** ** JavaScript values used by the server *)

(** The result of [Number(x)]. *)
Inductive num :=
  | Fin (q : Q)
  | NaN
  | PosInf
  | NegInf.

(** [Number.isFinite(v)], returning the finite value. *)
Definition isFinite (v : num) : option Q :=
  match v with Fin q => Some q | _ => None end.

(** [x < y] on finite numbers. *)
Definition Qltb (x y : Q) : bool := negb (Qle_bool y x).

(** [a > b] for a finite [a] and any number [b]. *)
Definition js_gt (a : Q) (b : num) : bool :=
  match b with
  | Fin q => Qltb q a
  | NaN => false
  | PosInf => false
  | NegInf => true
  end.

(** [Math.min(a, b)] on finite numbers. *)
Definition Math_min (a b : Q) : Q := if Qle_bool a b then a else b.

(** [Math.floor(x)] on a finite number. *)
Definition Math_floor (x : Q) : Z := Qfloor x.

(** [a % b] on integers: the remainder has the sign of [a]. *)
Definition js_rem (a b : Z) : Z := Z.rem a b.

(** [Math.PI], the double nearest to pi: 884279719003555 / 2^48. *)
Definition Math_PI : Q := 884279719003555 # 281474976710656.

(** The multiple [n / 10^r] nearest to [x >= 0], the larger [n] on a tie. *)
Definition nearest (r : nat) (x : Q) : Q :=
  inject_Z (Qfloor (x * inject_Z (10 ^ Z.of_nat r) + (1 # 2))) / inject_Z (10 ^ Z.of_nat r).

(** [Number(x.toFixed(r))]: [toFixed] rounds the absolute value and puts the
    sign back. *)
Definition toFixed (r : nat) (x : Q) : Q :=
  if Qltb x 0 then - nearest r (- x) else nearest r x.

(** The template [`${n}`] for an integer [n]. *)
Definition show (n : Z) : string := NilZero.string_of_int (Z.to_int n).

(** A thrown exception ends the computation. *)
Inductive Result (A : Type) :=
  | Ok (a : A)
  | Throw.
Arguments Ok {A} a.
Arguments Throw {A}.

(** Sequencing: what follows a statement that may throw. *)
Definition bind {A B} (m : Result A) (k : A → Result B) : Result B :=
  match m with Ok a => k a | Throw => Throw end.

(** ** Configuration (the [process.env] block) *)

Record Config := mkConfig {
  LAT_MIN : Q;
  LAT_MAX : Q;
  LON_MIN : Q;
  LON_MAX : Q;
  GRID_KM : Q;
  COORD_DEC : nat
}.

Record Cell := mkCell {
  id : string;
  row : Z;
  col : Z;
  lat_min : Q;
  lat_max : Q;
  lon_min : Q;
  lon_max : Q;
  lat_c : Q;
  lon_c : Q
}.

Record Grid := mkGrid {
  cells : list Cell;
  nrows : Z
}.

(** The loop guard constant [1e-12]. *)
Definition EPS : Q := 1 # 1000000000000.

Definition cell_id (r c : Z) : string := "r" +:+ show r +:+ "c" +:+ show c.

(** ** Strings, records and the ingestion state *)

(** An upper-case ASCII letter becomes lower-case. *)
Definition lower_ascii (a : ascii) : ascii :=
  let n := N_of_ascii a in
  if ((65 <=? n) && (n <=? 90))%N then ascii_of_N (n + 32) else a.

(** [s.toLowerCase()] on the ASCII letters. *)
Fixpoint toLowerCase (s : string) : string :=
  match s with
  | EmptyString => EmptyString
  | String a s' => String (lower_ascii a) (toLowerCase s')
  end.

(** ASCII white space: space, tab, line feed, vertical tab, form feed,
    carriage return. *)
Definition is_space (a : ascii) : bool :=
  let n := N_of_ascii a in
  ((n =? 32) || ((9 <=? n) && (n <=? 13)))%N.

Fixpoint trimStart (s : string) : string :=
  match s with
  | EmptyString => EmptyString
  | String a s' => if is_space a then trimStart s' else s
  end.

(** [s.trim()] *)
Definition trim (s : string) : string :=
  String.rev (trimStart (String.rev (trimStart s))).

(** A record produced by the CSV parser with [columns:true]: header name to
    field text. *)
Abbreviation Row := (gmap string string).

(** [Object.keys(row)] *)
Definition Object_keys (r : Row) : list string := (map_to_list r).*1.

(** [a ?? b] on fields. *)
Definition nullish (a b : option string) : option string :=
  match a with Some x => Some x | None => b end.

(** ['cell'], ['point'] and ['unknown'] *)
Inductive Schema := SchemaCell | SchemaPoint | SchemaUnknown.

(** The per-cell store: cell id to (date to value). *)
Abbreviation GridMap := (gmap string (gmap string Q)).

(** What the listener of [loadCsv] closes over. *)
Record Ingest := mkIngest {
  schema : option Schema;
  dateSet : list string;
  gridMap : GridMap
}.

(** [dateSet.add(d)]: a [Set] keeps insertion order and ignores a repeated
    element. *)
Definition Set_add (d : string) (s : list string) : list string :=
  if bool_decide (d ∈ s) then s else s ++ [d].

(** [Array.from(dateSet).sort()]: ascending by code units. *)
Definition Array_sort (l : list string) : list string := merge_sort String.le l.

Record Feature := mkFeature {
  f_time : option string;
  f_cell_id : string;
  f_row : Z;
  f_col : Z;
  f_center_lat : Q;
  f_center_lon : Q;
  f_value : Q;
  f_coordinates : list (list (Q * Q))
}.

Section Server.

(** [Math.cos] is taken from the host. *)
Variable Math_cos : Q → Q.
Variable cfg : Config.

Definition MID_LAT : Q := (LAT_MIN cfg + LAT_MAX cfg) / 2.
Definition KM_PER_DEG_LAT : Q := 110574 # 1000.
Definition KM_PER_DEG_LON : Q := (111320 # 1000) * Math_cos ((Math_PI / 180) * MID_LAT).
Definition DLAT : Q := GRID_KM cfg / KM_PER_DEG_LAT.
Definition DLON : Q := GRID_KM cfg / KM_PER_DEG_LON.

(** *** buildGrid *)

Definition make_cell (r : Z) (lat : Q) (c : Z) (lon : Q) : Cell :=
  let lat_max := Math_min (lat + DLAT) (LAT_MAX cfg) in
  let lon_max := Math_min (lon + DLON) (LON_MAX cfg) in
  {| id := cell_id r c; row := r; col := c;
     lat_min := lat; lat_max := lat_max; lon_min := lon; lon_max := lon_max;
     lat_c := (lat + lat_max) / 2; lon_c := (lon + lon_max) / 2 |}.

(** The inner loop [for (lon = LON_MIN; lon < LON_MAX-1e-12; lon += DLON)]
    of row [r]: the cells it pushes, in order. *)
Fixpoint cols_loop (fuel : nat) (r : Z) (lat : Q) (c : Z) (lon : Q) : option (list Cell) :=
  match fuel with
  | O => None
  | S fuel' =>
      if Qltb lon (LON_MAX cfg - EPS) then
        rest ← cols_loop fuel' r lat (c + 1) (lon + DLON);
        Some (make_cell r lat c lon :: rest)
      else Some []
  end.

(** The outer loop [for (lat = LAT_MIN; lat < LAT_MAX-1e-12; lat += DLAT)]:
    the cells pushed from row [r] on, and the final value of [row]. *)
Fixpoint rows_loop (inner fuel : nat) (r : Z) (lat : Q) : option (list Cell * Z) :=
  match fuel with
  | O => None
  | S fuel' =>
      if Qltb lat (LAT_MAX cfg - EPS) then
        cs ← cols_loop inner r lat 0 (LON_MIN cfg);
        '(rest, n) ← rows_loop inner fuel' (r + 1) (lat + DLAT);
        Some (cs ++ rest, n)
      else Some ([], r)
  end.

Definition buildGrid (fuel : nat) : option Grid :=
  '(cs, n) ← rows_loop fuel fuel 0 (LAT_MIN cfg);
  Some {| cells := cs; nrows := n |}.

(** *** binPointToCell and loadCsv

    [CELLS] and [NROWS] are the module constants destructured from
    [buildGrid()]. *)

Variable grid : Grid.
Abbreviation CELLS := (cells grid).
Abbreviation NROWS := (nrows grid).

Definition binPointToCell (lat lon : Q) : option string :=
  if negb (Qle_bool (LAT_MIN cfg) lat && Qle_bool lat (LAT_MAX cfg)
           && Qle_bool (LON_MIN cfg) lon && Qle_bool lon (LON_MAX cfg))
  then None
  else
    let r := Math_floor ((lat - LAT_MIN cfg) / DLAT) in
    let r := Z.max 0 (Z.min (NROWS - 1) r) in
    let c := Math_floor ((lon - LON_MIN cfg) / DLON) in
    Some (cell_id r c).

(** [Number(x)] for a CSV field [x] ([None] is [undefined]). *)
Variable Number : option string → num.

(** [new Map(CELLS.map(c => [c.id, new Map()]))] *)
Definition initGridMap : GridMap :=
  list_to_map ((λ c, (id c, (∅ : gmap string Q))) <$> CELLS).

(** [has(h)] over the lower-cased header names of the record. *)
Definition has (r : Row) (h : string) : bool :=
  bool_decide (h ∈ toLowerCase <$> Object_keys r).

Definition detectSchema (r : Row) : Schema :=
  if has r "cell_id" && has r "value" then SchemaCell
  else if (has r "lat" || has r "lat_c") && (has r "lon" || has r "lon_c") && has r "value"
  then SchemaPoint
  else SchemaUnknown.

(** The ['data'] listener of [loadCsv], on one parsed record. *)
Definition on_data (st : Ingest) (r : Row) : Result Ingest :=
  let sch := match schema st with Some s => s | None => detectSchema r end in
  let st := {| schema := Some sch; dateSet := dateSet st; gridMap := gridMap st |} in
  match sch with
  | SchemaUnknown => Ok st
  | _ =>
      let d := trim (default "" (r !! "date")) in
      if bool_decide (d = "") then Ok st else
      let st := {| schema := Some sch; dateSet := Set_add d (dateSet st); gridMap := gridMap st |} in
      match isFinite (Number (r !! "value")) with
      | None => Ok st
      | Some v =>
          match sch with
          | SchemaCell =>
              let cid := trim (default "" (r !! "cell_id")) in
              match gridMap st !! cid with
              | Some per =>
                  Ok {| schema := Some sch; dateSet := dateSet st;
                        gridMap := <[cid := <[d := v]> per]> (gridMap st) |}
              | None => Ok st
              end
          | _ =>
              let lat := Number (nullish (r !! "lat") (r !! "lat_c")) in
              let lon := Number (nullish (r !! "lon") (r !! "lon_c")) in
              match isFinite lat, isFinite lon with
              | Some lat, Some lon =>
                  match binPointToCell lat lon with
                  | None => Ok st
                  | Some cid =>
                      match gridMap st !! cid with
                      | None => Throw
                      | Some per =>
                          let v' := match per !! d with
                                    | Some old => ((old + v) / 2)%Q
                                    | None => v
                                    end in
                          Ok {| schema := Some sch; dateSet := dateSet st;
                                gridMap := <[cid := <[d := v']> per]> (gridMap st) |}
                      end
                  end
              | _, _ => Ok st
              end
          end
      end
  end.

(** The listener applied to the records of the stream, in order. *)
Fixpoint ingest (st : Ingest) (rows : list Row) : Result Ingest :=
  match rows with
  | [] => Ok st
  | r :: rows' => bind (on_data st r) (λ st', ingest st' rows')
  end.

(** [loadCsv(csvPath)]: [csv] is [None] when no file was found, else the
    records of the file.  The result is [gridMap] ([None] for [null]) and
    [datesISO]. *)
Definition loadCsv (csv : option (list Row)) : Result (option GridMap * list string) :=
  match csv with
  | None => Ok (None, [])
  | Some rows =>
      bind (ingest {| schema := None; dateSet := []; gridMap := initGridMap |} rows)
           (λ st, Ok (Some (gridMap st), Array_sort (dateSet st)))
  end.

(** *** cellPolygon and buildFeatures *)

Definition cellPolygon (c : Cell) : list (Q * Q) :=
  let r := COORD_DEC cfg in
  [ (toFixed r (lon_min c), toFixed r (lat_min c));
    (toFixed r (lon_max c), toFixed r (lat_min c));
    (toFixed r (lon_max c), toFixed r (lat_max c));
    (toFixed r (lon_min c), toFixed r (lat_max c));
    (toFixed r (lon_min c), toFixed r (lat_min c)) ].

(** [per.get(k) ?? 0] where [k] may be [undefined]. *)
Definition get_or_0 (per : gmap string Q) (k : option string) : Q :=
  default 0%Q (k ≫= (per !!.)).

(** One pass of the inner loop body for date index [ti] and cell [c]:
    [Ok None] is [continue], [Ok (Some f)] is [feats.push(f)]. *)
Definition feature_step (DATES_ISO : list string) (GRID_MAP : option GridMap)
    (metric : string) (stride : Z) (minValue : option num)
    (ti : nat) (c : Cell) : Result (option Feature) :=
  let d_iso := DATES_ISO !! ti in
  if (1 <? stride) && (negb (js_rem (row c) stride =? 0) || negb (js_rem (col c) stride =? 0))
  then Ok None
  else
    match GRID_MAP with
    | None => Throw
    | Some m =>
        match m !! id c with
        | None => Throw
        | Some per =>
            let v0 := get_or_0 per d_iso in
            let vPrev := if (0 <? ti)%nat then get_or_0 per (DATES_ISO !! (ti - 1)%nat) else 0%Q in
            let val := if bool_decide (metric = "delta") then (v0 - vPrev)%Q else v0 in
            if match minValue with
               | Some mv => bool_decide (metric = "value") && negb (js_gt val mv)
               | None => false
               end
            then Ok None
            else Ok (Some {| f_time := d_iso; f_cell_id := id c; f_row := row c; f_col := col c;
                             f_center_lat := toFixed (COORD_DEC cfg) (lat_c c);
                             f_center_lon := toFixed (COORD_DEC cfg) (lon_c c);
                             f_value := toFixed 4 val;
                             f_coordinates := [cellPolygon c] |})
        end
    end.

(** [for (const c of CELLS)] *)
Fixpoint cells_loop (DATES_ISO : list string) (GRID_MAP : option GridMap)
    (metric : string) (stride : Z) (minValue : option num)
    (ti : nat) (cs : list Cell) (feats : list Feature) : Result (list Feature) :=
  match cs with
  | [] => Ok feats
  | c :: cs' =>
      bind (feature_step DATES_ISO GRID_MAP metric stride minValue ti c)
           (λ o, cells_loop DATES_ISO GRID_MAP metric stride minValue ti cs'
                   (match o with Some f => feats ++ [f] | None => feats end))
  end.

(** [for (const ti of idx)] *)
Fixpoint dates_loop (DATES_ISO : list string) (GRID_MAP : option GridMap)
    (metric : string) (stride : Z) (minValue : option num)
    (idx : list nat) (feats : list Feature) : Result (list Feature) :=
  match idx with
  | [] => Ok feats
  | ti :: idx' =>
      bind (cells_loop DATES_ISO GRID_MAP metric stride minValue ti CELLS feats)
           (dates_loop DATES_ISO GRID_MAP metric stride minValue idx')
  end.

(** [buildFeatures(DATES_ISO, GRID_MAP, idx, metric, stride, minValue)];
    the result is the [features] array of the collection. *)
Definition buildFeatures (DATES_ISO : list string) (GRID_MAP : option GridMap)
    (idx : list nat) (metric : string) (stride : Z) (minValue : option num)
    : Result (list Feature) :=
  dates_loop DATES_ISO GRID_MAP metric stride minValue idx [].

(** *** The date partition of [main] *)

(** [new Date(s).getTime()], [None] for an invalid date. *)
Variable Date_parse : string → option Z.
(** The effect of [t.setHours(0,0,0,0)] on a valid time value. *)
Variable startOfDay : Z → Z.

(** [toD(s)] as its time value ([None] is [NaN]). *)
Definition toD (s : string) : option Z := startOfDay <$> Date_parse s.

(** [a < b] and [a === b] on time values; false when either is [NaN]. *)
Definition time_lt (a b : option Z) : bool :=
  match a, b with Some x, Some y => x <? y | _, _ => false end.
Definition time_eq (a b : option Z) : bool :=
  match a, b with Some x, Some y => x =? y | _, _ => false end.

(** [DATES_ISO.map((d,i) => ({d,i}))] *)
Definition indexed (DATES_ISO : list string) : list (string * nat) :=
  imap (λ i d, (d, i)) DATES_ISO.

Definition PAST_IDX (DATES_ISO : list string) (TODAY_ISO : string) : list nat :=
  snd <$> filter (λ x, time_lt (toD x.1) (toD TODAY_ISO) = true) (indexed DATES_ISO).
Definition NOW_IDX (DATES_ISO : list string) (TODAY_ISO : string) : list nat :=
  snd <$> filter (λ x, time_eq (toD x.1) (toD TODAY_ISO) = true) (indexed DATES_ISO).
Definition FWD_IDX (DATES_ISO : list string) (TODAY_ISO : string) : list nat :=
  snd <$> filter (λ x, time_lt (toD TODAY_ISO) (toD x.1) = true) (indexed DATES_ISO).

End Server.

(** ** A host for the examples

    The theorems below hold for every [Math_cos], [Number], [Date_parse] and
    [startOfDay].  The examples need concrete ones; these agree with
    JavaScript on the inputs the examples use. *)

Module Host.

(** [Math.cos] at [0], the only argument the examples produce (their
    bounding boxes are centred on the equator). *)
Definition cos : Q → Q := λ _, 1%Q.

(** A decimal digit. *)
Definition is_digit (a : ascii) : bool :=
  let n := N_of_ascii a in ((48 <=? n) && (n <=? 57))%N.

(** The value of a string of decimal digits, most significant first. *)
Fixpoint digits (s : string) (acc : Z) : option Z :=
  match s with
  | EmptyString => Some acc
  | String a s' =>
      if is_digit a then digits s' (10 * acc + Z.of_N (N_of_ascii a) - 48) else None
  end.

(** The text before the first ["."] and, when there is one, the text after. *)
Fixpoint split_dot (s : string) : string * option string :=
  match s with
  | EmptyString => (EmptyString, None)
  | String a s' =>
      if Ascii.eqb a "." then (EmptyString, Some s')
      else let '(i, f) := split_dot s' in (String a i, f)
  end.

(** [Number] on [undefined], on the empty string and on plain decimal
    numerals ([-12], [0.5], [3.]); all other text is read as [NaN]. *)
Definition Number (o : option string) : num :=
  match o with
  | None => NaN
  | Some EmptyString => Fin 0
  | Some s =>
      let '(neg, body) :=
        match s with
        | String "-" s' => (true, s')
        | _ => (false, s)
        end in
      let '(ip, fp) := split_dot body in
      let fp := default EmptyString fp in
      if bool_decide (ip = EmptyString) && bool_decide (fp = EmptyString) then NaN else
      match digits ip 0, digits fp 0 with
      | Some a, Some b =>
          let q := (inject_Z a + inject_Z b / inject_Z (10 ^ Z.of_nat (String.length fp)))%Q in
          Fin (Qred (if neg then - q else q))
      | _, _ => NaN
      end
  end.

(** [new Date(s).getTime()] for the three dates of the examples; other
    text, such as ["unknown"], is not a date. *)
Definition Date_parse (s : string) : option Z :=
  if bool_decide (s = "2024-01-01") then Some 1704067200000
  else if bool_decide (s = "2024-01-02") then Some 1704153600000
  else if bool_decide (s = "2024-01-03") then Some 1704240000000
  else None.

(** [setHours(0,0,0,0)] in a process whose time zone is UTC. *)
Definition startOfDay (t : Z) : Z := t - t `mod` 86400000.

(** A CSV record from its header names and fields. *)
Definition record (l : list (string * string)) : Row := list_to_map l.

End Host.

(** * Vocabulary of the specification

    Definitions used to state the properties: they describe results of the
    functions above and are not part of the program. *)

(** ** One axis of the grid

    Both loops of [buildGrid] walk [x, x+step, x+step+step, ...] while the
    current value is below [hi - 1e-12].  [axis] is that walk, with the
    running index. *)

Fixpoint axis (fuel : nat) (hi step : Q) (k : Z) (x : Q) : option (list (Z * Q)) :=
  match fuel with
  | O => None
  | S fuel' =>
      if Qltb x (hi - EPS) then
        rest ← axis fuel' hi step (k + 1) (x + step);
        Some ((k, x) :: rest)
      else Some []
  end.

(** The upper bound of the interval that starts at [s]. *)
Definition upper (hi step s : Q) : Q := Math_min (s + step) hi.

(** Fuel that suffices for the walk from [x]: the span over the step,
    rounded up, and one more for the final test. *)
Definition axis_fuel (hi step x : Q) : nat :=
  S (Z.to_nat (Qceiling ((hi - EPS - x) / step))).

Definition lat_axis (cfg : Config) (fuel : nat) : option (list (Z * Q)) :=
  axis fuel (LAT_MAX cfg) (DLAT cfg) 0 (LAT_MIN cfg).
Definition lon_axis (Math_cos : Q → Q) (cfg : Config) (fuel : nat) : option (list (Z * Q)) :=
  axis fuel (LON_MAX cfg) (DLON Math_cos cfg) 0 (LON_MIN cfg).

(** The grid as the product of a list of row starts and a list of column
    starts. *)
Definition grid_row (Math_cos : Q → Q) (cfg : Config)
    (colsL : list (Z * Q)) (rl : Z * Q) : list Cell :=
  (λ cl, make_cell Math_cos cfg rl.1 rl.2 cl.1 cl.2) <$> colsL.
Definition grid_of (Math_cos : Q → Q) (cfg : Config) (rowsL colsL : list (Z * Q)) : list Cell :=
  flat_map (grid_row Math_cos cfg colsL) rowsL.

(** Fuel that suffices for both loops of [buildGrid]. *)
Definition grid_fuel (Math_cos : Q → Q) (cfg : Config) : nat :=
  axis_fuel (LAT_MAX cfg) (DLAT cfg) (LAT_MIN cfg)
  `max` axis_fuel (LON_MAX cfg) (DLON Math_cos cfg) (LON_MIN cfg).

(** ** Cells *)

(** A string without the character [a]. *)
Fixpoint free_of (a : ascii) (s : string) : Prop :=
  match s with
  | EmptyString => True
  | String b s' => b ≠ a ∧ free_of a s'
  end.

(** Row-major order on (row, col). *)
Definition cell_lt (c1 c2 : Cell) : Prop :=
  row c1 < row c2 ∨ (row c1 = row c2 ∧ col c1 < col c2).

(** A point lies in the closed box of a cell / strictly inside it. *)
Definition in_cell (c : Cell) (lat lon : Q) : Prop :=
  (lat_min c <= lat <= lat_max c)%Q ∧ (lon_min c <= lon <= lon_max c)%Q.
Definition inside_cell (c : Cell) (lat lon : Q) : Prop :=
  (lat_min c < lat < lat_max c)%Q ∧ (lon_min c < lon < lon_max c)%Q.

(** Exact tiling: the union of the cell boxes is the bounding box. *)
Definition tiles_exactly (cfg : Config) (g : Grid) : Prop :=
  ∀ lat lon,
    (∃ c, c ∈ cells g ∧ in_cell c lat lon) ↔
    (LAT_MIN cfg <= lat <= LAT_MAX cfg)%Q ∧ (LON_MIN cfg <= lon <= LON_MAX cfg)%Q.

(** ** Ingestion *)

(** [(row.date || '').trim()] and [(row.cell_id || '').trim()] *)
Definition row_date (r : Row) : string := trim (default "" (r !! "date")).
Definition row_cell (r : Row) : string := trim (default "" (r !! "cell_id")).

(** The value stored for a cell and a date, if any. *)
Definition stored (gm : GridMap) (cid d : string) : option Q := gm !! cid ≫= (.!! d).

(** An accepted record: it has a date and a finite value and, in the cell
    schema, the id of a cell of the grid; in the point schema, finite
    coordinates that bin to a cell of the grid. *)
Definition accepted (Math_cos : Q → Q) (cfg : Config) (grid : Grid)
    (Number : option string → num) (s : Schema) (r : Row) : Prop :=
  row_date r ≠ "" ∧ is_Some (isFinite (Number (r !! "value"))) ∧
  match s with
  | SchemaCell => row_cell r ∈ id <$> cells grid
  | SchemaPoint =>
      ∃ lat lon cid,
        Number (nullish (r !! "lat") (r !! "lat_c")) = Fin lat ∧
        Number (nullish (r !! "lon") (r !! "lon_c")) = Fin lon ∧
        binPointToCell Math_cos cfg grid lat lon = Some cid ∧
        cid ∈ id <$> cells grid
  | SchemaUnknown => False
  end.

(** The computation returns. *)
Definition returns {A} (r : Result A) : bool :=
  match r with Ok _ => true | Throw => false end.

(** The result of [loadCsv] when it returns, with an empty store for
    [null]; nothing when it throws. *)
Definition loaded {A B} (r : Result (option A * list B)) (d : A) : A * list B :=
  match r with
  | Ok (o, l) => (default d o, l)
  | Throw => (d, [])
  end.

(** ** Features *)

(** The value of the dataset for a cell at a date index: the stored value,
    and 0 when nothing is recorded. *)
Definition value_at (DATES_ISO : list string) (m : GridMap) (c : Cell) (ti : nat) : Q :=
  default 0%Q (DATES_ISO !! ti ≫= stored m (id c)).

(** The value at the date that precedes index [ti] in the whole date index;
    0 before the first date. *)
Definition previous_at (DATES_ISO : list string) (m : GridMap) (c : Cell) (ti : nat) : Q :=
  match ti with
  | O => 0%Q
  | S p => value_at DATES_ISO m c p
  end.

(** The value a pass of the loops computes before filtering and rounding. *)
Definition pass_value (DATES_ISO : list string) (m : GridMap) (metric : string)
    (c : Cell) (ti : nat) : Q :=
  if bool_decide (metric = "delta")
  then (value_at DATES_ISO m c ti - previous_at DATES_ISO m c ti)%Q
  else value_at DATES_ISO m c ti.

(** The stride test lets a cell through. *)
Definition stride_passes (stride : Z) (c : Cell) : Prop :=
  stride ≤ 1 ∨ (js_rem (row c) stride = 0 ∧ js_rem (col c) stride = 0).

(** The threshold test lets a value through. *)
Definition threshold_passes (metric : string) (minValue : option num) (val : Q) : Prop :=
  match minValue with
  | Some mv => metric = "value" → js_gt val mv = true
  | None => True
  end.

(** What the pass of the loops for date index [ti] and cell [c] pushes. *)
Definition pushed (cfg : Config) (DATES_ISO : list string) (GRID_MAP : option GridMap)
    (metric : string) (stride : Z) (minValue : option num) (ti : nat) (c : Cell)
    : option Feature :=
  match feature_step cfg DATES_ISO GRID_MAP metric stride minValue ti c with
  | Ok o => o
  | Throw => None
  end.

(** The values of the features returned, in lowest terms. *)
Definition emitted_values (r : Result (list Feature)) : option (list Q) :=
  match r with
  | Ok l => Some ((λ f, Qred (f_value f)) <$> l)
  | Throw => None
  end.

(** Every feature carries the stored value itself. *)
Definition emits_stored_values (m : GridMap) (feats : list Feature) : Prop :=
  ∀ f d, f ∈ feats → f_time f = Some d →
         (f_value f == default 0 (stored m (f_cell_id f) d))%Q.

(** * Examples *)

(** ** Configurations *)

Module Ex.

(** Latitudes [-1, 1], longitudes [0, 1], 55.66 km cells: the longitude step
    is exactly 1/2, so the grid has two columns and four rows. *)
Definition cfgA : Config :=
  {| LAT_MIN := -1; LAT_MAX := 1; LON_MIN := 0; LON_MAX := 1;
     GRID_KM := 5566 # 100; COORD_DEC := 4 |}.

Definition gridA : Grid :=
  Eval vm_compute in default (mkGrid [] 0) (buildGrid Host.cos cfgA 10).

(** Longitudes [0, 1.0000000000005] with a longitude step of exactly 1. *)
Definition cfgGap : Config :=
  {| LAT_MIN := -1; LAT_MAX := 1; LON_MIN := 0; LON_MAX := 10000000000005 # 10000000000000;
     GRID_KM := 11132 # 100; COORD_DEC := 4 |}.

Definition gridGap : Grid :=
  Eval vm_compute in default (mkGrid [] 0) (buildGrid Host.cos cfgGap 10).

End Ex.

(** ** Records *)

Module Rows.

Definition cell (cid d v : string) : Row :=
  Host.record [("cell_id", cid); ("date", d); ("value", v)].
Definition point (lat lon d v : string) : Row :=
  Host.record [("lat", lat); ("lon", lon); ("date", d); ("value", v)].

(** The ingestion state over grid A once the schema is known. *)
Definition start (s : Schema) : Ingest :=
  {| schema := Some s; dateSet := []; gridMap := initGridMap Ex.gridA |}.

(** The state after one point of value 1.0 in cell r1c0. *)
Definition after_one : Ingest :=
  match on_data Host.cos Ex.cfgA Ex.gridA Host.Number (start SchemaPoint)
          (point "0" "0.25" "2024-01-01" "1.0") with
  | Ok st => st
  | Throw => start SchemaPoint
  end.

End Rows.

(** ** Datasets over grid A *)

Module Data.

Definition load (rows : list Row) : GridMap * list string :=
  loaded (loadCsv Host.cos Ex.cfgA Ex.gridA Host.Number (Some rows)) ∅.

(** Cell r0c0 holds 0.5 on the first date and 0.8 on the second; cell r2c0
    holds 0.05 on the second. *)
Definition rows : list Row :=
  [ Rows.cell "r0c0" "2024-01-01" "0.5";
    Rows.cell "r0c0" "2024-01-02" "0.8";
    Rows.cell "r2c0" "2024-01-02" "0.05" ].
Definition store : GridMap := (load rows).1.
Definition dates : list string := (load rows).2.

(** Cell r0c0 holds 0.00004 on the only date. *)
Definition small_rows : list Row := [ Rows.cell "r0c0" "2024-01-01" "0.00004" ].
Definition small_store : GridMap := (load small_rows).1.
Definition small_dates : list string := (load small_rows).2.

(** The second record has no number for a value. *)
Definition dropped_rows : list Row :=
  [ Rows.cell "r0c0" "2024-01-01" "0.5"; Rows.cell "r0c0" "2024-01-02" "abc" ].
Definition dropped_store : GridMap := (load dropped_rows).1.
Definition dropped_dates : list string := (load dropped_rows).2.

(** The first record has no date for a date. *)
Definition undated_rows : list Row :=
  [ Rows.cell "r0c0" "unknown" "0.5"; Rows.cell "r0c0" "2024-01-01" "0.5" ].
Definition undated_store : GridMap := (load undated_rows).1.
Definition undated_dates : list string := (load undated_rows).2.

End Data.


(** * The route [/api/geo/:kind] of [main] *)

(** The value of a decimal digit. *)
Definition digit_value (a : ascii) : option Z :=
  let n := N_of_ascii a in
  if ((48 <=? n) && (n <=? 57))%N then Some (Z.of_N n - 48) else None.

(** The integer read from the longest run of decimal digits at the head of
    [s], on top of what has been read; [None] when no digit has been read. *)
Fixpoint leading_digits (s : string) (acc : option Z) : option Z :=
  match s with
  | EmptyString => acc
  | String a s' =>
      match digit_value a with
      | Some d => leading_digits s' (Some (10 * default 0 acc + d))
      | None => acc
      end
  end.

(** [parseInt(s, 10)] on a string: white space is skipped, then a sign and
    the longest run of digits are read; [None] is [NaN], the result when
    there is no digit.  The integer is exact (JavaScript rounds it to a
    double beyond 2^53). *)
Definition parseInt (s : string) : option Z :=
  match trimStart s with
  | String "-" s' => Z.opp <$> leading_digits s' None
  | String "+" s' => leading_digits s' None
  | s' => leading_digits s' None
  end.

(** [Math.max(a, x)], [NaN] when [x] is. *)
Definition Math_max (a : Z) (x : option Z) : option Z := Z.max a <$> x.

(** [Math.max(1, parseInt(req.query.stride ?? '1', 10))] as [buildFeatures]
    uses it.  [buildFeatures] reads [stride] only behind [stride > 1], which
    is false for [NaN] as it is for 1: [NaN] is handed on as 1. *)
Definition query_stride (q_stride : option string) : Z :=
  default 1 (Math_max 1 (parseInt (default "1" q_stride))).

(** [req.query.min != null ? Number(req.query.min) : null] *)
Definition query_min (Number : option string → num) (q_min : option string) : option num :=
  match q_min with
  | Some s => Some (Number (Some s))
  | None => None
  end.

(** [DATES_ISO.map((_, i) => i)] *)
Definition all_indices (DATES_ISO : list string) : list nat := imap (λ i _, i) DATES_ISO.

(** What the handler sends: [res.json(fc)] with the features of [fc], or
    [res.status(400).json({error: 'bad kind'})]. *)
Inductive Response :=
  | Json (features : list Feature)
  | BadKind.

(** The index array chosen for [kind]; [None] when the kind is not known. *)
Definition kind_indices (Date_parse : string → option Z) (startOfDay : Z → Z)
    (DATES_ISO : list string) (TODAY_ISO kind : string) : option (list nat) :=
  if bool_decide (kind = "past") then Some (PAST_IDX Date_parse startOfDay DATES_ISO TODAY_ISO)
  else if bool_decide (kind = "now") then Some (NOW_IDX Date_parse startOfDay DATES_ISO TODAY_ISO)
  else if bool_decide (kind = "forecast") then Some (FWD_IDX Date_parse startOfDay DATES_ISO TODAY_ISO)
  else if bool_decide (kind = "delta") then Some (all_indices DATES_ISO)
  else None.

(** The handler of [app.get('/api/geo/:kind')] for the string queries
    [stride] and [min] ([None] when the query lacks them), over what
    [main] has loaded. *)
Definition geo_handler (cfg : Config) (grid : Grid) (Number : option string → num)
    (Date_parse : string → option Z) (startOfDay : Z → Z)
    (GRID_MAP : option GridMap) (DATES_ISO : list string) (TODAY_ISO : string)
    (kind : string) (q_stride q_min : option string) : Result Response :=
  let stride := query_stride q_stride in
  let min := query_min Number q_min in
  match kind_indices Date_parse startOfDay DATES_ISO TODAY_ISO kind with
  | None => Ok BadKind
  | Some idx =>
      bind (buildFeatures cfg grid DATES_ISO GRID_MAP idx
              (if bool_decide (kind = "delta") then "delta" else "value") stride min)
           (λ feats, Ok (Json feats))
  end.

(** * Finding the CSV file ([guessCsv], [openMaybeGzip]) *)

Definition DEFAULTS : list string :=
  [ "server/data/thailand_10km_cells.csv";
    "server/data/malaria_th_daily_cells.csv";
    "server/data/malaria_th_daily.csv";
    "thailand_10km_cells.csv";
    "malaria_th_daily_cells.csv";
    "malaria_th_daily.csv" ].

(** [s.endsWith(suffix)] *)
Fixpoint endsWith (s suffix : string) : bool :=
  String.eqb s suffix ||
  match s with
  | EmptyString => false
  | String _ s' => endsWith s' suffix
  end.

(** The loop of [guessCsv] over the default names; [resolve p] is
    [path.resolve(ROOT, p)] and [existsSync] is [fs.existsSync]. *)
Fixpoint first_found (resolve : string → string) (existsSync : string → bool)
    (l : list string) : option string :=
  match l with
  | [] => None
  | p :: l' =>
      let abs := resolve p in
      if existsSync abs then Some abs
      else if existsSync (abs +:+ ".gz") then Some (abs +:+ ".gz")
      else first_found resolve existsSync l'
  end.

(** [guessCsv()]; [CSV_FILE] is [process.env.CSV_FILE], which counts when
    it is set and not empty.  [None] is [null]. *)
Definition guessCsv (resolve : string → string) (existsSync : string → bool)
    (CSV_FILE : option string) : option string :=
  match CSV_FILE with
  | Some f => if bool_decide (f = "") then first_found resolve existsSync DEFAULTS else Some f
  | None => first_found resolve existsSync DEFAULTS
  end.

(** [openMaybeGzip(p)]: whether the stream is piped through gunzip. *)
Definition openMaybeGzip (p : string) : bool := endsWith p ".gz".

(** * The browser client (static/app.js) *)

Module StaticApp.

(** [v > c] for a feature value [v], a number or [null] ([None]); [null]
    compares as 0. *)
Definition gt (v : option Q) (c : Q) : bool := Qltb c (default 0%Q v).

Definition valueColor (v : option Q) : string :=
  if gt v (18 # 10) then "#800026" else if gt v (12 # 10) then "#BD0026"
  else if gt v (9 # 10) then "#E31A1C" else if gt v (6 # 10) then "#FC4E2A"
  else if gt v (4 # 10) then "#FD8D3C" else if gt v (2 # 10) then "#FEB24C"
  else if gt v (1 # 10) then "#FED976" else "#FFEDA0".

Definition deltaColor (d : option Q) : string :=
  if gt d (25 # 100) then "#99000d" else if gt d (15 # 100) then "#cb181d"
  else if gt d (8 # 100) then "#ef3b2c" else if gt d (3 # 100) then "#fb6a4a"
  else if gt d 0 then "#fcae91" else if gt d (- (3 # 100)) then "#c6dbef"
  else if gt d (- (8 # 100)) then "#9ecae1" else if gt d (- (15 # 100)) then "#6baed6"
  else if gt d (- (25 # 100)) then "#3182bd" else "#08519c".

(** The path options that [styleFor] returns, the renderer apart. *)
Record Style := mkStyle {
  weight : Q;
  color : string;
  opacity : Q;
  fillColor : string;
  fillOpacity : Q
}.

(** [styleFor(type)(ft)] for a feature of value [v]. *)
Definition styleFor (type : string) (v : option Q) : Style :=
  let hasData := match v with Some x => Qltb 0 x | None => false end in
  {| weight := if hasData then 1 # 2 else 0;
     color := if hasData then "#333" else "transparent";
     opacity := if hasData then 1 else 0;
     fillColor := if bool_decide (type = "delta") then deltaColor v else valueColor v;
     fillOpacity := if hasData then 65 # 100 else 0 |}.

(** [onEach(ft, layer)]: whether a popup is bound to the layer. *)
Definition onEach (v : option Q) : bool := gt v 0.

(** The zoom [z] is a multiple of 0.25 ([zoomSnap]). *)
Definition strideForZoom (z : Q) : Z :=
  if Qle_bool z 6 then 4 else if Qle_bool z 7 then 2 else 1.

Definition minForZoom (z : Q) : Q :=
  if Qle_bool z 6 then 2 # 100 else 0.

End StaticApp.

(** * The village summary (src/components/ThailandGridMap.jsx) *)

Module Component.

(** A village point; [counts] maps a year to the cases recorded. *)
Record Village := mkVillage {
  name : string;
  province : string;
  counts : option (gmap Z Q)
}.

(** [p.counts?.[year] || 0] *)
Definition count (p : Village) (year : Z) : Q := default 0%Q (counts p ≫= (.!! year)).

(** A [Map] filled by [set] in the order of the list: a later entry
    replaces an earlier one of the same key. *)
Definition Map_of {V} (l : list (string * V)) : gmap string V :=
  foldl (λ m kv, <[kv.1 := kv.2]> m) ∅ l.

(** [order.sort((a, b) => b.frac - a.frac)]: descending fractions, entries
    of equal fraction in their order in the array. *)
Fixpoint insert_by_frac (a : nat * Q) (l : list (nat * Q)) : list (nat * Q) :=
  match l with
  | [] => [a]
  | b :: l' => if Qltb a.2 b.2 then b :: insert_by_frac a l' else a :: l
  end.

Definition sort_by_frac (l : list (nat * Q)) : list (nat * Q) := foldr insert_by_frac [] l.

(** [for (let k = 0; k < order.length && remainder > 0; k++)
       { floors[order[k].i]++; remainder--; }] *)
Fixpoint hand_out (order : list (nat * Q)) (remainder : Z) (floors : list Z) : list Z :=
  match order with
  | [] => floors
  | o :: order' =>
      if 0 <? remainder then hand_out order' (remainder - 1) (alter Z.succ o.1 floors)
      else floors
  end.

(** [scaleVillageCounts(points, target)] for an integer [target]: the
    [scaled] map and [total]. *)
Definition scaleVillageCounts (points : list Village) (target : Z) : gmap string Z * Z :=
  let baseArr := (λ p, count p 2025) <$> points in
  let baseSum := foldl Qplus 0%Q baseArr in
  if Qle_bool baseSum 0 then (Map_of ((λ p, (name p, 0)) <$> points), 0)
  else
    let scaledFloat := (λ v, (v * inject_Z target / baseSum)%Q) <$> baseArr in
    let floors := Math_floor <$> scaledFloat in
    let remainder := target - foldl Z.add 0 floors in
    let order := sort_by_frac (imap (λ i x, (i, (x - inject_Z (floors !!! i))%Q)) scaledFloat) in
    let floors := hand_out order remainder floors in
    (Map_of (imap (λ idx p, (name p, floors !!! idx)) points), target).

(** A [Map] from province to number as the list of its entries in
    insertion order: [get] and [set], which keeps the place of a key that
    is already there. *)
Fixpoint Map_get (k : string) (m : list (string * Z)) : option Z :=
  match m with
  | [] => None
  | kv :: m' => if bool_decide (kv.1 = k) then Some kv.2 else Map_get k m'
  end.

Fixpoint Map_set (k : string) (v : Z) (m : list (string * Z)) : list (string * Z) :=
  match m with
  | [] => [(k, v)]
  | kv :: m' => if bool_decide (kv.1 = k) then (k, v) :: m' else kv :: Map_set k v m'
  end.

(** [.sort((a, b) => b.value - a.value)]: descending values, entries of
    equal value in their order in the array. *)
Fixpoint insert_by_value (a : string * Z) (l : list (string * Z)) : list (string * Z) :=
  match l with
  | [] => [a]
  | b :: l' => if a.2 <? b.2 then b :: insert_by_value a l' else a :: l
  end.

Definition sort_by_value (l : list (string * Z)) : list (string * Z) :=
  foldr insert_by_value [] l.

(** [top5ByProvinceScaled(countMap)] over the village points
    [villagePoints]: the entries [(province, value)] returned. *)
Definition top5ByProvinceScaled (villagePoints : list Village) (countMap : gmap string Z)
    : list (string * Z) :=
  let byProv :=
    foldl (λ byProv p,
             let v := default 0 (countMap !! name p) in
             Map_set (province p) (default 0 (Map_get (province p) byProv) + v) byProv)
          [] villagePoints in
  take 5 (sort_by_value byProv).

(** The date selector of the component: the state [dateIdx] and what the
    controls do to it, over the loaded [dates]. *)

(** [dates.indexOf(today)] *)
Definition indexOf (today : string) (dates : list string) : Z :=
  match list_find (λ d, d = today) dates with
  | Some (i, _) => Z.of_nat i
  | None => -1
  end.

(** [setDateIdx(Math.max(0, uniq.indexOf(today)))] once the rows are
    loaded. *)
Definition initial_dateIdx (today : string) (dates : list string) : Z :=
  Z.max 0 (indexOf today dates).

Inductive Control :=
  | Previous          (* [setDateIdx(i => Math.max(0, i-1))] *)
  | Following         (* [setDateIdx(i => Math.min(dates.length-1, i+1))] *)
  | Tick              (* [setDateIdx(i => (i+1) % dates.length)], set up
                         only when [dates.length > 1] *)
  | Slider (v : Z).   (* [setDateIdx(Number(e.target.value))] *)

Definition control (dates : list string) (i : Z) (c : Control) : Z :=
  let len := Z.of_nat (length dates) in
  match c with
  | Previous => Z.max 0 (i - 1)
  | Following => Z.min (len - 1) (i + 1)
  | Tick => if len <=? 1 then i else js_rem (i + 1) len
  | Slider v => v
  end.

(** The range input offers [min = 0 .. max = Math.max(0, dates.length-1)]. *)
Definition offered (dates : list string) (c : Control) : Prop :=
  match c with
  | Slider v => 0 ≤ v ≤ Z.max 0 (Z.of_nat (length dates) - 1)
  | _ => True
  end.

(** [dates[Math.min(Math.max(dateIdx, 0), dates.length - 1)]] *)
Definition selected (dates : list string) (dateIdx : Z) : option string :=
  let k := Z.min (Z.max dateIdx 0) (Z.of_nat (length dates) - 1) in
  if k <? 0 then None else dates !! Z.to_nat k.

End Component.

(** The sum of the numbers of the villages of a province. *)
Definition province_total (villagePoints : list Component.Village) (countMap : gmap string Z)
    (prov : string) : Z :=
  foldr Z.add 0
    ((λ p, default 0 (countMap !! Component.name p))
       <$> filter (λ p, Component.province p = prov) villagePoints).

(** Three villages with 8, 44 and 21 cases in 2025. *)
Module Villages.

Definition three : list Component.Village :=
  [ Component.mkVillage "Umphang" "Tak" (Some {[ 2025 := 8%Q; 2024 := 1%Q; 2023 := 0%Q ]});
    Component.mkVillage "Mae Sot" "Tak" (Some {[ 2025 := 44%Q; 2024 := 5%Q; 2023 := 2%Q ]});
    Component.mkVillage "Sangkhla Buri" "Kanchanaburi"
      (Some {[ 2025 := 21%Q; 2024 := 2%Q; 2023 := 1%Q ]}) ].

End Villages.

(** * Verification *)

(** ** Rational comparisons *)

Lemma Qltb_lt (x y : Q) : Qltb x y = true ↔ (x < y)%Q.
Proof.
  unfold Qltb. rewrite negb_true_iff, <- not_true_iff_false, Qle_bool_iff.
  split; [apply Qnot_le_lt | apply Qlt_not_le].
Qed.

Lemma Qltb_ge (x y : Q) : Qltb x y = false ↔ (y <= x)%Q.
Proof.
  unfold Qltb. rewrite negb_false_iff, Qle_bool_iff. reflexivity.
Qed.

Lemma Math_min_le_l (a b : Q) : (Math_min a b <= a)%Q.
Proof.
  unfold Math_min. destruct (Qle_bool a b) eqn:E; [lra|].
  apply not_true_iff_false in E. rewrite Qle_bool_iff in E. lra.
Qed.

Lemma Math_min_le_r (a b : Q) : (Math_min a b <= b)%Q.
Proof.
  unfold Math_min. destruct (Qle_bool a b) eqn:E; [|lra].
  apply Qle_bool_iff in E. lra.
Qed.

Lemma Math_min_glb (a b c : Q) : (c <= a)%Q → (c <= b)%Q → (c <= Math_min a b)%Q.
Proof. unfold Math_min. destruct (Qle_bool a b); auto. Qed.

Lemma Math_min_l (a b : Q) : (a <= b)%Q → Math_min a b = a.
Proof. intros H. unfold Math_min. apply Qle_bool_iff in H. by rewrite H. Qed.

(** ** One axis of the grid *)

Section Axis.

Variables hi step : Q.
Hypothesis step_pos : (0 < step)%Q.

Lemma axis_more_fuel fuel fuel' k x l :
  axis fuel hi step k x = Some l → (fuel ≤ fuel')%nat → axis fuel' hi step k x = Some l.
Proof using Type.
  revert fuel' k x l. induction fuel as [|fuel IH]; intros fuel' k x l; simpl; [done|].
  intros H Hle. destruct fuel' as [|fuel']; [lia|]. simpl.
  destruct (Qltb x (hi - EPS)); [|done].
  destruct (axis fuel hi step (k + 1) (x + step)) as [rest|] eqn:E; simplify_eq/=.
  rewrite (IH fuel' _ _ rest E) by lia. done.
Qed.

Lemma axis_enough (n : nat) : ∀ k x fuel,
  (hi - EPS - x <= inject_Z (Z.of_nat n) * step)%Q → (n < fuel)%nat →
  is_Some (axis fuel hi step k x).
Proof using step_pos.
  induction n as [|n IH]; intros k x fuel Hn Hf; (destruct fuel as [|fuel]; [lia|]); simpl.
  - destruct (Qltb x (hi - EPS)) eqn:E; [|eauto].
    apply Qltb_lt in E. change (inject_Z (Z.of_nat 0)) with 0%Q in Hn. lra.
  - destruct (Qltb x (hi - EPS)) eqn:E; [|eauto].
    destruct (IH (k + 1) (x + step)%Q fuel) as [rest Hrest]; [|lia|].
    + rewrite Nat2Z.inj_succ, <- Z.add_1_r, inject_Z_plus in Hn.
      change (inject_Z 1) with 1%Q in Hn. lra.
    + rewrite Hrest. simpl. eauto.
Qed.

Lemma axis_terminates k x fuel :
  (axis_fuel hi step x ≤ fuel)%nat → is_Some (axis fuel hi step k x).
Proof using step_pos.
  intros Hf. apply (axis_enough (Z.to_nat (Qceiling ((hi - EPS - x) / step)))); [|unfold axis_fuel in Hf; lia].
  pose proof (Qle_ceiling ((hi - EPS - x) / step)) as Hc.
  assert (Hz : (inject_Z (Qceiling ((hi - EPS - x) / step))
                <= inject_Z (Z.of_nat (Z.to_nat (Qceiling ((hi - EPS - x) / step)))))%Q).
  { rewrite <- Zle_Qle. lia. }
  assert (Hd : ((hi - EPS - x) / step <= inject_Z (Z.of_nat (Z.to_nat (Qceiling ((hi - EPS - x) / step)))))%Q)
    by lra.
  apply (Qmult_le_compat_r _ _ step) in Hd; [|lra].
  rewrite Qmult_comm, Qmult_div_r in Hd; [done|lra].
Qed.

Lemma axis_indices fuel k x l :
  axis fuel hi step k x = Some l → l.*1 = seqZ k (Z.of_nat (length l)).
Proof using Type.
  revert k x l. induction fuel as [|fuel IH]; intros k x l; simpl; [done|].
  destruct (Qltb x (hi - EPS)); [|by intros [= <-]].
  destruct (axis fuel hi step (k + 1) (x + step)) as [rest|] eqn:E; intros; simplify_eq/=.
  rewrite (IH _ _ _ E). rewrite (seqZ_cons k) by lia. f_equal. f_equal; lia.
Qed.

Lemma axis_starts fuel k x l j s :
  axis fuel hi step k x = Some l → (j, s) ∈ l →
  k ≤ j ∧ (s == x + inject_Z (j - k) * step)%Q ∧ (s < hi - EPS)%Q.
Proof using Type.
  revert k x l. induction fuel as [|fuel IH]; intros k x l; simpl; [done|].
  destruct (Qltb x (hi - EPS)) eqn:Hlt; [|intros [= <-]; by rewrite elem_of_nil].
  destruct (axis fuel hi step (k + 1) (x + step)) as [rest|] eqn:E; intros ? Hin; simplify_eq/=.
  apply elem_of_cons in Hin as [[= -> ->]|Hin].
  - apply Qltb_lt in Hlt. split; [lia|]. split; [|done].
    rewrite Z.sub_diag. change (inject_Z 0) with 0%Q. lra.
  - destruct (IH _ _ _ E Hin) as (Hk & Hs & Hb). split; [lia|]. split; [|done].
    rewrite Hs. replace (j - k) with ((j - (k + 1)) + 1) by lia.
    rewrite inject_Z_plus. change (inject_Z 1) with 1%Q. lra.
Qed.

Lemma axis_nil_iff fuel k x l :
  axis fuel hi step k x = Some l → l = [] ↔ (hi - EPS <= x)%Q.
Proof using Type.
  destruct fuel as [|fuel]; simpl; [done|].
  destruct (Qltb x (hi - EPS)) eqn:Hlt.
  - destruct (axis fuel hi step (k + 1) (x + step)); intros; simplify_eq/=.
    apply Qltb_lt in Hlt. split; [done|lra].
  - intros [= <-]. apply Qltb_ge in Hlt. done.
Qed.

Lemma axis_functional fuel k x l j s1 s2 :
  axis fuel hi step k x = Some l → (j, s1) ∈ l → (j, s2) ∈ l → s1 = s2.
Proof using Type.
  revert k x l. induction fuel as [|fuel IH]; intros k x l; simpl; [done|].
  destruct (Qltb x (hi - EPS)); [|intros [= <-]; by rewrite elem_of_nil].
  destruct (axis fuel hi step (k + 1) (x + step)) as [rest|] eqn:E; intros ? H1 H2; simplify_eq/=.
  apply elem_of_cons in H1 as [H1|H1]; apply elem_of_cons in H2 as [H2|H2]; simplify_eq.
  - done.
  - apply (axis_starts _ _ _ _ _ _ E) in H2. lia.
  - apply (axis_starts _ _ _ _ _ _ E) in H1. lia.
  - eauto.
Qed.

(** Intervals of increasing index do not overlap: the upper bound of one is
    at most the start of the next. *)
Lemma axis_ordered fuel k x l j1 s1 j2 s2 :
  axis fuel hi step k x = Some l → (j1, s1) ∈ l → (j2, s2) ∈ l → j1 < j2 →
  (upper hi step s1 <= s2)%Q.
Proof using step_pos.
  intros Hl H1 H2 Hj.
  destruct (axis_starts _ _ _ _ _ _ Hl H1) as (_ & E1 & _).
  destruct (axis_starts _ _ _ _ _ _ Hl H2) as (_ & E2 & _).
  pose proof (Math_min_le_l (s1 + step) hi) as Hm. unfold upper.
  assert (Hd : (s2 == s1 + step + inject_Z (j2 - j1 - 1) * step)%Q).
  { rewrite E1, E2. replace (j2 - k) with ((j1 - k) + 1 + (j2 - j1 - 1)) by lia.
    rewrite !inject_Z_plus. change (inject_Z 1) with 1%Q. ring. }
  assert (0 <= inject_Z (j2 - j1 - 1) * step)%Q.
  { apply Qmult_le_0_compat; [|lra]. change 0%Q with (inject_Z 0). rewrite <- Zle_Qle. lia. }
  lra.
Qed.

(** The intervals cover, without a gap, everything from the first start to
    the upper bound of the last interval, which is within [1e-12] of [hi]. *)
Lemma axis_cover fuel k x l j s :
  axis fuel hi step k x = Some l → last l = Some (j, s) →
  (hi - EPS <= upper hi step s <= hi)%Q ∧
  ∀ y, (∃ j' s', (j', s') ∈ l ∧ (s' <= y <= upper hi step s')%Q)
       ↔ (x <= y <= upper hi step s)%Q.
Proof using step_pos.
  assert (HEPS : (0 < EPS)%Q) by done.
  revert k x l. induction fuel as [|fuel IH]; intros k x l; simpl; [done|].
  destruct (Qltb x (hi - EPS)) eqn:Hlt; [|by intros [= <-]].
  destruct (axis fuel hi step (k + 1) (x + step)) as [rest|] eqn:E; intros ? Hlast; simplify_eq/=.
  apply Qltb_lt in Hlt.
  destruct rest as [|e rest].
  - simplify_eq/=. pose proof (proj1 (axis_nil_iff _ _ _ _ E) eq_refl) as Hge.
    split.
    + split; [apply Math_min_glb; lra | apply Math_min_le_r].
    + intros y. split.
      * intros (j' & s' & Hin & Hy). apply list_elem_of_singleton in Hin. by simplify_eq.
      * intros Hy. exists j, s. split; [apply list_elem_of_singleton|]; done.
  - rewrite last_cons_cons in Hlast.
    destruct (IH _ _ _ E Hlast) as (Hb & Hc). split; [done|].
    assert (Hx : (x + step < hi - EPS)%Q).
    { destruct e as [je se]. destruct (axis_starts _ _ _ _ je se E) as (_ & Hs & Hs'); [left|].
      destruct fuel; simpl in E; [done|].
      destruct (Qltb (x + step) (hi - EPS)) eqn:Hlt'; [by apply Qltb_lt|done]. }
    assert (Hux : upper hi step x = (x + step)%Q) by (apply Math_min_l; lra).
    intros y. split.
    + intros (j' & s' & Hin & Hy). apply elem_of_cons in Hin as [[= -> ->]|Hin].
      * rewrite Hux in Hy. lra.
      * assert (x + step <= y <= upper hi step s)%Q by (apply Hc; eauto). lra.
    + intros Hy. destruct (Qlt_le_dec (x + step) y) as [Hgt|Hle].
      * destruct (proj2 (Hc y)) as (j' & s' & Hin & Hy'); [lra|].
        exists j', s'. split; [by right|done].
      * exists k, x. split; [by left|]. rewrite Hux. lra.
Qed.

End Axis.

(** ** Cell identifiers *)

Lemma separator_inj a s1 t1 s2 t2 :
  free_of a s1 → free_of a s2 →
  s1 +:+ String a t1 = s2 +:+ String a t2 → s1 = s2 ∧ t1 = t2.
Proof.
  revert s2. induction s1 as [|b s1 IH]; intros [|b' s2]; simpl.
  - intros _ _ [= ->]. done.
  - intros _ [Hb _] [= <- _]. done.
  - intros [Hb _] _ [= -> _]. done.
  - intros [_ H1] [_ H2] [= -> E]. destruct (IH _ H1 H2 E) as [-> ->]. done.
Qed.

Lemma string_of_uint_free d : free_of "c" (NilEmpty.string_of_uint d).
Proof. induction d; simpl; auto. Qed.

Lemma show_free n : free_of "c" (show n).
Proof.
  unfold show. destruct (Z.to_int n) as [d|d]; simpl.
  - destruct d; simpl; auto using string_of_uint_free.
  - split; [done|]. destruct d; simpl; auto using string_of_uint_free.
Qed.

Lemma show_inj n m : show n = show m → n = m.
Proof.
  unfold show. intros E. apply DecimalZ.to_int_inj.
  assert (Hn : ∀ z, Z.to_int z ≠ Decimal.Pos Decimal.Nil ∧ Z.to_int z ≠ Decimal.Neg Decimal.Nil).
  { intros [|p|p]; simpl; split; try done; intros [= H];
      by apply DecimalPos.Unsigned.to_uint_nonnil in H. }
  apply (f_equal NilZero.int_of_string) in E.
  rewrite !NilZero.isi in E by apply Hn. congruence.
Qed.

Lemma cell_id_inj r c r' c' : cell_id r c = cell_id r' c' → r = r' ∧ c = c'.
Proof.
  unfold cell_id. intros [= E].
  apply separator_inj in E as [Er Ec]; auto using show_free.
  split; by apply show_inj.
Qed.

Lemma StronglySorted_lookup_lt {A} (R : relation A) (l : list A) i j x y :
  StronglySorted R l → l !! i = Some x → l !! j = Some y → (i < j)%nat → R x y.
Proof.
  intros Hs. revert i j. induction Hs as [|a l Hs IH Hall]; intros i j; [done|].
  destruct i as [|i], j as [|j]; simpl; try lia.
  - intros [= ->] Hy _. rewrite Forall_forall in Hall. apply Hall.
    by eapply list_elem_of_lookup_2.
  - intros Hx Hy Hlt. apply (IH i j); [done|done|lia].
Qed.

(** ** The grid as the product of its two axes *)

Section GridFacts.

Variable Math_cos : Q → Q.
Variable cfg : Config.

Lemma cols_loop_axis fuel r lat c lon :
  cols_loop Math_cos cfg fuel r lat c lon
  = fmap (M:=list) (λ cl, make_cell Math_cos cfg r lat cl.1 cl.2)
      <$> axis fuel (LON_MAX cfg) (DLON Math_cos cfg) c lon.
Proof.
  revert c lon. induction fuel as [|fuel IH]; intros c lon; simpl; [done|].
  destruct (Qltb lon (LON_MAX cfg - EPS)); [|done].
  rewrite IH. by destruct (axis fuel _ _ (c + 1) _).
Qed.

Lemma rows_loop_axis inner fuel r lat rowsL colsL :
  axis fuel (LAT_MAX cfg) (DLAT cfg) r lat = Some rowsL →
  lon_axis Math_cos cfg inner = Some colsL →
  rows_loop Math_cos cfg inner fuel r lat
  = Some (grid_of Math_cos cfg rowsL colsL, r + Z.of_nat (length rowsL)).
Proof.
  intros Hr Hc. revert r lat rowsL Hr.
  induction fuel as [|fuel IH]; intros r lat rowsL; simpl; [done|].
  destruct (Qltb lat (LAT_MAX cfg - EPS)).
  - destruct (axis fuel _ _ (r + 1) _) as [rest|] eqn:E; intros; simplify_eq/=.
    rewrite cols_loop_axis. unfold lon_axis in Hc. rewrite Hc. simpl.
    rewrite (IH _ _ _ E). simpl. f_equal. f_equal. lia.
  - intros [= <-]. simpl. f_equal. f_equal. lia.
Qed.

Lemma buildGrid_axes fuel rowsL colsL :
  lat_axis cfg fuel = Some rowsL → lon_axis Math_cos cfg fuel = Some colsL →
  buildGrid Math_cos cfg fuel
  = Some {| cells := grid_of Math_cos cfg rowsL colsL; nrows := Z.of_nat (length rowsL) |}.
Proof.
  intros Hr Hc. unfold buildGrid. by rewrite (rows_loop_axis _ _ _ _ _ _ Hr Hc).
Qed.

Lemma elem_of_grid_of rowsL colsL c :
  c ∈ grid_of Math_cos cfg rowsL colsL ↔
  ∃ r lat k lon, (r, lat) ∈ rowsL ∧ (k, lon) ∈ colsL ∧ c = make_cell Math_cos cfg r lat k lon.
Proof.
  unfold grid_of, grid_row. rewrite list_elem_of_In, in_flat_map. split.
  - intros ([r lat] & Hr & Hc). apply list_elem_of_In, list_elem_of_fmap in Hc as ([k lon] & -> & Hc).
    exists r, lat, k, lon. by rewrite list_elem_of_In.
  - intros (r & lat & k & lon & Hr & Hc & ->). exists (r, lat).
    rewrite <- !list_elem_of_In. split; [done|].
    apply list_elem_of_fmap. by exists (k, lon).
Qed.

Lemma rows_loop_inv inner fuel r lat cs n :
  rows_loop Math_cos cfg inner fuel r lat = Some (cs, n) →
  ∃ rowsL colsL,
    axis fuel (LAT_MAX cfg) (DLAT cfg) r lat = Some rowsL ∧
    n = r + Z.of_nat (length rowsL) ∧ cs = grid_of Math_cos cfg rowsL colsL ∧
    (rowsL = [] ∧ colsL = [] ∨ lon_axis Math_cos cfg inner = Some colsL).
Proof.
  revert r lat cs n. induction fuel as [|fuel IH]; intros r lat cs n; simpl; [done|].
  destruct (Qltb lat (LAT_MAX cfg - EPS)).
  - rewrite cols_loop_axis. fold (lon_axis Math_cos cfg inner).
    destruct (lon_axis Math_cos cfg inner) as [colsL|] eqn:Hc; simpl; [|done].
    destruct (rows_loop Math_cos cfg inner fuel (r + 1) (lat + DLAT cfg)) as [[rest m]|] eqn:E;
      simpl; [|done].
    intros [= <- <-]. destruct (IH _ _ _ _ E) as (rowsL & colsL' & Hr & -> & -> & Hcols).
    exists ((r, lat) :: rowsL), colsL. rewrite Hr. simpl. split; [done|]. split; [lia|].
    split; [|by right]. f_equal.
    destruct Hcols as [[-> ->]|Hcols]; [done|]. congruence.
  - intros [= <- <-]. exists [], []. simpl. split; [done|]. split; [lia|]. split; [done|]. by left.
Qed.

Lemma buildGrid_inv fuel g :
  buildGrid Math_cos cfg fuel = Some g →
  ∃ rowsL colsL,
    lat_axis cfg fuel = Some rowsL ∧
    (rowsL = [] ∧ colsL = [] ∨ lon_axis Math_cos cfg fuel = Some colsL) ∧
    g = {| cells := grid_of Math_cos cfg rowsL colsL; nrows := Z.of_nat (length rowsL) |}.
Proof.
  unfold buildGrid.
  destruct (rows_loop Math_cos cfg fuel fuel 0 (LAT_MIN cfg)) as [[cs n]|] eqn:E; simpl; [|done].
  intros [= <-]. destruct (rows_loop_inv _ _ _ _ _ _ E) as (rowsL & colsL & Hr & -> & -> & Hc).
  exists rowsL, colsL. done.
Qed.

(** The grid returned does not depend on the fuel, once there is enough. *)
Lemma buildGrid_more_fuel fuel fuel' g :
  buildGrid Math_cos cfg fuel = Some g → (fuel ≤ fuel')%nat →
  buildGrid Math_cos cfg fuel' = Some g.
Proof.
  intros (rowsL & colsL & Hr & Hc & ->)%buildGrid_inv Hle.
  apply (axis_more_fuel _ _ _ fuel') in Hr; [|done].
  destruct Hc as [[-> ->]|Hc].
  - unfold buildGrid. destruct fuel' as [|fuel']; [done|]. simpl in *.
    destruct (Qltb (LAT_MIN cfg) (LAT_MAX cfg - EPS)); [|done].
    by destruct (axis fuel' _ _ (0 + 1) _).
  - apply (axis_more_fuel _ _ _ fuel') in Hc; [|done]. by apply buildGrid_axes.
Qed.

Lemma axis_sorted fuel hi step k x l :
  axis fuel hi step k x = Some l → StronglySorted Z.lt l.*1.
Proof.
  revert k x l. induction fuel as [|fuel IH]; intros k x l; simpl; [done|].
  destruct (Qltb x (hi - EPS)); [|intros [= <-]; constructor].
  destruct (axis fuel hi step (k + 1) (x + step)) as [rest|] eqn:E; intros; simplify_eq/=.
  constructor; [eauto|]. apply Forall_forall. intros j Hj.
  apply list_elem_of_fmap in Hj as ([j' s] & -> & Hin).
  apply (axis_starts _ _ _ _ _ _ _ _ E) in Hin. simpl. lia.
Qed.

Lemma grid_row_sorted colsL rl :
  StronglySorted Z.lt colsL.*1 → StronglySorted cell_lt (grid_row Math_cos cfg colsL rl).
Proof.
  unfold grid_row. induction colsL as [|cl colsL IH]; [constructor|].
  rewrite !fmap_cons, !StronglySorted_cons. intros [Hall Hs]. split; [|auto].
  rewrite Forall_forall in Hall. apply Forall_forall. intros c Hc.
  apply list_elem_of_fmap in Hc as (cl' & -> & Hin). right. simpl. split; [done|].
  apply Hall. apply list_elem_of_fmap. by exists cl'.
Qed.

Lemma grid_of_sorted rowsL colsL :
  StronglySorted Z.lt rowsL.*1 → StronglySorted Z.lt colsL.*1 →
  StronglySorted cell_lt (grid_of Math_cos cfg rowsL colsL).
Proof.
  intros Hr Hc. induction rowsL as [|rl rowsL IH]; simpl; [constructor|].
  simpl in Hr. apply StronglySorted_cons in Hr as [Hall Hr].
  apply StronglySorted_app. split; [|split; [by apply grid_row_sorted|auto]].
  intros c1 c2 H1 H2. left.
  apply list_elem_of_fmap in H1 as (cl & -> & _).
  apply elem_of_grid_of in H2 as (r & lat & k & lon & Hin & _ & ->). simpl.
  rewrite Forall_forall in Hall. apply Hall. apply list_elem_of_fmap. by exists (r, lat).
Qed.

Lemma grid_of_ids rowsL colsL c :
  c ∈ grid_of Math_cos cfg rowsL colsL → id c = cell_id (row c) (col c).
Proof. intros (r & lat & k & lon & _ & _ & ->)%elem_of_grid_of. done. Qed.

Lemma grid_of_nil_iff rowsL colsL :
  grid_of Math_cos cfg rowsL colsL = [] ↔ rowsL = [] ∨ colsL = [].
Proof.
  split.
  - destruct rowsL as [|rl rowsL]; [by left|]. destruct colsL as [|cl colsL]; [by right|]. done.
  - intros [->| ->]; [done|]. induction rowsL; simpl; done.
Qed.

Lemma last_grid_of rowsL colsL rl cl :
  last rowsL = Some rl → last colsL = Some cl →
  last (grid_of Math_cos cfg rowsL colsL) = Some (make_cell Math_cos cfg rl.1 rl.2 cl.1 cl.2).
Proof.
  intros Hr Hc. apply last_Some in Hr as [rowsL' ->].
  unfold grid_of. rewrite flat_map_app. simpl. rewrite app_nil_r.
  rewrite last_app. unfold grid_row at 1. rewrite fmap_last, Hc. done.
Qed.

Hypothesis DLAT_pos : (0 < DLAT cfg)%Q.
Hypothesis DLON_pos : (0 < DLON Math_cos cfg)%Q.

(** With positive steps both loops end, and [buildGrid] returns the product
    of the two axes. *)
Lemma buildGrid_total fuel :
  (grid_fuel Math_cos cfg ≤ fuel)%nat →
  ∃ rowsL colsL,
    lat_axis cfg fuel = Some rowsL ∧ lon_axis Math_cos cfg fuel = Some colsL ∧
    buildGrid Math_cos cfg fuel
    = Some {| cells := grid_of Math_cos cfg rowsL colsL; nrows := Z.of_nat (length rowsL) |}.
Proof using DLAT_pos DLON_pos.
  intros Hf. unfold grid_fuel in Hf.
  destruct (axis_terminates (LAT_MAX cfg) (DLAT cfg) DLAT_pos 0 (LAT_MIN cfg) fuel) as [rowsL Hr]; [lia|].
  destruct (axis_terminates (LON_MAX cfg) (DLON Math_cos cfg) DLON_pos 0 (LON_MIN cfg) fuel) as [colsL Hc]; [lia|].
  exists rowsL, colsL. auto using buildGrid_axes.
Qed.

(** Two different cells of the product have disjoint interiors. *)
Lemma grid_of_disjoint fuel rowsL colsL c1 c2 lat lon :
  lat_axis cfg fuel = Some rowsL → lon_axis Math_cos cfg fuel = Some colsL →
  c1 ∈ grid_of Math_cos cfg rowsL colsL → c2 ∈ grid_of Math_cos cfg rowsL colsL → cell_lt c1 c2 →
  ¬ (inside_cell c1 lat lon ∧ inside_cell c2 lat lon).
Proof using DLAT_pos DLON_pos.
  intros Hr Hc (r1 & lat1 & k1 & lon1 & Hr1 & Hk1 & ->)%elem_of_grid_of
    (r2 & lat2 & k2 & lon2 & Hr2 & Hk2 & ->)%elem_of_grid_of Hlt [[H1 H1'] [H2 H2']].
  unfold cell_lt in Hlt. simpl in *. destruct Hlt as [Hlt|[-> Hlt]].
  - pose proof (axis_ordered _ _ DLAT_pos _ _ _ _ _ _ _ _ Hr Hr1 Hr2 Hlt) as Hle.
    unfold upper in Hle. lra.
  - pose proof (axis_ordered _ _ DLON_pos _ _ _ _ _ _ _ _ Hc Hk1 Hk2 Hlt) as Hle.
    unfold upper in Hle. lra.
Qed.

(** The union of the cell boxes is the rectangle from the lower corner of
    the bounding box to the upper corner of the last cell. *)
Lemma grid_of_cover fuel rowsL colsL cl lat lon :
  lat_axis cfg fuel = Some rowsL → lon_axis Math_cos cfg fuel = Some colsL →
  last (grid_of Math_cos cfg rowsL colsL) = Some cl →
  (LAT_MAX cfg - EPS <= lat_max cl <= LAT_MAX cfg)%Q ∧
  (LON_MAX cfg - EPS <= lon_max cl <= LON_MAX cfg)%Q ∧
  ((∃ c, c ∈ grid_of Math_cos cfg rowsL colsL ∧ in_cell c lat lon) ↔
   (LAT_MIN cfg <= lat <= lat_max cl)%Q ∧ (LON_MIN cfg <= lon <= lon_max cl)%Q).
Proof using DLAT_pos DLON_pos.
  intros Hr Hc Hlast.
  assert (Hne : grid_of Math_cos cfg rowsL colsL ≠ []) by (apply last_is_Some; eauto).
  rewrite grid_of_nil_iff in Hne.
  destruct (last rowsL) as [[rL latL]|] eqn:HrL; [|apply last_None in HrL; tauto].
  destruct (last colsL) as [[kL lonL]|] eqn:HkL; [|apply last_None in HkL; tauto].
  rewrite (last_grid_of _ _ _ _ HrL HkL) in Hlast. simplify_eq/=.
  destruct (axis_cover _ _ DLAT_pos _ _ _ _ _ _ Hr HrL) as (Hb1 & Hc1).
  destruct (axis_cover _ _ DLON_pos _ _ _ _ _ _ Hc HkL) as (Hb2 & Hc2).
  unfold upper in *. split; [done|]. split; [done|]. split.
  - intros (c & (r & la & k & lo & Hin1 & Hin2 & ->)%elem_of_grid_of & [Hy Hx]). simpl in *. split.
    + apply Hc1. eauto.
    + apply Hc2. eauto.
  - intros [Hy Hx]. apply Hc1 in Hy as (r & la & Hin1 & Hy). apply Hc2 in Hx as (k & lo & Hin2 & Hx).
    exists (make_cell Math_cos cfg r la k lo). split; [|done].
    apply elem_of_grid_of. eauto 10.
Qed.

End GridFacts.

(** ** Claims about [buildGrid] *)

(** A positive resolution gives positive steps where the cosine of the
    middle latitude is positive. *)
Lemma steps_positive Math_cos cfg :
  (0 < GRID_KM cfg)%Q → (0 < Math_cos (Math_PI / 180 * MID_LAT cfg))%Q →
  (0 < DLAT cfg)%Q ∧ (0 < DLON Math_cos cfg)%Q.
Proof.
  intros Hkm Hcos. unfold DLAT, DLON, KM_PER_DEG_LON. split.
  - apply Qlt_shift_div_l; [done|]. lra.
  - apply Qlt_shift_div_l; [|lra].
    apply (Qmult_lt_0_compat (111320 # 1000)); done.
Qed.

(** C9.  For every grid that [buildGrid] returns, each cell id is the one
    derived from its (row, col), the ids are pairwise distinct, and along
    the cell sequence the row never decreases and, within a row, the column
    never decreases. *)
Theorem grid_ids_distinct_row_major Math_cos cfg fuel g :
  buildGrid Math_cos cfg fuel = Some g →
  (∀ c, c ∈ cells g → id c = cell_id (row c) (col c)) ∧
  NoDup (id <$> cells g) ∧
  (∀ i j ci cj, cells g !! i = Some ci → cells g !! j = Some cj → (i < j)%nat →
     row ci ≤ row cj ∧ (row ci = row cj → col ci ≤ col cj)).
Proof.
  intros (rowsL & colsL & Hr & Hc & ->)%buildGrid_inv. simpl.
  assert (Hs : StronglySorted cell_lt (grid_of Math_cos cfg rowsL colsL)).
  { apply grid_of_sorted; [by eapply axis_sorted|].
    destruct Hc as [[_ ->]|Hc]; [constructor|by eapply axis_sorted]. }
  split; [apply grid_of_ids|]. split.
  - pose proof (grid_of_ids Math_cos cfg rowsL colsL) as Hid.
    induction Hs as [|c l Hs IH Hall]; [constructor|].
    rewrite fmap_cons. constructor.
    + intros (c' & E & Hin)%list_elem_of_fmap.
      rewrite Forall_forall in Hall. specialize (Hall _ Hin).
      rewrite (Hid c), (Hid c') in E by (by constructor).
      apply cell_id_inj in E as [E1 E2]. unfold cell_lt in Hall. lia.
    + apply IH. intros c' Hin. apply Hid. by constructor.
  - intros i j ci cj Hi Hj Hlt.
    pose proof (StronglySorted_lookup_lt _ _ _ _ _ _ Hs Hi Hj Hlt) as Hcl.
    unfold cell_lt in Hcl. lia.
Qed.

Lemma grid_ids_distinct_row_major_witness :
  buildGrid Host.cos Ex.cfgA 10 = Some Ex.gridA ∧ NoDup (id <$> cells Ex.gridA).
Proof.
  assert (H : buildGrid Host.cos Ex.cfgA 10 = Some Ex.gridA) by (vm_compute; reflexivity).
  split; [exact H|]. exact (proj1 (proj2 (grid_ids_distinct_row_major _ _ _ _ H))).
Defined.

(** C3, as amended.  With positive steps [buildGrid] returns a grid in
    which every cell's upper bounds are [min(start + step, axisMax)], so no
    cell leaves the bounding box; two different cells have disjoint
    interiors; and the union of the cell boxes is the rectangle from the
    lower corner of the bounding box to the upper corner of the last cell,
    which is at most [1e-12] short of the bounding box on each axis.  The
    grid is empty exactly when a side of the box is at most [1e-12]. *)
Theorem grid_tiles_box_up_to_eps Math_cos cfg fuel :
  (0 < GRID_KM cfg)%Q → (0 < Math_cos (Math_PI / 180 * MID_LAT cfg))%Q →
  (grid_fuel Math_cos cfg ≤ fuel)%nat →
  ∃ g, buildGrid Math_cos cfg fuel = Some g ∧
    (∀ c, c ∈ cells g →
       lat_max c = Math_min (lat_min c + DLAT cfg) (LAT_MAX cfg) ∧
       lon_max c = Math_min (lon_min c + DLON Math_cos cfg) (LON_MAX cfg) ∧
       (LAT_MIN cfg <= lat_min c)%Q ∧ (lat_max c <= LAT_MAX cfg)%Q ∧
       (LON_MIN cfg <= lon_min c)%Q ∧ (lon_max c <= LON_MAX cfg)%Q) ∧
    (∀ i j ci cj lat lon, cells g !! i = Some ci → cells g !! j = Some cj → i ≠ j →
       ¬ (inside_cell ci lat lon ∧ inside_cell cj lat lon)) ∧
    (cells g = [] ↔
       (LAT_MAX cfg - EPS <= LAT_MIN cfg)%Q ∨ (LON_MAX cfg - EPS <= LON_MIN cfg)%Q) ∧
    (∀ cl, last (cells g) = Some cl →
       (LAT_MAX cfg - EPS <= lat_max cl <= LAT_MAX cfg)%Q ∧
       (LON_MAX cfg - EPS <= lon_max cl <= LON_MAX cfg)%Q ∧
       ∀ lat lon,
         (∃ c, c ∈ cells g ∧ in_cell c lat lon) ↔
         (LAT_MIN cfg <= lat <= lat_max cl)%Q ∧ (LON_MIN cfg <= lon <= lon_max cl)%Q).
Proof.
  intros Hkm Hcos Hfuel. destruct (steps_positive Math_cos cfg Hkm Hcos) as [HDLAT HDLON].
  destruct (buildGrid_total Math_cos cfg HDLAT HDLON fuel Hfuel) as (rowsL & colsL & Hr & Hc & Hg).
  eexists. split; [exact Hg|]. simpl. split; [|split; [|split]].
  - intros c (r & la & k & lo & Hin1 & Hin2 & ->)%elem_of_grid_of. simpl.
    destruct (axis_starts _ _ _ _ _ _ _ _ Hr Hin1) as (Hr0 & Er & _).
    destruct (axis_starts _ _ _ _ _ _ _ _ Hc Hin2) as (Hk0 & Ek & _).
    split; [done|]. split; [done|].
    assert (0 <= inject_Z (r - 0) * DLAT cfg)%Q.
    { apply Qmult_le_0_compat; [|lra]. change 0%Q with (inject_Z 0). rewrite <- Zle_Qle. lia. }
    assert (0 <= inject_Z (k - 0) * DLON Math_cos cfg)%Q.
    { apply Qmult_le_0_compat; [|lra]. change 0%Q with (inject_Z 0). rewrite <- Zle_Qle. lia. }
    split; [lra|]. split; [apply Math_min_le_r|]. split; [lra|apply Math_min_le_r].
  - assert (Hs : StronglySorted cell_lt (grid_of Math_cos cfg rowsL colsL))
      by (apply grid_of_sorted; by eapply axis_sorted).
    intros i j ci cj lat lon Hi Hj Hne.
    destruct (Nat.lt_total i j) as [Hlt|[?|Hlt]]; [|done|].
    + eapply grid_of_disjoint; eauto using list_elem_of_lookup_2.
      eapply StronglySorted_lookup_lt; eauto.
    + intros [H1 H2]. eapply (grid_of_disjoint _ _ HDLAT HDLON _ _ _ cj ci);
        eauto using list_elem_of_lookup_2.
      eapply StronglySorted_lookup_lt; eauto.
  - rewrite grid_of_nil_iff.
    rewrite (axis_nil_iff _ _ _ _ _ _ Hr), (axis_nil_iff _ _ _ _ _ _ Hc). done.
  - intros cl Hlast.
    pose proof (λ lat lon, grid_of_cover _ _ HDLAT HDLON _ _ _ _ lat lon Hr Hc Hlast) as H.
    destruct (H 0%Q 0%Q) as (? & ? & _). split; [done|]. split; [done|].
    intros lat lon. apply H.
Qed.

Lemma grid_tiles_box_up_to_eps_witness :
  (0 < GRID_KM Ex.cfgGap)%Q ∧
  (0 < Host.cos (Math_PI / 180 * MID_LAT Ex.cfgGap))%Q ∧
  (grid_fuel Host.cos Ex.cfgGap ≤ 10)%nat ∧
  ∃ g, buildGrid Host.cos Ex.cfgGap 10 = Some g ∧
       (cells g = [] ↔
        (LAT_MAX Ex.cfgGap - EPS <= LAT_MIN Ex.cfgGap)%Q ∨
        (LON_MAX Ex.cfgGap - EPS <= LON_MIN Ex.cfgGap)%Q).
Proof.
  assert (H1 : (0 < GRID_KM Ex.cfgGap)%Q) by reflexivity.
  assert (H2 : (0 < Host.cos (Math_PI / 180 * MID_LAT Ex.cfgGap))%Q) by reflexivity.
  assert (H3 : (grid_fuel Host.cos Ex.cfgGap ≤ 10)%nat) by (vm_compute; lia).
  split; [exact H1|]. split; [exact H2|]. split; [exact H3|].
  destruct (grid_tiles_box_up_to_eps Host.cos Ex.cfgGap 10 H1 H2 H3) as (g & Hg & _ & _ & Hnil & _).
  exists g. split; [exact Hg|exact Hnil].
Defined.

(** C3 as stated fails: with a longitude step of 1 and longitudes
    [0, 1.0000000000005] the single column ends at 1, the loop stops
    because 1 is not below [LON_MAX - 1e-12], and the strip above 1 is in no
    cell although the box is not inverted and the resolution is positive. *)
Lemma grid_exact_tiling_fails :
  (LAT_MIN Ex.cfgGap < LAT_MAX Ex.cfgGap)%Q ∧ (LON_MIN Ex.cfgGap < LON_MAX Ex.cfgGap)%Q ∧
  (0 < GRID_KM Ex.cfgGap)%Q ∧
  buildGrid Host.cos Ex.cfgGap 10 = Some Ex.gridGap ∧
  ¬ tiles_exactly Ex.cfgGap Ex.gridGap.
Proof.
  split; [reflexivity|]. split; [reflexivity|]. split; [reflexivity|].
  split; [vm_compute; reflexivity|].
  intros H. destruct (proj2 (H 0%Q (LON_MAX Ex.cfgGap))) as (c & Hin & _ & _ & Hle).
  { split; split; by vm_compute. }
  assert (Hall : Forall (λ c, Qltb (lon_max c) (LON_MAX Ex.cfgGap) = true) (cells Ex.gridGap)).
  { repeat constructor. }
  rewrite Forall_forall in Hall. apply Hall, Qltb_lt in Hin. lra.
Qed.

(** ** Ingestion *)

(** A key is still there after an insertion. *)
Ltac lookup_inserted :=
  match goal with
  | |- is_Some (<[?k := _]> _ !! ?c) =>
      destruct (decide (c = k)) as [->|];
      [rewrite lookup_insert_eq | rewrite lookup_insert_ne by done]; eauto
  end.

Section Ingestion.

Variable Math_cos : Q → Q.
Variable cfg : Config.
Variable grid : Grid.
Variable Number : option string → num.

Abbreviation on_data' := (on_data Math_cos cfg grid Number).
Abbreviation ingest' := (ingest Math_cos cfg grid Number).

Lemma stored_insert gm cid per d v :
  stored (<[cid := <[d := v]> per]> gm) cid d = Some v.
Proof. unfold stored. rewrite lookup_insert_eq. simpl. by rewrite lookup_insert_eq. Qed.

(** What one record does to the schema and to the set of dates. *)
Lemma on_data_dates st r st' s :
  on_data' st r = Ok st' → schema st = Some s →
  schema st' = Some s ∧
  dateSet st' = match s with
                | SchemaUnknown => dateSet st
                | _ => if bool_decide (row_date r = "") then dateSet st
                       else Set_add (row_date r) (dateSet st)
                end.
Proof.
  unfold on_data, row_date. intros H Hs. rewrite Hs in H.
  destruct s; simpl in H; repeat case_match; simplify_eq/=; done.
Qed.

(** The first record fixes the schema. *)
Lemma on_data_detect st r :
  schema st = None →
  on_data' st r
  = on_data' {| schema := Some (detectSchema r); dateSet := dateSet st; gridMap := gridMap st |} r.
Proof. unfold on_data. intros ->. done. Qed.

(** In the cell schema the listener never throws. *)
Lemma on_data_cell_ok st r :
  schema st = Some SchemaCell → ∃ st', on_data' st r = Ok st'.
Proof.
  unfold on_data. intros ->. simpl. repeat case_match; eauto.
Qed.

(** The store keeps its cells. *)
Lemma on_data_dom st r st' cid :
  on_data' st r = Ok st' → is_Some (gridMap st !! cid) → is_Some (gridMap st' !! cid).
Proof.
  unfold on_data. intros H Hin.
  repeat case_match; simplify_eq/=; try done; lookup_inserted.
Qed.

Lemma ingest_cell_ok rows : ∀ st,
  schema st = Some SchemaCell → ∃ st', ingest' st rows = Ok st'.
Proof.
  induction rows as [|r rows IH]; intros st Hs; simpl; [eauto|].
  destruct (on_data_cell_ok st r Hs) as [st1 H1]. rewrite H1. simpl.
  apply IH. by destruct (on_data_dates _ _ _ _ H1 Hs).
Qed.

Lemma ingest_app rows1 rows2 : ∀ st,
  ingest' st (rows1 ++ rows2) = bind (ingest' st rows1) (λ st', ingest' st' rows2).
Proof.
  induction rows1 as [|r rows1 IH]; intros st; simpl; [done|].
  destruct (on_data' st r); simpl; [apply IH|done].
Qed.

Lemma ingest_invariants rows : ∀ st st' s,
  ingest' st rows = Ok st' → schema st = Some s →
  schema st' = Some s ∧
  (∀ cid, is_Some (gridMap st !! cid) → is_Some (gridMap st' !! cid)).
Proof.
  induction rows as [|r rows IH]; intros st st' s; simpl.
  - intros [= <-]. auto.
  - destruct (on_data' st r) as [st1|] eqn:H1; simpl; [|done]. intros H Hs.
    destruct (on_data_dates _ _ _ _ H1 Hs) as [Hs1 _].
    destruct (IH _ _ _ H Hs1) as [Hs' Hdom]. split; [done|].
    intros cid Hc. apply Hdom. by eapply on_data_dom.
Qed.

(** An accepted record of the cell schema stores its value as it is. *)
Lemma on_data_cell_store st r d v cid per :
  schema st = Some SchemaCell →
  row_date r = d → d ≠ "" → Number (r !! "value") = Fin v →
  row_cell r = cid → gridMap st !! cid = Some per →
  on_data' st r
  = Ok {| schema := Some SchemaCell; dateSet := Set_add d (dateSet st);
          gridMap := <[cid := <[d := v]> per]> (gridMap st) |}.
Proof.
  unfold on_data, row_date, row_cell. intros -> Hd Hne Hv Hc Hper. simpl.
  rewrite Hd, Hv, Hc. simpl. rewrite Hper.
  by rewrite bool_decide_eq_false_2.
Qed.

(** An accepted record of the point schema stores its value, or the mean of
    its value and the one already there. *)
Lemma on_data_point_store st r d v lat lon cid per :
  schema st = Some SchemaPoint →
  row_date r = d → d ≠ "" → Number (r !! "value") = Fin v →
  Number (nullish (r !! "lat") (r !! "lat_c")) = Fin lat →
  Number (nullish (r !! "lon") (r !! "lon_c")) = Fin lon →
  binPointToCell Math_cos cfg grid lat lon = Some cid →
  gridMap st !! cid = Some per →
  on_data' st r
  = Ok {| schema := Some SchemaPoint; dateSet := Set_add d (dateSet st);
          gridMap := <[cid := <[d := match per !! d with
                                     | Some old => ((old + v) / 2)%Q
                                     | None => v
                                     end]> per]> (gridMap st) |}.
Proof.
  unfold on_data, row_date. intros -> Hd Hne Hv Hlat Hlon Hbin Hper. simpl.
  rewrite Hd, Hv, Hlat, Hlon. simpl. rewrite Hbin, Hper.
  by rewrite bool_decide_eq_false_2.
Qed.

(** A point binned to an id that is not a key of the store makes the
    listener throw: [per] is [undefined] and [per.has(d)] is a TypeError. *)
Lemma on_data_point_throw st r v lat lon cid :
  schema st = Some SchemaPoint →
  row_date r ≠ "" → Number (r !! "value") = Fin v →
  Number (nullish (r !! "lat") (r !! "lat_c")) = Fin lat →
  Number (nullish (r !! "lon") (r !! "lon_c")) = Fin lon →
  binPointToCell Math_cos cfg grid lat lon = Some cid →
  gridMap st !! cid = None →
  on_data' st r = Throw.
Proof.
  unfold on_data, row_date. intros -> Hne Hv Hlat Hlon Hbin Hper. simpl.
  rewrite Hv, Hlat, Hlon. simpl. rewrite Hbin, Hper.
  by rewrite bool_decide_eq_false_2.
Qed.


Lemma on_data_point_outside st r lat lon st' :
  schema st = Some SchemaPoint →
  Number (nullish (r !! "lat") (r !! "lat_c")) = Fin lat →
  Number (nullish (r !! "lon") (r !! "lon_c")) = Fin lon →
  binPointToCell Math_cos cfg grid lat lon = None →
  on_data' st r = Ok st' → gridMap st' = gridMap st.
Proof.
  unfold on_data. intros -> Hlat Hlon Hbin. simpl.
  rewrite Hlat, Hlon. simpl. rewrite Hbin.
  repeat case_match; intros; simplify_eq/=; done.
Qed.

End Ingestion.

(** The store that [loadCsv] returns has every cell of the grid as a key. *)
Lemma initGridMap_has_cells grid c : c ∈ cells grid → is_Some (initGridMap grid !! id c).
Proof.
  intros Hc. unfold initGridMap.
  destruct (list_to_map _ !! id c) eqn:E; [eauto|].
  apply not_elem_of_list_to_map_2 in E. exfalso. apply E.
  rewrite <- list_fmap_compose. apply list_elem_of_fmap. by exists c.
Qed.

Lemma ingest_dom Math_cos cfg grid Number rows cid : ∀ st st',
  ingest Math_cos cfg grid Number st rows = Ok st' →
  is_Some (gridMap st !! cid) → is_Some (gridMap st' !! cid).
Proof.
  induction rows as [|r rows IH]; intros st st'; simpl; [by intros [= <-]|].
  destruct (on_data Math_cos cfg grid Number st r) as [st1|] eqn:H1; simpl; [|done].
  intros H Hc. eapply IH; [done|]. by eapply on_data_dom.
Qed.

Lemma loadCsv_has_cells Math_cos cfg grid Number rows gm dates :
  loadCsv Math_cos cfg grid Number (Some rows) = Ok (Some gm, dates) →
  ∀ c, c ∈ cells grid → is_Some (gm !! id c).
Proof.
  unfold loadCsv.
  destruct (ingest Math_cos cfg grid Number _ rows) as [st|] eqn:H; simpl; [|done].
  intros [= <- <-] c Hc. eapply ingest_dom; [done|]. by apply initGridMap_has_cells.
Qed.

(** When [loadCsv] returns on a stream, it returns what [loaded] shows. *)
Lemma loadCsv_loaded Math_cos cfg grid Number rows :
  returns (loadCsv Math_cos cfg grid Number (Some rows)) = true →
  loadCsv Math_cos cfg grid Number (Some rows)
  = Ok (Some (loaded (loadCsv Math_cos cfg grid Number (Some rows)) ∅).1,
        (loaded (loadCsv Math_cos cfg grid Number (Some rows)) ∅).2).
Proof.
  unfold loadCsv. destruct (ingest Math_cos cfg grid Number _ rows); simpl; done.
Qed.

Lemma Data_load_has_cells rows c :
  returns (loadCsv Host.cos Ex.cfgA Ex.gridA Host.Number (Some rows)) = true →
  c ∈ cells Ex.gridA → is_Some ((Data.load rows).1 !! id c).
Proof.
  intros H. eapply loadCsv_has_cells. apply loadCsv_loaded, H.
Qed.

Lemma Data_store_has_cells c : c ∈ cells Ex.gridA → is_Some (Data.store !! id c).
Proof. apply Data_load_has_cells. vm_compute. reflexivity. Qed.

Lemma Data_small_store_has_cells c : c ∈ cells Ex.gridA → is_Some (Data.small_store !! id c).
Proof. apply Data_load_has_cells. vm_compute. reflexivity. Qed.

(** ** Claims about [loadCsv] *)

(** C10.  In the cell schema, when two accepted records carry the same cell
    id and the same date, the first stores its value and, whatever comes in
    between, after the second the stored value is the second record's
    value: nothing is averaged. *)
Theorem cell_schema_last_write_wins Math_cos cfg grid Number st r1 mid r2 cid d v1 v2 :
  schema st = Some SchemaCell →
  is_Some (gridMap st !! cid) →
  d ≠ "" →
  row_cell r1 = cid → row_date r1 = d → Number (r1 !! "value") = Fin v1 →
  row_cell r2 = cid → row_date r2 = d → Number (r2 !! "value") = Fin v2 →
  ∃ st1 st2,
    on_data Math_cos cfg grid Number st r1 = Ok st1 ∧
    stored (gridMap st1) cid d = Some v1 ∧
    ingest Math_cos cfg grid Number st (r1 :: mid ++ [r2]) = Ok st2 ∧
    stored (gridMap st2) cid d = Some v2.
Proof.
  intros Hs [per Hper] Hne Hc1 Hd1 Hv1 Hc2 Hd2 Hv2.
  pose proof (on_data_cell_store Math_cos cfg grid Number st r1 d v1 cid per
                Hs Hd1 Hne Hv1 Hc1 Hper) as H1.
  eexists. simpl. rewrite H1. simpl.
  set (st1 := {| schema := Some SchemaCell; dateSet := _; gridMap := _ |}).
  assert (Hs1 : schema st1 = Some SchemaCell) by done.
  rewrite ingest_app.
  destruct (ingest_cell_ok Math_cos cfg grid Number mid st1 Hs1) as [stm Hm].
  rewrite Hm. simpl.
  destruct (ingest_invariants _ _ _ _ _ _ _ _ Hm Hs1) as [Hsm Hdom].
  destruct (Hdom cid) as [perm Hperm]; [subst st1; simpl; rewrite lookup_insert_eq; eauto|].
  rewrite (on_data_cell_store Math_cos cfg grid Number stm r2 d v2 cid perm
             Hsm Hd2 Hne Hv2 Hc2 Hperm). simpl.
  eexists. split; [done|]. split; [apply stored_insert|]. split; [done|apply stored_insert].
Qed.

Lemma cell_schema_last_write_wins_witness :
  ∃ st2,
    ingest Host.cos Ex.cfgA Ex.gridA Host.Number (Rows.start SchemaCell)
      [Rows.cell "r0c0" "2024-01-01" "0.5"; Rows.cell "r0c0" "2024-01-01" "0.8"] = Ok st2 ∧
    stored (gridMap st2) "r0c0" "2024-01-01" = Some (4 # 5)%Q.
Proof.
  destruct (cell_schema_last_write_wins Host.cos Ex.cfgA Ex.gridA Host.Number
              (Rows.start SchemaCell)
              (Rows.cell "r0c0" "2024-01-01" "0.5") []
              (Rows.cell "r0c0" "2024-01-01" "0.8")
              "r0c0" "2024-01-01" (1 # 2)%Q (4 # 5)%Q)
    as (st1 & st2 & _ & _ & H & Hv);
    [reflexivity | by vm_compute; eexists | discriminate
    | reflexivity | reflexivity | reflexivity | reflexivity | reflexivity | reflexivity |].
  exists st2. split; [exact H|exact Hv].
Defined.

(** C8.  In the point schema, when an accepted observation of value [v]
    lands in a cell and date that hold [old], the stored value becomes
    [(old + v) / 2]. *)
Theorem point_schema_running_average Math_cos cfg grid Number st r d v lat lon cid old :
  schema st = Some SchemaPoint →
  row_date r = d → d ≠ "" → Number (r !! "value") = Fin v →
  Number (nullish (r !! "lat") (r !! "lat_c")) = Fin lat →
  Number (nullish (r !! "lon") (r !! "lon_c")) = Fin lon →
  binPointToCell Math_cos cfg grid lat lon = Some cid →
  stored (gridMap st) cid d = Some old →
  ∃ st', on_data Math_cos cfg grid Number st r = Ok st' ∧
         stored (gridMap st') cid d = Some ((old + v) / 2)%Q.
Proof.
  intros Hs Hd Hne Hv Hlat Hlon Hbin Hold. unfold stored in Hold.
  destruct (gridMap st !! cid) as [per|] eqn:Hper; [|done]. simpl in Hold.
  rewrite (on_data_point_store Math_cos cfg grid Number st r d v lat lon cid per)
    by done.
  eexists. split; [done|]. simpl. rewrite Hold. apply stored_insert.
Qed.

(** Values 1.0 then 2.0 in the same cell and date leave 1.5. *)
Lemma point_schema_running_average_witness :
  stored (gridMap Rows.after_one) "r1c0" "2024-01-01" = Some 1%Q ∧
  ∃ st', on_data Host.cos Ex.cfgA Ex.gridA Host.Number Rows.after_one
           (Rows.point "0" "0.25" "2024-01-01" "2.0") = Ok st' ∧
         stored (gridMap st') "r1c0" "2024-01-01" = Some ((1 + 2) / 2)%Q ∧
         ((1 + 2) / 2 == 3 # 2)%Q.
Proof.
  assert (H1 : stored (gridMap Rows.after_one) "r1c0" "2024-01-01" = Some 1%Q)
    by (vm_compute; reflexivity).
  split; [exact H1|].
  destruct (point_schema_running_average Host.cos Ex.cfgA Ex.gridA Host.Number Rows.after_one
              (Rows.point "0" "0.25" "2024-01-01" "2.0")
              "2024-01-01" 2%Q 0%Q (1 # 4)%Q "r1c0" 1%Q)
    as (st' & H & Hv);
    [reflexivity | reflexivity | discriminate | reflexivity | reflexivity | reflexivity
    | reflexivity | exact H1 |].
  exists st'. split; [exact H|]. split; [exact Hv|reflexivity].
Defined.

(** C4, at a failing input.  In grid A (longitudes [0, 1], step 1/2, columns
    0 and 1) the point (lat 0, lon 1) is inside the bounding box and bins to
    column 2.  Its id r1c2 is not a cell of the grid, and the listener does
    not drop the record: [loadCsv] throws. *)
Theorem point_beyond_last_column_throws :
  buildGrid Host.cos Ex.cfgA 10 = Some Ex.gridA ∧
  binPointToCell Host.cos Ex.cfgA Ex.gridA 0 1 = Some "r1c2" ∧
  ("r1c2" ∉ id <$> cells Ex.gridA) ∧
  loadCsv Host.cos Ex.cfgA Ex.gridA Host.Number
    (Some [Rows.point "0" "1" "2024-01-01" "0.5"]) = Throw.
Proof.
  split; [vm_compute; reflexivity|]. split; [vm_compute; reflexivity|].
  split; [|vm_compute; reflexivity].
  apply (bool_decide_unpack _). vm_compute. exact I.
Qed.

Lemma elem_of_Set_add d d' s : d' ∈ Set_add d s ↔ d' = d ∨ d' ∈ s.
Proof.
  unfold Set_add. case_bool_decide as H.
  - split; [auto|]. by intros [->|].
  - rewrite elem_of_app, list_elem_of_singleton. tauto.
Qed.

Lemma NoDup_Set_add d s : NoDup s → NoDup (Set_add d s).
Proof.
  unfold Set_add. case_bool_decide as H; [done|]. intros Hs.
  apply NoDup_app. split; [done|]. split; [|apply NoDup_singleton].
  intros x Hx ->%list_elem_of_singleton. done.
Qed.

(** The set of dates after a stream: the non-empty dates of all its
    records, when the schema is known. *)
Lemma ingest_dates Math_cos cfg grid Number rows : ∀ st st' s,
  ingest Math_cos cfg grid Number st rows = Ok st' → schema st = Some s →
  NoDup (dateSet st) →
  NoDup (dateSet st') ∧
  ∀ d, d ∈ dateSet st' ↔
       d ∈ dateSet st ∨ (s ≠ SchemaUnknown ∧ d ≠ "" ∧ ∃ r, r ∈ rows ∧ row_date r = d).
Proof.
  induction rows as [|r rows IH]; intros st st' s; simpl.
  - intros [= <-] _ Hnd. split; [done|]. intros d. split; [auto|].
    intros [|(_ & _ & r & Hr & _)]; [done|]. by apply elem_of_nil in Hr.
  - destruct (on_data Math_cos cfg grid Number st r) as [st1|] eqn:H1; simpl; [|done].
    intros H Hs Hnd. destruct (on_data_dates _ _ _ _ _ _ _ _ H1 Hs) as [Hs1 Hd1].
    assert (Hnd1 : NoDup (dateSet st1)).
    { rewrite Hd1. destruct s; try case_bool_decide; auto using NoDup_Set_add. }
    destruct (IH _ _ _ H Hs1 Hnd1) as [Hnd' Hiff]. split; [done|].
    intros d. rewrite Hiff, Hd1. clear.
    assert (Hrows : (∃ r0, r0 ∈ r :: rows ∧ row_date r0 = d) ↔
                    row_date r = d ∨ ∃ r0, r0 ∈ rows ∧ row_date r0 = d).
    { split.
      - intros (r0 & [->|Hin]%elem_of_cons & Hd); eauto.
      - intros [Hd|(r0 & Hin & Hd)]; [exists r|exists r0]; rewrite elem_of_cons; auto. }
    rewrite Hrows. clear Hrows.
    destruct s; try case_bool_decide; rewrite ?elem_of_Set_add; intuition congruence.
Qed.

(** C5, as amended.  When ingestion completes, the date index is strictly
    ascending (sorted, without repetition) and holds exactly the non-empty
    date strings of the records of the stream, provided the schema detected
    on the first record is known; whether a record's value was kept plays
    no part. *)
Theorem date_index_is_sorted_dates_seen Math_cos cfg grid Number rows gm dates :
  loadCsv Math_cos cfg grid Number (Some rows) = Ok (gm, dates) →
  StronglySorted String.le dates ∧ NoDup dates ∧
  ∀ d, d ∈ dates ↔
       d ≠ "" ∧ ∃ r0 rest r,
         rows = r0 :: rest ∧ detectSchema r0 ≠ SchemaUnknown ∧ r ∈ rows ∧ row_date r = d.
Proof.
  unfold loadCsv.
  destruct (ingest Math_cos cfg grid Number _ rows) as [st|] eqn:H; simpl; [|done].
  intros [= <- <-]. unfold Array_sort.
  split; [apply StronglySorted_merge_sort; apply _|].
  assert (Hgoal : NoDup (dateSet st) ∧ ∀ d, d ∈ dateSet st ↔
            d ≠ "" ∧ ∃ r0 rest r,
              rows = r0 :: rest ∧ detectSchema r0 ≠ SchemaUnknown ∧ r ∈ rows ∧ row_date r = d).
  { destruct rows as [|r0 rest].
    - simpl in H. simplify_eq/=. split; [constructor|].
      intros d. split; [by intros ?%elem_of_nil|]. by intros (_ & ? & ? & ? & ? & _).
    - simpl in H. rewrite on_data_detect in H by done.
      change (bind ?m ?k) with (ingest Math_cos cfg grid Number
        {| schema := Some (detectSchema r0); dateSet := []; gridMap := initGridMap grid |}
        (r0 :: rest)) in H.
      destruct (ingest_dates _ _ _ _ _ _ _ _ H eq_refl) as [Hnd Hiff]; [constructor|].
      split; [done|]. intros d. rewrite Hiff. simpl. split.
      + intros [?%elem_of_nil|(Hs & Hne & r & Hr & Hd)]; [done|]. eauto 10.
      + intros (Hne & r0' & rest' & r & [= <- <-] & Hs & Hr & Hd). right. eauto. }
  destruct Hgoal as [Hnd Hiff]. split.
  - by rewrite merge_sort_Permutation.
  - intros d. by rewrite merge_sort_Permutation.
Qed.

Lemma date_index_is_sorted_dates_seen_witness :
  loadCsv Host.cos Ex.cfgA Ex.gridA Host.Number (Some Data.dropped_rows)
  = Ok (Some Data.dropped_store, Data.dropped_dates) ∧
  Data.dropped_dates = ["2024-01-01"; "2024-01-02"] ∧
  StronglySorted String.le Data.dropped_dates.
Proof.
  assert (H : loadCsv Host.cos Ex.cfgA Ex.gridA Host.Number (Some Data.dropped_rows)
              = Ok (Some Data.dropped_store, Data.dropped_dates))
    by (apply loadCsv_loaded; vm_compute; reflexivity).
  split; [exact H|]. split; [vm_compute; reflexivity|].
  exact (proj1 (date_index_is_sorted_dates_seen _ _ _ _ _ _ _ H)).
Defined.

(** C5 as stated fails: a record whose value is not a number is dropped,
    yet its date enters the date index. *)
Lemma date_of_dropped_row_is_indexed :
  loadCsv Host.cos Ex.cfgA Ex.gridA Host.Number (Some Data.dropped_rows)
  = Ok (Some Data.dropped_store, Data.dropped_dates) ∧
  "2024-01-02" ∈ Data.dropped_dates ∧
  ¬ ∃ r, r ∈ Data.dropped_rows ∧
         accepted Host.cos Ex.cfgA Ex.gridA Host.Number SchemaCell r ∧
         row_date r = "2024-01-02".
Proof.
  split; [apply loadCsv_loaded; vm_compute; reflexivity|]. split.
  - apply (bool_decide_unpack _). vm_compute. exact I.
  - intros (r & Hr & (_ & Hfin & _) & Hd). unfold Data.dropped_rows in Hr.
    apply elem_of_cons in Hr as [->|Hr]; [by vm_compute in Hd|].
    apply list_elem_of_singleton in Hr as ->. vm_compute in Hfin. by destruct Hfin.
Qed.

(** ** Feature generation *)

Section Features.

Variable cfg : Config.
Variable grid : Grid.
Variable DATES_ISO : list string.
Variable m : GridMap.
Variable metric : string.
Variable stride : Z.
Variable minValue : option num.

(** Every cell of the grid is a key of the store, as [loadCsv] builds it. *)
Hypothesis store_has_cells : ∀ c, c ∈ cells grid → is_Some (m !! id c).

Abbreviation pushed' := (pushed cfg DATES_ISO (Some m) metric stride minValue).

Lemma get_or_0_value_at c per ti :
  m !! id c = Some per → get_or_0 per (DATES_ISO !! ti) = value_at DATES_ISO m c ti.
Proof using Type.
  intros H. unfold get_or_0, value_at, stored.
  destruct (DATES_ISO !! ti); simpl; [|done]. by rewrite H.
Qed.

Lemma feature_step_ok c ti :
  is_Some (m !! id c) →
  feature_step cfg DATES_ISO (Some m) metric stride minValue ti c = Ok (pushed' ti c).
Proof using Type.
  intros [per H]. unfold pushed, feature_step. rewrite H.
  repeat case_match; done.
Qed.

Lemma cells_loop_pushed ti cs : ∀ feats,
  (∀ c, c ∈ cs → is_Some (m !! id c)) →
  cells_loop cfg DATES_ISO (Some m) metric stride minValue ti cs feats
  = Ok (feats ++ omap (pushed' ti) cs).
Proof using Type.
  induction cs as [|c cs IH]; intros feats Hin; simpl; [by rewrite app_nil_r|].
  rewrite feature_step_ok by (apply Hin; left). simpl.
  rewrite IH by (intros; apply Hin; by right).
  destruct (pushed' ti c); simpl; [by rewrite <- app_assoc|done].
Qed.

Lemma dates_loop_pushed idx : ∀ feats,
  dates_loop cfg grid DATES_ISO (Some m) metric stride minValue idx feats
  = Ok (feats ++ flat_map (λ ti, omap (pushed' ti) (cells grid)) idx).
Proof using store_has_cells.
  induction idx as [|ti idx IH]; intros feats; simpl; [by rewrite app_nil_r|].
  rewrite cells_loop_pushed by done. simpl. rewrite IH. by rewrite <- app_assoc.
Qed.

(** [buildFeatures] returns what the passes push, dates outermost, cells in
    grid order. *)
Lemma buildFeatures_pushed idx :
  buildFeatures cfg grid DATES_ISO (Some m) idx metric stride minValue
  = Ok (flat_map (λ ti, omap (pushed' ti) (cells grid)) idx).
Proof using store_has_cells. unfold buildFeatures. by rewrite dates_loop_pushed. Qed.

Lemma elem_of_features idx f :
  f ∈ flat_map (λ ti, omap (pushed' ti) (cells grid)) idx ↔
  ∃ ti c, ti ∈ idx ∧ c ∈ cells grid ∧ pushed' ti c = Some f.
Proof using Type.
  rewrite list_elem_of_In, in_flat_map. setoid_rewrite <- list_elem_of_In.
  setoid_rewrite list_elem_of_omap. split.
  - intros (ti & Hti & c & Hc & Hp). eauto.
  - intros (ti & c & Hti & Hc & Hp). eauto.
Qed.

(** A pass pushes exactly when the cell passes the stride test and the value
    passes the threshold test, and then pushes the feature of that cell and
    date with the value rounded to four decimals. *)
Lemma pushed_spec c ti :
  is_Some (m !! id c) →
  (is_Some (pushed' ti c) ↔ stride_passes stride c ∧ threshold_passes metric minValue (pass_value DATES_ISO m metric c ti)) ∧
  ∀ f, pushed' ti c = Some f →
       f_time f = DATES_ISO !! ti ∧ f_cell_id f = id c ∧ f_row f = row c ∧ f_col f = col c ∧
       f_value f = toFixed 4 (pass_value DATES_ISO m metric c ti).
Proof using Type.
  intros [per H]. unfold pushed, feature_step, stride_passes, threshold_passes, pass_value.
  rewrite H.
  assert (Hprev : (if (0 <? ti)%nat then get_or_0 per (DATES_ISO !! (ti - 1)%nat) else 0%Q)
                  = previous_at DATES_ISO m c ti).
  { destruct ti as [|p]; simpl; [done|]. rewrite Nat.sub_0_r. by apply get_or_0_value_at. }
  rewrite Hprev. clear Hprev. rewrite !(get_or_0_value_at c per) by done.
  set (val := if bool_decide (metric = "delta") then _ else _).
  assert (Hstride : (1 <? stride) && (negb (js_rem (row c) stride =? 0)
                                      || negb (js_rem (col c) stride =? 0)) = false
                    ↔ stride ≤ 1 ∨ js_rem (row c) stride = 0 ∧ js_rem (col c) stride = 0).
  { rewrite andb_false_iff, orb_false_iff, !negb_false_iff, Z.ltb_ge, !Z.eqb_eq. done. }
  assert (Hmin : match minValue with
                 | Some mv => bool_decide (metric = "value") && negb (js_gt val mv)
                 | None => false
                 end = false
                 ↔ match minValue with
                   | Some mv => metric = "value" → js_gt val mv = true
                   | None => True
                   end).
  { destruct minValue as [mv|]; [|done].
    rewrite andb_false_iff, negb_false_iff, bool_decide_eq_false. split.
    - intros [Hne|Hgt] Hm; [done|done].
    - intros Himp. destruct (decide (metric = "value")); auto. }
  destruct ((1 <? stride) && _) eqn:E1.
  { split; [|done]. split; [by intros []|]. intros [Hst _]. apply Hstride in Hst. done. }
  destruct (match minValue with Some _ => _ | None => _ end) eqn:E2.
  { split; [|done]. split; [by intros []|]. intros [_ Hth]. apply Hmin in Hth. done. }
  split.
  - split; [intros _|eauto]. split; [by apply Hstride|by apply Hmin].
  - by intros f [= <-].
Qed.

End Features.

(** ** Claims about [buildFeatures] *)

(** C1, as amended.  Over a store that has every cell of the grid,
    [buildFeatures] returns, and every feature it returns belongs to a
    requested date index [ti] and a cell [c] of the grid; its value is,
    rounded to four decimals, the stored value of [c] at date [ti] (0 when
    there is none) for metric value and, for metric delta, that value minus
    the value at index [ti - 1] of the whole date index, or minus 0 when
    [ti] is the first index. *)
Theorem emitted_value_is_rounded_value_or_delta
    cfg grid DATES_ISO m idx metric stride minValue :
  (∀ c, c ∈ cells grid → is_Some (m !! id c)) →
  ∃ feats,
    buildFeatures cfg grid DATES_ISO (Some m) idx metric stride minValue = Ok feats ∧
    ∀ f, f ∈ feats →
      ∃ ti c, ti ∈ idx ∧ c ∈ cells grid ∧
        f_time f = DATES_ISO !! ti ∧ f_cell_id f = id c ∧
        (metric = "value" →
           f_value f = toFixed 4 (default 0%Q (DATES_ISO !! ti ≫= stored m (id c)))) ∧
        (metric = "delta" →
           f_value f = toFixed 4 (value_at DATES_ISO m c ti
                                  - match ti with
                                    | O => 0
                                    | S p => value_at DATES_ISO m c p
                                    end)%Q).
Proof.
  intros Hm. eexists. split; [by apply buildFeatures_pushed|].
  intros f (ti & c & Hti & Hc & Hp)%elem_of_features.
  destruct (pushed_spec cfg DATES_ISO m metric stride minValue c ti (Hm c Hc)) as [_ Hf].
  destruct (Hf f Hp) as (Ht & Hid & _ & _ & Hv).
  exists ti, c. split; [done|]. split; [done|]. split; [done|]. split; [done|].
  unfold pass_value in Hv. split; intros ->; rewrite Hv; by destruct ti.
Qed.

Lemma emitted_value_is_rounded_value_or_delta_witness :
  ∃ feats,
    buildFeatures Ex.cfgA Ex.gridA Data.dates (Some Data.store) [1%nat] "delta" 1 None = Ok feats ∧
    ∀ f, f ∈ feats → ∃ ti c, ti ∈ [1%nat] ∧ c ∈ cells Ex.gridA ∧ f_cell_id f = id c.
Proof.
  destruct (emitted_value_is_rounded_value_or_delta Ex.cfgA Ex.gridA Data.dates Data.store
              [1%nat] "delta" 1 None Data_store_has_cells) as (feats & H & Hall).
  exists feats. split; [exact H|].
  intros f Hf. destruct (Hall f Hf) as (ti & c & Hti & Hc & _ & Hid & _).
  exists ti, c. split; [exact Hti|]. split; [exact Hc|exact Hid].
Defined.

(** Cell r0c0 holds 0.5 then 0.8: its delta is 0.5 on the first date of the
    index and 0.3 on the second, also when only the second is requested. *)
Example delta_of_first_and_second_date :
  emitted_values
    (buildFeatures Ex.cfgA Ex.gridA Data.dates (Some Data.store) [0%nat; 1%nat] "delta" 4 None)
  = Some [(1 # 2)%Q; (3 # 10)%Q] ∧
  emitted_values
    (buildFeatures Ex.cfgA Ex.gridA Data.dates (Some Data.store) [1%nat] "delta" 4 None)
  = Some [(3 # 10)%Q].
Proof. split; vm_compute; reflexivity. Qed.

(** C1 as stated fails: the stored value 0.00004 is emitted as 0. *)
Lemma small_value_is_emitted_as_zero :
  loadCsv Host.cos Ex.cfgA Ex.gridA Host.Number (Some Data.small_rows)
  = Ok (Some Data.small_store, Data.small_dates) ∧
  stored Data.small_store "r0c0" "2024-01-01" = Some (1 # 25000)%Q ∧
  ∃ feats,
    buildFeatures Ex.cfgA Ex.gridA Data.small_dates (Some Data.small_store)
      [0%nat] "value" 1 None = Ok feats ∧
    ¬ emits_stored_values Data.small_store feats.
Proof.
  split; [apply loadCsv_loaded; vm_compute; reflexivity|]. split; [vm_compute; reflexivity|].
  eexists. split; [apply buildFeatures_pushed; exact Data_small_store_has_cells|].
  intros H.
  set (c0 := make_cell Host.cos Ex.cfgA 0 (-1) 0 0).
  assert (Hin : c0 ∈ cells Ex.gridA) by (vm_compute; left).
  destruct (pushed Ex.cfgA Data.small_dates (Some Data.small_store) "value" 1 None 0 c0)
    as [f|] eqn:Hp; [|by vm_compute in Hp].
  assert (Hf : f_time f = Some "2024-01-01" ∧ f_cell_id f = "r0c0" ∧ (f_value f == 0)%Q).
  { vm_compute in Hp. injection Hp as <-. split; [done|]. split; done. }
  destruct Hf as (Ht & Hid & Hv).
  assert (Hfeat : f ∈ flat_map
            (λ ti, omap (pushed Ex.cfgA Data.small_dates (Some Data.small_store) "value" 1 None ti)
                     (cells Ex.gridA)) [0%nat]).
  { apply elem_of_features. exists 0%nat, c0. split; [by left|]. split; done. }
  specialize (H f "2024-01-01" Hfeat Ht).
  rewrite Hid, Hv in H.
  assert (Hst : stored Data.small_store "r0c0" "2024-01-01" = Some (1 # 25000)%Q)
    by (vm_compute; reflexivity).
  rewrite Hst in H. simpl in H. discriminate H.
Qed.

(** C6.  Over a store that has every cell of the grid, [buildFeatures]
    returns the features pushed by its passes, and for a cell that passes
    the stride test: with metric value and a threshold [mv], the pass pushes
    a feature exactly when the cell's value is strictly greater than [mv];
    with metric delta, or without a threshold, the pass always pushes. *)
Theorem threshold_applies_to_value_only
    cfg grid DATES_ISO m idx metric stride minValue :
  (∀ c, c ∈ cells grid → is_Some (m !! id c)) →
  ∃ feats,
    buildFeatures cfg grid DATES_ISO (Some m) idx metric stride minValue = Ok feats ∧
    feats = flat_map (λ ti, omap (pushed cfg DATES_ISO (Some m) metric stride minValue ti)
                              (cells grid)) idx ∧
    ∀ ti c, c ∈ cells grid → stride_passes stride c →
      (∀ mv, metric = "value" → minValue = Some mv →
         (is_Some (pushed cfg DATES_ISO (Some m) metric stride minValue ti c)
          ↔ js_gt (value_at DATES_ISO m c ti) mv = true)) ∧
      (metric = "delta" ∨ minValue = None →
         is_Some (pushed cfg DATES_ISO (Some m) metric stride minValue ti c)).
Proof.
  intros Hm. eexists. split; [by apply buildFeatures_pushed|]. split; [done|].
  intros ti c Hc Hst.
  destruct (pushed_spec cfg DATES_ISO m metric stride minValue c ti (Hm c Hc)) as [Hiff _].
  split.
  - intros mv -> ->. rewrite Hiff. unfold threshold_passes, pass_value. simpl.
    split; [intros [_ H]; by apply H|auto].
  - intros H. apply Hiff. split; [done|]. unfold threshold_passes.
    destruct H as [->| ->]; [|done]. destruct minValue; [|done]. intros [=].
Qed.

Lemma threshold_applies_to_value_only_witness :
  ∃ feats,
    buildFeatures Ex.cfgA Ex.gridA Data.dates (Some Data.store) [1%nat] "value" 2
      (Some (Fin (1 # 10))) = Ok feats ∧
    f_cell_id <$> feats = ["r0c0"].
Proof.
  destruct (threshold_applies_to_value_only Ex.cfgA Ex.gridA Data.dates Data.store
              [1%nat] "value" 2 (Some (Fin (1 # 10))) Data_store_has_cells)
    as (feats & H & -> & _).
  eexists. split; [exact H|]. vm_compute. reflexivity.
Defined.

(** C7.  For a stride [k ≥ 1], over a store that has every cell of the
    grid: every feature returned comes from a cell whose row and column
    leave remainder 0 modulo [k]; for every requested date, every such cell
    has its feature in the result unless the threshold test drops it; and
    with [k = 1] that holds for every cell of the grid. *)
Theorem stride_selects_cells cfg grid DATES_ISO m idx metric k minValue :
  0 < k →
  (∀ c, c ∈ cells grid → is_Some (m !! id c)) →
  ∃ feats,
    buildFeatures cfg grid DATES_ISO (Some m) idx metric k minValue = Ok feats ∧
    (∀ f, f ∈ feats →
       ∃ ti c, ti ∈ idx ∧ c ∈ cells grid ∧ f_cell_id f = id c ∧
               f_row f = row c ∧ f_col f = col c ∧
               js_rem (row c) k = 0 ∧ js_rem (col c) k = 0) ∧
    (∀ ti c, ti ∈ idx → c ∈ cells grid →
       js_rem (row c) k = 0 → js_rem (col c) k = 0 →
       threshold_passes metric minValue (pass_value DATES_ISO m metric c ti) →
       ∃ f, f ∈ feats ∧ pushed cfg DATES_ISO (Some m) metric k minValue ti c = Some f ∧
            f_time f = DATES_ISO !! ti ∧ f_cell_id f = id c) ∧
    (k = 1 →
     ∀ ti c, ti ∈ idx → c ∈ cells grid →
       threshold_passes metric minValue (pass_value DATES_ISO m metric c ti) →
       ∃ f, f ∈ feats ∧ pushed cfg DATES_ISO (Some m) metric k minValue ti c = Some f ∧
            f_time f = DATES_ISO !! ti ∧ f_cell_id f = id c).
Proof.
  intros Hk Hm. eexists. split; [by apply buildFeatures_pushed|].
  assert (Hemit : ∀ ti c, ti ∈ idx → c ∈ cells grid → stride_passes k c →
    threshold_passes metric minValue (pass_value DATES_ISO m metric c ti) →
    ∃ f, f ∈ flat_map (λ ti, omap (pushed cfg DATES_ISO (Some m) metric k minValue ti)
                               (cells grid)) idx ∧
         pushed cfg DATES_ISO (Some m) metric k minValue ti c = Some f ∧
         f_time f = DATES_ISO !! ti ∧ f_cell_id f = id c).
  { intros ti c Hti Hc Hst Hth.
    destruct (pushed_spec cfg DATES_ISO m metric k minValue c ti (Hm c Hc)) as [Hiff Hf].
    destruct (proj2 Hiff) as [f Hp]; [done|].
    exists f. split; [apply elem_of_features; eauto|]. split; [done|].
    destruct (Hf f Hp) as (Ht & Hid & _). done. }
  split; [|split].
  - intros f (ti & c & Hti & Hc & Hp)%elem_of_features.
    destruct (pushed_spec cfg DATES_ISO m metric k minValue c ti (Hm c Hc)) as [Hiff Hf].
    destruct (Hf f Hp) as (_ & Hid & Hr & Hcol & _).
    exists ti, c. do 5 (split; [done|]).
    destruct (proj1 Hiff) as [[Hle|Hrem] _]; [by rewrite Hp|..|done].
    assert (k = 1) as -> by lia. unfold js_rem. by rewrite !Z.rem_1_r.
  - intros ti c Hti Hc Hr Hcol. apply Hemit; [done|done|]. by right.
  - intros -> ti c Hti Hc. apply Hemit; [done|done|]. left. lia.
Qed.

Lemma stride_selects_cells_witness :
  (0 < 2) ∧
  ∃ feats,
    buildFeatures Ex.cfgA Ex.gridA Data.dates (Some Data.store) [0%nat] "value" 2 None
    = Ok feats ∧
    f_cell_id <$> feats = ["r0c0"; "r2c0"].
Proof.
  assert (H2 : 0 < 2) by reflexivity.
  split; [exact H2|].
  destruct (stride_selects_cells Ex.cfgA Ex.gridA Data.dates Data.store
              [0%nat] "value" 2 None H2 Data_store_has_cells) as (feats & H & _).
  exists feats. split; [exact H|].
  vm_compute in H. injection H as <-. reflexivity.
Defined.

(** ** The date partition *)

Section Partition.

Variable Date_parse : string → option Z.
Variable startOfDay : Z → Z.
Variable DATES_ISO : list string.
Variable TODAY_ISO : string.

Abbreviation toD' := (toD Date_parse startOfDay).

(** The index arrays built by [map], [filter], [map] hold the positions
    whose entry satisfies the filter. *)
Lemma elem_of_idx (P : string * nat → Prop) `{∀ x, Decision (P x)} i :
  i ∈ (filter P (indexed DATES_ISO)).*2 ↔ ∃ d, DATES_ISO !! i = Some d ∧ P (d, i).
Proof using Type.
  rewrite list_elem_of_fmap. split.
  - intros ([d j] & -> & [HP Hin]%list_elem_of_filter). simpl.
    apply elem_of_lookup_imap in Hin as (j' & d' & [= <- <-] & Hl). eauto.
  - intros (d & Hl & HP). exists (d, i). split; [done|].
    apply list_elem_of_filter. split; [done|].
    apply elem_of_lookup_imap. eauto.
Qed.

Lemma idx_sorted_from (P : string * nat → Prop) `{∀ x, Decision (P x)} (l : list string) :
  ∀ k, StronglySorted lt (filter P (imap (λ i d, (d, k + i)%nat) l)).*2 ∧
       Forall (λ i, (k ≤ i)%nat) (filter P (imap (λ i d, (d, k + i)%nat) l)).*2.
Proof using Type.
  induction l as [|d l IH]; intros k; [split; constructor|].
  rewrite imap_cons.
  assert (E : imap ((λ i d0, (d0, (k + i)%nat)) ∘ S) l = imap (λ i d0, (d0, (S k + i)%nat)) l).
  { apply imap_ext. intros i x _. simpl. f_equal. lia. }
  rewrite E. destruct (IH (S k)) as [Hs Hall].
  assert (Hall' : Forall (λ i, (k ≤ i)%nat)
                    (filter P (imap (λ i d0, (d0, (S k + i)%nat)) l)).*2).
  { eapply Forall_impl; [exact Hall|]. simpl. intros; lia. }
  rewrite filter_cons. destruct (decide (P (d, (k + 0)%nat))); [|done].
  rewrite fmap_cons. simpl. split.
  - constructor; [done|]. eapply Forall_impl; [exact Hall|]. simpl. intros; lia.
  - constructor; [lia|done].
Qed.

Lemma idx_sorted (P : string * nat → Prop) `{∀ x, Decision (P x)} :
  StronglySorted lt (filter P (indexed DATES_ISO)).*2.
Proof using Type. apply (idx_sorted_from P DATES_ISO 0). Qed.

Lemma time_lt_spec a b :
  time_lt a b = true ↔ ∃ x y, a = Some x ∧ b = Some y ∧ x < y.
Proof using Type.
  destruct a as [x|], b as [y|]; simpl; try (split; [done|by intros (? & ? & ? & ? & ?)]).
  rewrite Z.ltb_lt. split; [eauto|]. by intros (? & ? & [= <-] & [= <-] & ?).
Qed.

Lemma time_eq_spec a b :
  time_eq a b = true ↔ ∃ x y, a = Some x ∧ b = Some y ∧ x = y.
Proof using Type.
  destruct a as [x|], b as [y|]; simpl; try (split; [done|by intros (? & ? & ? & ? & ?)]).
  rewrite Z.eqb_eq. split; [eauto|]. by intros (? & ? & [= <-] & [= <-] & ?).
Qed.

End Partition.

(** ** Claims about the partition *)

(** C2, as amended.  For every date index and reference date the three
    index sequences are strictly ascending; an index is in past, now or
    forward exactly when its date string and the reference date both parse
    and the day of the former is before, equal to or after the day of the
    latter; no index is in two of them; and every index whose date string
    parses is in one of them when the reference date parses.  (An index
    whose date string does not parse is in none.) *)
Theorem partition_of_parsed_dates Date_parse startOfDay DATES_ISO TODAY_ISO :
  let day := toD Date_parse startOfDay in
  let past := PAST_IDX Date_parse startOfDay DATES_ISO TODAY_ISO in
  let now := NOW_IDX Date_parse startOfDay DATES_ISO TODAY_ISO in
  let fwd := FWD_IDX Date_parse startOfDay DATES_ISO TODAY_ISO in
  (StronglySorted lt past ∧ StronglySorted lt now ∧ StronglySorted lt fwd) ∧
  (∀ i, i ∈ past ↔
        ∃ d t r, DATES_ISO !! i = Some d ∧ day d = Some t ∧ day TODAY_ISO = Some r ∧ t < r) ∧
  (∀ i, i ∈ now ↔
        ∃ d t r, DATES_ISO !! i = Some d ∧ day d = Some t ∧ day TODAY_ISO = Some r ∧ t = r) ∧
  (∀ i, i ∈ fwd ↔
        ∃ d t r, DATES_ISO !! i = Some d ∧ day d = Some t ∧ day TODAY_ISO = Some r ∧ r < t) ∧
  (∀ i, ¬ (i ∈ past ∧ i ∈ now) ∧ ¬ (i ∈ past ∧ i ∈ fwd) ∧ ¬ (i ∈ now ∧ i ∈ fwd)) ∧
  (∀ i d, DATES_ISO !! i = Some d → is_Some (day d) → is_Some (day TODAY_ISO) →
          i ∈ past ∨ i ∈ now ∨ i ∈ fwd) ∧
  (∀ i d, DATES_ISO !! i = Some d → day d = None → (i ∉ past) ∧ (i ∉ now) ∧ (i ∉ fwd)).
Proof.
  intros day past now fwd.
  assert (Hpast : ∀ i, i ∈ past ↔
    ∃ d t r, DATES_ISO !! i = Some d ∧ day d = Some t ∧ day TODAY_ISO = Some r ∧ t < r).
  { intros i. unfold past, PAST_IDX. rewrite elem_of_idx. simpl.
    setoid_rewrite time_lt_spec. split.
    - intros (d & Hd & t & r & Ht & Hr & Hlt). eauto 10.
    - intros (d & t & r & Hd & Ht & Hr & Hlt). eauto 10. }
  assert (Hnow : ∀ i, i ∈ now ↔
    ∃ d t r, DATES_ISO !! i = Some d ∧ day d = Some t ∧ day TODAY_ISO = Some r ∧ t = r).
  { intros i. unfold now, NOW_IDX. rewrite elem_of_idx. simpl.
    setoid_rewrite time_eq_spec. split.
    - intros (d & Hd & t & r & Ht & Hr & Hlt). eauto 10.
    - intros (d & t & r & Hd & Ht & Hr & Hlt). eauto 10. }
  assert (Hfwd : ∀ i, i ∈ fwd ↔
    ∃ d t r, DATES_ISO !! i = Some d ∧ day d = Some t ∧ day TODAY_ISO = Some r ∧ r < t).
  { intros i. unfold fwd, FWD_IDX. rewrite elem_of_idx. simpl.
    setoid_rewrite time_lt_spec. split.
    - intros (d & Hd & r & t & Hr & Ht & Hlt). eauto 10.
    - intros (d & t & r & Hd & Ht & Hr & Hlt). eauto 10. }
  split; [split; [|split]; apply idx_sorted|].
  split; [done|]. split; [done|]. split; [done|]. split; [|split].
  - intros i. rewrite Hpast, Hnow, Hfwd. split; [|split].
    + intros [(d & t & r & Hd & Ht & Hr & H) (d' & t' & r' & Hd' & Ht' & Hr' & H')].
      simplify_eq. lia.
    + intros [(d & t & r & Hd & Ht & Hr & H) (d' & t' & r' & Hd' & Ht' & Hr' & H')].
      simplify_eq. lia.
    + intros [(d & t & r & Hd & Ht & Hr & H) (d' & t' & r' & Hd' & Ht' & Hr' & H')].
      simplify_eq. lia.
  - intros i d Hd [t Ht] [r Hr]. rewrite Hpast, Hnow, Hfwd.
    destruct (Z.lt_total t r) as [H|[H|H]]; [left|right; left|right; right]; eauto 10.
  - intros i d Hd Hnone. rewrite Hpast, Hnow, Hfwd.
    split; [|split]; intros (d' & t & r & Hd' & Ht & _); simplify_eq.
Qed.

(** Dates 1, 2 and 3 January 2024 against 2 January: past is index 0, now
    is index 1, forward is index 2. *)
Lemma partition_of_parsed_dates_witness :
  let DATES_ISO := ["2024-01-01"; "2024-01-02"; "2024-01-03"] in
  let past := PAST_IDX Host.Date_parse Host.startOfDay DATES_ISO "2024-01-02" in
  let now := NOW_IDX Host.Date_parse Host.startOfDay DATES_ISO "2024-01-02" in
  let fwd := FWD_IDX Host.Date_parse Host.startOfDay DATES_ISO "2024-01-02" in
  (past = [0%nat] ∧ now = [1%nat] ∧ fwd = [2%nat]) ∧
  StronglySorted lt past ∧
  ¬ (1%nat ∈ past ∧ 1%nat ∈ now).
Proof.
  intros DATES_ISO past now fwd.
  split; [vm_compute; repeat split; reflexivity|].
  destruct (partition_of_parsed_dates Host.Date_parse Host.startOfDay DATES_ISO "2024-01-02")
    as ((Hs & _) & _ & _ & _ & Hdisj & _).
  split; [exact Hs|]. exact (proj1 (Hdisj 1%nat)).
Defined.

(** C2 as stated fails: a date string that is not a date enters the date
    index through [loadCsv], and its index is in none of the three
    sequences. *)
Lemma unparseable_date_in_no_partition :
  let past := PAST_IDX Host.Date_parse Host.startOfDay Data.undated_dates "2024-01-02" in
  let now := NOW_IDX Host.Date_parse Host.startOfDay Data.undated_dates "2024-01-02" in
  let fwd := FWD_IDX Host.Date_parse Host.startOfDay Data.undated_dates "2024-01-02" in
  loadCsv Host.cos Ex.cfgA Ex.gridA Host.Number (Some Data.undated_rows)
  = Ok (Some Data.undated_store, Data.undated_dates) ∧
  Data.undated_dates = ["2024-01-01"; "unknown"] ∧
  StronglySorted String.le Data.undated_dates ∧
  ¬ (1%nat ∈ past ∨ 1%nat ∈ now ∨ 1%nat ∈ fwd).
Proof.
  intros past now fwd.
  split; [apply loadCsv_loaded; vm_compute; reflexivity|].
  split; [vm_compute; reflexivity|].
  split; [apply (bool_decide_unpack _); vm_compute; exact I|].
  apply (bool_decide_unpack _). vm_compute. exact I.
Qed.

(** * Further properties *)

(** ** The layout of the grid *)

Lemma axis_head fuel hi step k x e l :
  axis fuel hi step k x = Some (e :: l) → e = (k, x).
Proof.
  destruct fuel as [|fuel]; simpl; [done|].
  destruct (Qltb x (hi - EPS)); [|done].
  destruct (axis fuel hi step (k + 1) (x + step)); simpl; [|done]. by intros [= <- _].
Qed.

(** The start that follows a start is that start plus the step, as the
    same number. *)
Lemma axis_next fuel hi step k x l j s s' :
  axis fuel hi step k x = Some l → (j, s) ∈ l → (j + 1, s') ∈ l → s' = (s + step)%Q.
Proof.
  revert k x l. induction fuel as [|fuel IH]; intros k x l; simpl; [done|].
  destruct (Qltb x (hi - EPS)); [|intros [= <-]; by rewrite elem_of_nil].
  destruct (axis fuel hi step (k + 1) (x + step)) as [rest|] eqn:E; intros ? H1 H2; simplify_eq/=.
  apply elem_of_cons in H1 as [H1|H1]; apply elem_of_cons in H2 as [H2|H2]; simplify_eq.
  - lia.
  - destruct rest as [|e rest]; [by apply elem_of_nil in H2|].
    pose proof (axis_head _ _ _ _ _ _ _ E) as ->.
    eapply axis_functional; [exact E|exact H2|left].
  - apply (axis_starts _ _ _ _ _ _ _ _ E) in H1. lia.
  - eauto.
Qed.


Lemma axis_lookup fuel hi step k x l i j s :
  axis fuel hi step k x = Some l → l !! i = Some (j, s) → j = k + Z.of_nat i.
Proof.
  intros Hl Hi. apply axis_indices in Hl.
  assert (H : l.*1 !! i = Some j) by (by rewrite list_lookup_fmap, Hi).
  rewrite Hl in H. apply lookup_seqZ in H. lia.
Qed.

Lemma flat_map_lookup_uniform {A B} (f : A → list B) (m : nat) (l : list A) i j x :
  (∀ a, length (f a) = m) → l !! i = Some x → (j < m)%nat →
  flat_map f l !! (i * m + j)%nat = f x !! j.
Proof.
  intros Hm. revert i. induction l as [|a l IH]; intros i Hi Hj; [done|]. simpl.
  destruct i as [|i]; simpl in *.
  - simplify_eq. rewrite lookup_app_l by (rewrite Hm; lia). done.
  - rewrite lookup_app_r by (rewrite Hm; lia). rewrite Hm.
    replace (m + i * m + j - m)%nat with (i * m + j)%nat by lia. by apply IH.
Qed.

Lemma length_grid_of Math_cos cfg rowsL colsL :
  length (grid_of Math_cos cfg rowsL colsL) = (length rowsL * length colsL)%nat.
Proof.
  unfold grid_of. induction rowsL as [|rl rowsL IH]; simpl; [done|].
  rewrite length_app, IH. unfold grid_row. rewrite length_fmap. lia.
Qed.

(** X1.  The grid is a dense rectangle: with [ncols] the number of columns,
    it has [nrows * ncols] cells, every cell has its row in [0, nrows) and
    its column in [0, ncols), and the cell of row [r] and column [k] sits
    at position [r * ncols + k] of the cell sequence. *)
Theorem grid_is_dense_rectangle Math_cos cfg fuel g :
  buildGrid Math_cos cfg fuel = Some g →
  0 ≤ nrows g ∧
  ∃ ncols, 0 ≤ ncols ∧
    Z.of_nat (length (cells g)) = nrows g * ncols ∧
    (∀ c, c ∈ cells g → 0 ≤ row c < nrows g ∧ 0 ≤ col c < ncols) ∧
    (∀ r k, 0 ≤ r < nrows g → 0 ≤ k < ncols →
       ∃ c, cells g !! Z.to_nat (r * ncols + k) = Some c ∧ row c = r ∧ col c = k ∧
            id c = cell_id r k).
Proof.
  intros (rowsL & colsL & Hr & Hc & ->)%buildGrid_inv. simpl. split; [lia|].
  exists (Z.of_nat (length colsL)). split; [lia|].
  assert (Hcols : ∀ i j s, colsL !! i = Some (j, s) → j = Z.of_nat i).
  { intros i j s Hi. destruct Hc as [[_ ->]|Hc]; [done|].
    pose proof (axis_lookup _ _ _ _ _ _ _ _ _ Hc Hi). lia. }
  assert (Hrows : ∀ i j s, rowsL !! i = Some (j, s) → j = Z.of_nat i).
  { intros i j s Hi. pose proof (axis_lookup _ _ _ _ _ _ _ _ _ Hr Hi). lia. }
  split; [rewrite length_grid_of; lia|]. split.
  - intros c (r & la & k & lo & Hin1 & Hin2 & ->)%elem_of_grid_of. simpl.
    apply list_elem_of_lookup in Hin1 as [i Hi]. apply list_elem_of_lookup in Hin2 as [j Hj].
    pose proof (Hrows _ _ _ Hi). pose proof (Hcols _ _ _ Hj).
    apply lookup_lt_Some in Hi, Hj. lia.
  - intros r k Hr' Hk'.
    destruct (lookup_lt_is_Some_2 rowsL (Z.to_nat r)) as [[r' la] Hi]; [lia|].
    destruct (lookup_lt_is_Some_2 colsL (Z.to_nat k)) as [[k' lo] Hj]; [lia|].
    pose proof (Hrows _ _ _ Hi). pose proof (Hcols _ _ _ Hj).
    exists (make_cell Math_cos cfg r' la k' lo). split; [|simpl; split; [lia|split; [lia|f_equal; lia]]].
    replace (Z.to_nat (r * Z.of_nat (length colsL) + k))
      with (Z.to_nat r * length colsL + Z.to_nat k)%nat by lia.
    unfold grid_of.
    rewrite (flat_map_lookup_uniform _ (length colsL) _ _ _ (r', la)); [|..|done|lia].
    + unfold grid_row. by rewrite list_lookup_fmap, Hj.
    + intros a. unfold grid_row. by rewrite length_fmap.
Qed.

Lemma buildGrid_gridA :
  buildGrid Host.cos Ex.cfgA 10 = Some Ex.gridA.
Proof. vm_compute. reflexivity. Qed.

Lemma grid_is_dense_rectangle_witness :
  buildGrid Host.cos Ex.cfgA 10 = Some Ex.gridA ∧
  0 ≤ nrows Ex.gridA ∧
  ∃ ncols, Z.of_nat (length (cells Ex.gridA)) = nrows Ex.gridA * ncols.
Proof.
  pose proof buildGrid_gridA as H.
  split; [exact H|].
  destruct (grid_is_dense_rectangle _ _ _ _ H) as (Hn & ncols & _ & Hlen & _).
  split; [exact Hn|]. exists ncols. exact Hlen.
Defined.

(** ** The size of the cells and their seams *)

Lemma Math_min_glb_lt (a b c : Q) : (c < a)%Q → (c < b)%Q → (c < Math_min a b)%Q.
Proof. unfold Math_min. destruct (Qle_bool a b); auto. Qed.

(** X2.  With positive steps no cell is degenerate: each side of a cell is
    positive and at most the step, and a side that is shorter than the step
    (a clipped last row or column) is still longer than [1e-12]. *)
Theorem cells_have_positive_size Math_cos cfg fuel g c :
  (0 < DLAT cfg)%Q → (0 < DLON Math_cos cfg)%Q →
  buildGrid Math_cos cfg fuel = Some g → c ∈ cells g →
  (lat_min c < lat_max c)%Q ∧ (lat_max c <= lat_min c + DLAT cfg)%Q ∧
  (lat_max c = (lat_min c + DLAT cfg)%Q ∨ (EPS < lat_max c - lat_min c)%Q) ∧
  (lon_min c < lon_max c)%Q ∧ (lon_max c <= lon_min c + DLON Math_cos cfg)%Q ∧
  (lon_max c = (lon_min c + DLON Math_cos cfg)%Q ∨ (EPS < lon_max c - lon_min c)%Q).
Proof.
  intros HDLAT HDLON (rowsL & colsL & Hr & Hc & ->)%buildGrid_inv
    (r & la & k & lo & Hin1 & Hin2 & ->)%elem_of_grid_of. simpl.
  destruct Hc as [[-> _]|Hc]; [by apply elem_of_nil in Hin1|].
  destruct (axis_starts _ _ _ _ _ _ _ _ Hr Hin1) as (_ & _ & Hla).
  destruct (axis_starts _ _ _ _ _ _ _ _ Hc Hin2) as (_ & _ & Hlo).
  assert (Hside : ∀ s step hi, (0 < step)%Q → (s < hi - EPS)%Q →
    (s < Math_min (s + step) hi)%Q ∧ (Math_min (s + step) hi <= s + step)%Q ∧
    (Math_min (s + step) hi = (s + step)%Q ∨ (EPS < Math_min (s + step) hi - s)%Q)).
  { intros s step hi Hstep Hs. assert (0 < EPS)%Q by done.
    split; [apply Math_min_glb_lt; lra|]. split; [apply Math_min_le_l|].
    unfold Math_min. destruct (Qle_bool (s + step) hi); [by left|right; lra]. }
  destruct (Hside la (DLAT cfg) (LAT_MAX cfg) HDLAT Hla) as (? & ? & ?).
  destruct (Hside lo (DLON Math_cos cfg) (LON_MAX cfg) HDLON Hlo) as (? & ? & ?).
  done.
Qed.

Lemma cells_have_positive_size_witness :
  (0 < DLAT Ex.cfgA)%Q ∧ (0 < DLON Host.cos Ex.cfgA)%Q ∧
  buildGrid Host.cos Ex.cfgA 10 = Some Ex.gridA ∧
  ∀ c, c ∈ cells Ex.gridA → (lat_min c < lat_max c)%Q ∧ (lon_min c < lon_max c)%Q.
Proof.
  assert (H1 : (0 < DLAT Ex.cfgA)%Q) by reflexivity.
  assert (H2 : (0 < DLON Host.cos Ex.cfgA)%Q) by reflexivity.
  split; [exact H1|]. split; [exact H2|]. split; [exact buildGrid_gridA|].
  intros c Hc.
  destruct (cells_have_positive_size _ _ _ _ c H1 H2 buildGrid_gridA Hc) as (Ha & _ & _ & Hb & _).
  split; [exact Ha|exact Hb].
Defined.

(** X3.  Neighbouring cells meet without a seam.  The right neighbour of a
    cell starts at the very number at which the cell ends, and likewise the
    neighbour above, so the rounded corners of their polygons coincide:
    the right edge of one ring is the left edge of the other, the top edge
    of one is the bottom edge of the other. *)
Theorem adjacent_cells_share_corners Math_cos cfg fuel g c1 c2 :
  buildGrid Math_cos cfg fuel = Some g → c1 ∈ cells g → c2 ∈ cells g →
  (row c2 = row c1 → col c2 = col c1 + 1 →
     lon_max c1 = lon_min c2 ∧
     cellPolygon cfg c1 !! 1%nat = cellPolygon cfg c2 !! 0%nat ∧
     cellPolygon cfg c1 !! 2%nat = cellPolygon cfg c2 !! 3%nat) ∧
  (col c2 = col c1 → row c2 = row c1 + 1 →
     lat_max c1 = lat_min c2 ∧
     cellPolygon cfg c1 !! 3%nat = cellPolygon cfg c2 !! 0%nat ∧
     cellPolygon cfg c1 !! 2%nat = cellPolygon cfg c2 !! 1%nat).
Proof.
  intros (rowsL & colsL & Hr & Hc & ->)%buildGrid_inv
    (r1 & la1 & k1 & lo1 & Hr1 & Hk1 & ->)%elem_of_grid_of
    (r2 & la2 & k2 & lo2 & Hr2 & Hk2 & ->)%elem_of_grid_of. simpl.
  destruct Hc as [[-> _]|Hc]; [by apply elem_of_nil in Hr1|].
  assert (Hnext : ∀ fuel hi step k x l j s s',
    axis fuel hi step k x = Some l → (j, s) ∈ l → (j + 1, s') ∈ l →
    Math_min (s + step) hi = s').
  { intros ? hi step ? ? l j s s' Hl H1 H2. assert (HEPS : (0 < EPS)%Q) by done.
    destruct (axis_starts _ _ _ _ _ _ _ _ Hl H2) as (_ & _ & Hlt).
    pose proof (axis_next _ _ _ _ _ _ _ _ _ Hl H1 H2) as ->.
    apply Math_min_l. lra. }
  split.
  - intros -> ->.
    pose proof (axis_functional _ _ _ _ _ _ _ _ _ Hr Hr1 Hr2) as ->.
    pose proof (Hnext _ _ _ _ _ _ _ _ _ Hc Hk1 Hk2) as E.
    unfold cellPolygon. simpl. rewrite E. done.
  - intros -> ->.
    pose proof (axis_functional _ _ _ _ _ _ _ _ _ Hc Hk1 Hk2) as ->.
    pose proof (Hnext _ _ _ _ _ _ _ _ _ Hr Hr1 Hr2) as E.
    unfold cellPolygon. simpl. rewrite E. done.
Qed.

Lemma adjacent_cells_share_corners_witness :
  buildGrid Host.cos Ex.cfgA 10 = Some Ex.gridA ∧
  ∀ c1 c2, c1 ∈ cells Ex.gridA → c2 ∈ cells Ex.gridA →
    row c2 = row c1 → col c2 = col c1 + 1 → lon_max c1 = lon_min c2.
Proof.
  split; [exact buildGrid_gridA|]. intros c1 c2 H1 H2 Hr Hc.
  exact (proj1 (proj1 (adjacent_cells_share_corners _ _ _ _ c1 c2 buildGrid_gridA H1 H2) Hr Hc)).
Defined.

(** ** Binning a point *)














(** ** The store and the date index after ingestion *)

(** What one record does to the store: nothing, or one write under a key
    the store has, at the record's date, of the record's value or of its
    mean with the value already there. *)
Lemma on_data_store Math_cos cfg grid Number st r st' :
  on_data Math_cos cfg grid Number st r = Ok st' →
  (∀ d, d ∈ dateSet st → d ∈ dateSet st') ∧
  (gridMap st' = gridMap st ∨
   ∃ cid per v v',
     gridMap st !! cid = Some per ∧ row_date r ≠ "" ∧ row_date r ∈ dateSet st' ∧
     Number (r !! "value") = Fin v ∧
     (v' = v ∨ ∃ old, per !! row_date r = Some old ∧ v' = ((old + v) / 2)%Q) ∧
     gridMap st' = <[cid := <[row_date r := v']> per]> (gridMap st)).
Proof.
  unfold on_data, row_date. intros H.
  repeat case_match; simplify_eq/=; (split; [intros d0 Hd0; rewrite ?elem_of_Set_add; auto|]);
    try (left; reflexivity); right.
  all: match goal with Hd : bool_decide _ = false |- _ => apply bool_decide_eq_false in Hd end.
  all: match goal with
       | Hv : isFinite (?N ?f) = Some ?v, Hp : _ !! ?cid = Some ?per |- _ =>
           exists cid, per, v; eexists; split; [exact Hp|];
           split; [done|];
           split; [apply elem_of_Set_add; by left|];
           split; [destruct (N f); simplify_eq/=; done|];
           split; [|reflexivity]; eauto
       end.
Qed.

Lemma ingest_inv Math_cos cfg grid Number (I : Ingest → Prop) rows :
  (∀ st r st', r ∈ rows → I st →
     on_data Math_cos cfg grid Number st r = Ok st' → I st') →
  ∀ st st', I st → ingest Math_cos cfg grid Number st rows = Ok st' → I st'.
Proof.
  induction rows as [|r rows IH]; intros Hstep st st' HI; simpl; [by intros [= <-]|].
  destruct (on_data Math_cos cfg grid Number st r) as [st1|] eqn:H1; simpl; [|done].
  apply IH.
  - intros st0 r0 st0' Hr0. apply Hstep. by right.
  - eapply Hstep; [by left|exact HI|exact H1].
Qed.

Lemma stored_insert_inv gm cid per d v cid' d' x :
  gm !! cid = Some per →
  stored (<[cid := <[d := v]> per]> gm) cid' d' = Some x →
  (cid' = cid ∧ d' = d ∧ x = v) ∨ stored gm cid' d' = Some x.
Proof.
  unfold stored. intros Hper.
  destruct (decide (cid' = cid)) as [->|Hne].
  - rewrite lookup_insert_eq, Hper. simpl.
    destruct (decide (d' = d)) as [->|Hd].
    + rewrite lookup_insert_eq. intros [= <-]. by left.
    + rewrite lookup_insert_ne by done. by right.
  - rewrite lookup_insert_ne by done. by right.
Qed.

Lemma initGridMap_lookup grid cid per :
  initGridMap grid !! cid = Some per → per = ∅ ∧ cid ∈ id <$> cells grid.
Proof.
  unfold initGridMap. intros H%elem_of_list_to_map_2.
  apply list_elem_of_fmap in H as (c & [= -> ->] & Hc).
  split; [done|]. apply list_elem_of_fmap. by exists c.
Qed.

Lemma loadCsv_ingest Math_cos cfg grid Number rows gm dates :
  loadCsv Math_cos cfg grid Number (Some rows) = Ok (Some gm, dates) →
  ∃ st, ingest Math_cos cfg grid Number
          {| schema := None; dateSet := []; gridMap := initGridMap grid |} rows = Ok st ∧
        gm = gridMap st ∧ dates = Array_sort (dateSet st).
Proof.
  unfold loadCsv.
  destruct (ingest Math_cos cfg grid Number _ rows) as [st|] eqn:H; simpl; [|done].
  intros [= <- <-]. eauto.
Qed.

(** X7.  The keys of the store that [loadCsv] returns are exactly the ids
    of the cells of the grid: ingestion neither adds nor removes a key. *)
Theorem store_keys_are_the_grid_ids Math_cos cfg grid Number rows gm dates :
  loadCsv Math_cos cfg grid Number (Some rows) = Ok (Some gm, dates) →
  ∀ cid, is_Some (gm !! cid) ↔ cid ∈ id <$> cells grid.
Proof.
  intros (st & Hst & -> & _)%loadCsv_ingest cid. split.
  - revert cid.
    apply (ingest_inv Math_cos cfg grid Number
             (λ st, ∀ cid, is_Some (gridMap st !! cid) → cid ∈ id <$> cells grid) rows)
      with (st := {| schema := None; dateSet := []; gridMap := initGridMap grid |});
      [| |exact Hst].
    + intros st0 r st0' _ HI H cid.
      destruct (on_data_store _ _ _ _ _ _ _ H) as [_ [->|(k & per & v & v' & Hk & _ & _ & _ & _ & ->)]];
        [apply HI|].
      destruct (decide (cid = k)) as [->|Hne].
      * intros _. apply HI. eauto.
      * rewrite lookup_insert_ne by done. apply HI.
    + simpl. intros k [per Hper]. by apply initGridMap_lookup in Hper as [_ ?].
  - intros (c & -> & Hc)%list_elem_of_fmap.
    eapply ingest_dom; [exact Hst|]. by apply initGridMap_has_cells.
Qed.

Lemma store_keys_are_the_grid_ids_witness :
  is_Some (Data.store !! "r9c9") ↔ "r9c9" ∈ id <$> cells Ex.gridA.
Proof.
  apply (store_keys_are_the_grid_ids Host.cos Ex.cfgA Ex.gridA Host.Number Data.rows
           Data.store Data.dates).
  apply loadCsv_loaded. vm_compute; reflexivity.
Defined.

(** X8.  Every date under which the store holds a value is a date of the
    date index, and is not the empty string: no stored value is out of
    reach of the date indices that [buildFeatures] is called with. *)
Theorem stored_dates_are_indexed Math_cos cfg grid Number rows gm dates cid d v :
  loadCsv Math_cos cfg grid Number (Some rows) = Ok (Some gm, dates) →
  stored gm cid d = Some v → d ∈ dates ∧ d ≠ "".
Proof.
  intros (st & Hst & -> & ->)%loadCsv_ingest Hv.
  assert (d ∈ dateSet st ∧ d ≠ "") as [Hd Hne].
  { revert cid d v Hv.
    apply (ingest_inv Math_cos cfg grid Number
             (λ st, ∀ cid d v, stored (gridMap st) cid d = Some v → d ∈ dateSet st ∧ d ≠ "") rows)
      with (st := {| schema := None; dateSet := []; gridMap := initGridMap grid |});
      [| |exact Hst].
    - intros st0 r st0' _ HI H cid d v.
      destruct (on_data_store _ _ _ _ _ _ _ H)
        as [Hmono [->|(k & per & v0 & v' & Hk & Hne & Hin & _ & _ & ->)]].
      + intros Hs. destruct (HI _ _ _ Hs). auto.
      + intros [(-> & -> & ->)|Hs]%stored_insert_inv; [done| |done].
        destruct (HI _ _ _ Hs). auto.
    - simpl. unfold stored. intros cid d v.
      destruct (initGridMap grid !! cid) as [per|] eqn:E; [|done]. simpl.
      apply initGridMap_lookup in E as [-> _]. by rewrite lookup_empty. }
  split; [|done]. unfold Array_sort.
  by rewrite merge_sort_Permutation.
Qed.

Lemma stored_dates_are_indexed_witness :
  "2024-01-02" ∈ Data.dates ∧ "2024-01-02" ≠ "".
Proof.
  apply (stored_dates_are_indexed Host.cos Ex.cfgA Ex.gridA Host.Number Data.rows
           Data.store Data.dates "r2c0" "2024-01-02" (1 # 20)).
  - apply loadCsv_loaded. vm_compute; reflexivity.
  - vm_compute; reflexivity.
Defined.



(** X10.  A stream that is empty, or whose first record has neither the
    columns of the cell schema nor those of the point schema, loads as
    the empty dataset: every cell of the grid with no value, and no date;
    nothing is thrown, whatever the later records hold. *)
Theorem unknown_schema_loads_nothing Math_cos cfg grid Number rows :
  (∀ r, head rows = Some r → detectSchema r = SchemaUnknown) →
  loadCsv Math_cos cfg grid Number (Some rows) = Ok (Some (initGridMap grid), []).
Proof.
  intros Hhead. unfold loadCsv.
  assert (Hunk : ∀ rows st, schema st = Some SchemaUnknown →
            ingest Math_cos cfg grid Number st rows = Ok st).
  { clear. induction rows as [|r rows IH]; intros st Hs; simpl; [done|].
    unfold on_data. rewrite Hs. simpl. rewrite <- Hs.
    replace {| schema := schema st; dateSet := dateSet st; gridMap := gridMap st |} with st
      by (by destruct st).
    by apply IH. }
  destruct rows as [|r rows]; simpl; [done|].
  unfold on_data. cbn [schema]. rewrite (Hhead r eq_refl). cbn [bind].
  rewrite Hunk by done. reflexivity.
Qed.

Lemma unknown_schema_loads_nothing_witness :
  loadCsv Host.cos Ex.cfgA Ex.gridA Host.Number
    (Some [Host.record [("date", "2024-01-01"); ("cases", "3")];
           Rows.cell "r0c0" "2024-01-02" "0.8"])
  = Ok (Some (initGridMap Ex.gridA), []).
Proof.
  apply unknown_schema_loads_nothing.
  intros r [= <-]. vm_compute; reflexivity.
Defined.
(** ** Rounding *)

Lemma pow10_pos r : (0 < inject_Z (10 ^ Z.of_nat r))%Q.
Proof.
  change 0%Q with (inject_Z 0). rewrite <- Zlt_Qlt. apply Z.pow_pos_nonneg; lia.
Qed.

Lemma nearest_comp r x y : (x == y)%Q → nearest r x = nearest r y.
Proof.
  intros E. unfold nearest. f_equal. f_equal. apply Qfloor_comp. by rewrite E.
Qed.

Lemma nearest_bounds r x :
  (x - 1 / (2 * inject_Z (10 ^ Z.of_nat r)) < nearest r x)%Q ∧
  (nearest r x <= x + 1 / (2 * inject_Z (10 ^ Z.of_nat r)))%Q.
Proof.
  unfold nearest. pose proof (pow10_pos r) as Hp.
  remember (inject_Z (10 ^ Z.of_nat r)) as p eqn:Ep. clear Ep.
  pose proof (Qfloor_le (x * p + (1 # 2))) as H1.
  pose proof (Qlt_floor (x * p + (1 # 2))) as H2.
  rewrite inject_Z_plus in H2. change (inject_Z 1) with 1%Q in H2.
  remember (inject_Z (Qfloor (x * p + (1 # 2)))) as n eqn:En. clear En.
  split.
  - apply Qlt_shift_div_l; [done|].
    assert (E : ((x - 1 / (2 * p)) * p == x * p - (1 # 2))%Q) by (field; lra).
    rewrite E. lra.
  - apply Qle_shift_div_r; [done|].
    assert (E : ((x + 1 / (2 * p)) * p == x * p + (1 # 2))%Q) by (field; lra).
    rewrite E. lra.
Qed.

Lemma nearest_multiple r n :
  (nearest r (inject_Z n / inject_Z (10 ^ Z.of_nat r))
   == inject_Z n / inject_Z (10 ^ Z.of_nat r))%Q.
Proof.
  unfold nearest. pose proof (pow10_pos r) as Hp.
  remember (inject_Z (10 ^ Z.of_nat r)) as p eqn:Ep. clear Ep.
  assert (E : (inject_Z n / p * p + (1 # 2) == inject_Z n + (1 # 2))%Q) by (field; lra).
  rewrite (Qfloor_comp _ _ E).
  assert (Qfloor (inject_Z n + (1 # 2)) = n) as ->; [|reflexivity].
  pose proof (Qfloor_le (inject_Z n + (1 # 2))) as H1.
  pose proof (Qlt_floor (inject_Z n + (1 # 2))) as H2.
  remember (Qfloor (inject_Z n + (1 # 2))) as k eqn:Ek. clear Ek.
  assert (Ha : (inject_Z k < inject_Z (n + 1))%Q).
  { rewrite inject_Z_plus. change (inject_Z 1) with 1%Q. lra. }
  assert (Hb : (inject_Z n < inject_Z (k + 1))%Q) by lra.
  rewrite <- Zlt_Qlt in Ha, Hb. lia.
Qed.

Lemma nearest_mono r x y : (x <= y)%Q → (nearest r x <= nearest r y)%Q.
Proof.
  intros Hxy. unfold nearest. pose proof (pow10_pos r) as Hp.
  remember (inject_Z (10 ^ Z.of_nat r)) as p eqn:Ep. clear Ep.
  apply Qle_shift_div_r; [done|].
  assert (E : (inject_Z (Qfloor (y * p + (1 # 2))) / p * p
               == inject_Z (Qfloor (y * p + (1 # 2))))%Q) by (field; lra).
  rewrite E. rewrite <- Zle_Qle. apply Qfloor_resp_le. nra.
Qed.

Lemma nearest_nonneg r x : (0 <= x)%Q → (0 <= nearest r x)%Q.
Proof.
  intros Hx. unfold nearest. pose proof (pow10_pos r) as Hp.
  remember (inject_Z (10 ^ Z.of_nat r)) as p eqn:Ep. clear Ep.
  apply Qle_shift_div_l; [done|]. rewrite Qmult_0_l.
  change 0%Q with (inject_Z 0). rewrite <- Zle_Qle.
  change 0 with (Qfloor 0). apply Qfloor_resp_le. nra.
Qed.


Lemma toFixed_error r x :
  (x - 1 / (2 * inject_Z (10 ^ Z.of_nat r)) <= toFixed r x)%Q ∧
  (toFixed r x <= x + 1 / (2 * inject_Z (10 ^ Z.of_nat r)))%Q.
Proof.
  unfold toFixed. destruct (Qltb x 0).
  - destruct (nearest_bounds r (- x)). split; lra.
  - destruct (nearest_bounds r x). split; lra.
Qed.

Lemma toFixed_multiple r n :
  (toFixed r (inject_Z n / inject_Z (10 ^ Z.of_nat r))
   == inject_Z n / inject_Z (10 ^ Z.of_nat r))%Q.
Proof.
  unfold toFixed. destruct (Qltb _ 0).
  - assert (E : (- (inject_Z n / inject_Z (10 ^ Z.of_nat r))
                 == inject_Z (- n) / inject_Z (10 ^ Z.of_nat r))%Q).
    { rewrite inject_Z_opp. pose proof (pow10_pos r). field. lra. }
    rewrite (nearest_comp _ _ _ E), nearest_multiple, <- E. ring.
  - apply nearest_multiple.
Qed.

Lemma toFixed_mono r x y : (x <= y)%Q → (toFixed r x <= toFixed r y)%Q.
Proof.
  intros Hxy. unfold toFixed.
  destruct (Qltb x 0) eqn:Ex, (Qltb y 0) eqn:Ey.
  - apply Qopp_le_compat, nearest_mono. lra.
  - apply Qltb_lt in Ex. apply Qltb_ge in Ey.
    pose proof (nearest_nonneg r (- x)). pose proof (nearest_nonneg r y). lra.
  - apply Qltb_ge in Ex. apply Qltb_lt in Ey. lra.
  - by apply nearest_mono.
Qed.

(** X11.  The ring of a cell is a closed rectangle of five vertices, from
    the south-west corner eastwards first; each coordinate is within half
    a unit of the last decimal kept of the cell's bound, and the ring is
    never turned inside out: west is not east of east, south not north of
    north, for a cell whose bounds are in order. *)
Theorem cell_ring_is_a_rounded_rectangle cfg c :
  (lon_min c <= lon_max c)%Q → (lat_min c <= lat_max c)%Q →
  ∃ w s e n,
    cellPolygon cfg c = [(w, s); (e, s); (e, n); (w, n); (w, s)] ∧
    (w <= e)%Q ∧ (s <= n)%Q ∧
    let h := (1 / (2 * inject_Z (10 ^ Z.of_nat (COORD_DEC cfg))))%Q in
    (lon_min c - h <= w <= lon_min c + h)%Q ∧ (lon_max c - h <= e <= lon_max c + h)%Q ∧
    (lat_min c - h <= s <= lat_min c + h)%Q ∧ (lat_max c - h <= n <= lat_max c + h)%Q.
Proof.
  intros Hlon Hlat.
  exists (toFixed (COORD_DEC cfg) (lon_min c)), (toFixed (COORD_DEC cfg) (lat_min c)),
         (toFixed (COORD_DEC cfg) (lon_max c)), (toFixed (COORD_DEC cfg) (lat_max c)).
  split; [reflexivity|].
  split; [by apply toFixed_mono|]. split; [by apply toFixed_mono|].
  cbv zeta. repeat split; apply toFixed_error.
Qed.

Lemma cell_ring_is_a_rounded_rectangle_witness :
  ∃ w s e n,
    cellPolygon Ex.cfgA (mkCell "r0c0" 0 0 (-1) (-1 # 2) 0 (1 # 2) (-3 # 4) (1 # 4))
    = [(w, s); (e, s); (e, n); (w, n); (w, s)] ∧ (w <= e)%Q ∧ (s <= n)%Q.
Proof.
  destruct (cell_ring_is_a_rounded_rectangle Ex.cfgA
              (mkCell "r0c0" 0 0 (-1) (-1 # 2) 0 (1 # 2) (-3 # 4) (1 # 4)))
    as (w & s & e & n & H1 & H2 & H3 & _).
  - simpl. discriminate.
  - simpl. discriminate.
  - exists w, s, e, n. auto.
Defined.

Lemma toFixed_comp r x y : (x == y)%Q → toFixed r x = toFixed r y.
Proof.
  intros E. unfold toFixed.
  assert (Qltb x 0 = Qltb y 0) as ->.
  { destruct (Qltb y 0) eqn:Ey.
    - apply Qltb_lt. apply Qltb_lt in Ey. lra.
    - apply Qltb_ge. apply Qltb_ge in Ey. lra. }
  destruct (Qltb y 0); [f_equal|]; apply nearest_comp; lra.
Qed.

(** X12.  A dataset kept to four decimals is served exactly: when every
    stored value is a multiple of 0.0001, every feature carries the value
    of its cell and date (metric value) or the difference to the previous
    date of the index (metric delta) with no rounding error. *)
Theorem four_decimal_store_is_served_exactly
    cfg grid DATES_ISO m idx metric stride minValue :
  (∀ c, c ∈ cells grid → is_Some (m !! id c)) →
  (∀ cid d v, stored m cid d = Some v → ∃ n, (v == inject_Z n / inject_Z (10 ^ 4))%Q) →
  ∃ feats,
    buildFeatures cfg grid DATES_ISO (Some m) idx metric stride minValue = Ok feats ∧
    ∀ f, f ∈ feats →
      ∃ ti c, ti ∈ idx ∧ c ∈ cells grid ∧
        f_time f = DATES_ISO !! ti ∧ f_cell_id f = id c ∧
        (f_value f == pass_value DATES_ISO m metric c ti)%Q.
Proof.
  intros Hdom Hdec. eexists. split; [by apply buildFeatures_pushed|].
  intros f (ti & c & Hti & Hc & Hp)%elem_of_features.
  destruct (pushed_spec cfg DATES_ISO m metric stride minValue c ti (Hdom c Hc)) as [_ Hf].
  destruct (Hf f Hp) as (Ht & Hid & _ & _ & Hv).
  exists ti, c. repeat (split; [done|]). rewrite Hv.
  assert (Hval : ∀ i, ∃ n, (value_at DATES_ISO m c i == inject_Z n / inject_Z (10 ^ 4))%Q).
  { intros i. unfold value_at. destruct (DATES_ISO !! i ≫= stored m (id c)) as [v|] eqn:E.
    - destruct (DATES_ISO !! i) as [d|]; [|done]. simpl in E. apply (Hdec _ _ _ E).
    - exists 0. reflexivity. }
  assert (Hpass : ∃ n, (pass_value DATES_ISO m metric c ti == inject_Z n / inject_Z (10 ^ 4))%Q).
  { unfold pass_value. destruct (bool_decide (metric = "delta")); [|apply Hval].
    destruct (Hval ti) as [n1 E1].
    assert (∃ n, (previous_at DATES_ISO m c ti == inject_Z n / inject_Z (10 ^ 4))%Q) as [n2 E2].
    { destruct ti as [|p]; [exists 0; reflexivity|apply Hval]. }
    exists (n1 - n2). rewrite E1, E2. unfold Z.sub. rewrite inject_Z_plus, inject_Z_opp.
    field. discriminate. }
  destruct Hpass as [n E]. rewrite (toFixed_comp 4 _ _ E), E.
  apply (toFixed_multiple 4 n).
Qed.

Lemma toFixed_is_multiple r x : ∃ n, (toFixed r x == inject_Z n / inject_Z (10 ^ Z.of_nat r))%Q.
Proof.
  pose proof (pow10_pos r). unfold toFixed, nearest. destruct (Qltb x 0).
  - eexists (- _). rewrite inject_Z_opp. field. lra.
  - eexists. reflexivity.
Qed.

Lemma four_decimal_store_is_served_exactly_witness :
  ∃ feats,
    buildFeatures Ex.cfgA Ex.gridA Data.dates (Some Data.store) [0%nat; 1%nat] "delta" 1 None
    = Ok feats ∧
    ∀ f, f ∈ feats →
      ∃ ti c, ti ∈ [0%nat; 1%nat] ∧ c ∈ cells Ex.gridA ∧
        f_time f = Data.dates !! ti ∧ f_cell_id f = id c ∧
        (f_value f == pass_value Data.dates Data.store "delta" c ti)%Q.
Proof.
  apply four_decimal_store_is_served_exactly.
  - apply Data_store_has_cells.
  - assert (Hall : map_Forall (λ _ per,
                     map_Forall (λ _ v, Qeq_bool (toFixed 4 v) v = true) per) Data.store)
      by (apply (bool_decide_unpack _); vm_compute; reflexivity).
    intros cid d v H. unfold stored in H.
    destruct (Data.store !! cid) as [per|] eqn:E; [|done]. simpl in H.
    pose proof (Hall _ _ E _ _ H) as Hv%Qeq_bool_iff.
    destruct (toFixed_is_multiple 4 v) as [n Hn]. exists n. by rewrite <- Hv.
Defined.

(** The date and the cell id of a feature. *)
Lemma pushed_keys cfg DATES_ISO m metric stride minValue ti cs :
  (∀ c, c ∈ cs → is_Some (m !! id c)) →
  ((λ f, (f_time f, f_cell_id f)) <$> omap (pushed cfg DATES_ISO (Some m) metric stride minValue ti) cs)
    `sublist_of` ((λ c, (DATES_ISO !! ti, id c)) <$> cs) ∧
  (stride ≤ 1 → (minValue = None ∨ metric ≠ "value") →
   (λ f, (f_time f, f_cell_id f)) <$> omap (pushed cfg DATES_ISO (Some m) metric stride minValue ti) cs
   = (λ c, (DATES_ISO !! ti, id c)) <$> cs).
Proof.
  induction cs as [|c cs IH]; intros Hdom; [split; [constructor|done]|].
  destruct IH as [IH1 IH2]; [intros; apply Hdom; by right|].
  destruct (pushed_spec cfg DATES_ISO m metric stride minValue c ti) as [Hiff Hf];
    [apply Hdom; by left|].
  simpl. destruct (pushed cfg DATES_ISO (Some m) metric stride minValue ti c) as [f|] eqn:E.
  - destruct (Hf f eq_refl) as (Ht & Hid & _). simpl. rewrite Ht, Hid. split.
    + by apply sublist_skip.
    + intros. f_equal. by apply IH2.
  - split.
    + by apply sublist_cons.
    + intros Hs Hm. exfalso.
      assert (is_Some (None : option Feature)) as [? [=]].
      apply Hiff. split; [by left|]. unfold threshold_passes.
      destruct Hm as [->|Hm]; [done|]. destruct minValue; done.
Qed.

(** X13.  Features come out date by date in the order of the requested
    indices and, within a date, in the order of the grid, at most one per
    cell and date; when nothing filters (stride at most 1, and no
    threshold or a metric other than value) there is exactly one per cell
    and requested index, [|idx| * |cells|] in all. *)
Theorem features_follow_index_then_grid_order
    cfg grid DATES_ISO m idx metric stride minValue :
  (∀ c, c ∈ cells grid → is_Some (m !! id c)) →
  ∃ feats,
    buildFeatures cfg grid DATES_ISO (Some m) idx metric stride minValue = Ok feats ∧
    ((λ f, (f_time f, f_cell_id f)) <$> feats)
      `sublist_of` (flat_map (λ ti, (λ c, (DATES_ISO !! ti, id c)) <$> cells grid) idx) ∧
    (stride ≤ 1 → (minValue = None ∨ metric ≠ "value") →
     (λ f, (f_time f, f_cell_id f)) <$> feats
     = flat_map (λ ti, (λ c, (DATES_ISO !! ti, id c)) <$> cells grid) idx ∧
     length feats = (length idx * length (cells grid))%nat).
Proof.
  intros Hdom. eexists. split; [by apply buildFeatures_pushed|].
  assert (H : ((λ f, (f_time f, f_cell_id f)) <$>
                 flat_map (λ ti, omap (pushed cfg DATES_ISO (Some m) metric stride minValue ti)
                                   (cells grid)) idx)
                `sublist_of` (flat_map (λ ti, (λ c, (DATES_ISO !! ti, id c)) <$> cells grid) idx) ∧
              (stride ≤ 1 → (minValue = None ∨ metric ≠ "value") →
               (λ f, (f_time f, f_cell_id f)) <$>
                 flat_map (λ ti, omap (pushed cfg DATES_ISO (Some m) metric stride minValue ti)
                                   (cells grid)) idx
               = flat_map (λ ti, (λ c, (DATES_ISO !! ti, id c)) <$> cells grid) idx)).
  { induction idx as [|ti idx [IH1 IH2]]; [split; [constructor|done]|].
    destruct (pushed_keys cfg DATES_ISO m metric stride minValue ti (cells grid) Hdom) as [H1 H2].
    simpl. rewrite fmap_app. split.
    - by apply sublist_app.
    - intros Hs Hm. by rewrite H2, IH2. }
  destruct H as [H1 H2]. split; [exact H1|].
  intros Hs Hm. split; [by apply H2|].
  rewrite <- (length_fmap (λ f, (f_time f, f_cell_id f))), H2 by done.
  clear. induction idx as [|ti idx IH]; simpl; [done|].
  by rewrite length_app, length_fmap, IH.
Qed.

Lemma features_follow_index_then_grid_order_witness :
  ∃ feats,
    buildFeatures Ex.cfgA Ex.gridA Data.dates (Some Data.store) [1%nat; 0%nat] "delta" 4 (Some (Fin 1))
    = Ok feats ∧
    ((λ f, (f_time f, f_cell_id f)) <$> feats)
      `sublist_of` (flat_map (λ ti, (λ c, (Data.dates !! ti, id c)) <$> cells Ex.gridA)
                      [1%nat; 0%nat]).
Proof.
  destruct (features_follow_index_then_grid_order Ex.cfgA Ex.gridA Data.dates Data.store
              [1%nat; 0%nat] "delta" 4 (Some (Fin 1)) Data_store_has_cells)
    as (feats & H1 & H2 & _).
  exists feats. split; [exact H1|exact H2].
Defined.

(** ** The route *)

Lemma leading_digits_acc d : ∀ p,
  leading_digits (NilEmpty.string_of_uint d) (Some (Z.pos p))
  = Some (Z.pos (Pos.of_uint_acc d p)).
Proof.
  induction d; intros p; simpl; [done|..]; rewrite <- IHd; f_equal; f_equal; lia.
Qed.

Lemma leading_digits_of_uint d :
  leading_digits (NilEmpty.string_of_uint d) (Some 0) = Some (Z.of_N (Pos.of_uint d)).
Proof.
  induction d; simpl; [done|exact IHd|..]; apply leading_digits_acc.
Qed.

Lemma leading_digits_start d :
  d ≠ Decimal.Nil →
  leading_digits (NilEmpty.string_of_uint d) None = Some (Z.of_N (Pos.of_uint d)).
Proof.
  intros Hd. rewrite <- leading_digits_of_uint. by destruct d.
Qed.

Lemma trimStart_uint d : trimStart (NilEmpty.string_of_uint d) = NilEmpty.string_of_uint d.
Proof. by destruct d. Qed.

Lemma parseInt_uint d :
  d ≠ Decimal.Nil →
  parseInt (NilEmpty.string_of_uint d) = Some (Z.of_N (Pos.of_uint d)).
Proof.
  intros Hd. unfold parseInt. rewrite trimStart_uint, <- leading_digits_start by done.
  by destruct d.
Qed.

Lemma parseInt_neg_uint d :
  d ≠ Decimal.Nil →
  parseInt (String "-" (NilEmpty.string_of_uint d)) = Some (- Z.of_N (Pos.of_uint d)).
Proof.
  intros Hd. unfold parseInt.
  change (trimStart (String "-" (NilEmpty.string_of_uint d)))
    with (String "-" (NilEmpty.string_of_uint d)).
  cbv iota beta. by rewrite leading_digits_start.
Qed.

Lemma NilZero_string_of_uint_nonnil d :
  d ≠ Decimal.Nil → NilZero.string_of_uint d = NilEmpty.string_of_uint d.
Proof. by destruct d. Qed.

(** Reading an integer back from its decimal numeral. *)
Lemma parseInt_show n : parseInt (show n) = Some n.
Proof.
  unfold show. destruct n as [|p|p]; [done|..]; simpl;
    pose proof (Unsigned.to_uint_nonnil p) as Hnil;
    rewrite NilZero_string_of_uint_nonnil by done.
  - by rewrite parseInt_uint, Unsigned.of_to.
  - by rewrite parseInt_neg_uint, Unsigned.of_to.
Qed.

(** X14.  The stride the server applies is at least 1 whatever the query
    holds, and a client that sends the integer [n] in decimal gets stride
    [max(1, n)]: text that is no number, 0 and negative numbers all mean
    no down-sampling, so [buildFeatures] never takes a remainder modulo
    0. *)
Theorem stride_query_is_clamped_integer :
  (∀ q, 1 ≤ query_stride q) ∧
  (∀ n, query_stride (Some (show n)) = Z.max 1 n) ∧
  query_stride None = 1 ∧
  (∀ s, parseInt s = None → query_stride (Some s) = 1).
Proof.
  unfold query_stride, Math_max. repeat split.
  - intros q. destruct (parseInt (default "1" q)); simpl; lia.
  - intros n. change (default "1" (Some (show n))) with (show n).
    by rewrite parseInt_show.
  - intros s Hs. change (default "1" (Some s)) with s. by rewrite Hs.
Qed.


Lemma kind_indices_is_Some Date_parse startOfDay DATES_ISO TODAY_ISO kind :
  is_Some (kind_indices Date_parse startOfDay DATES_ISO TODAY_ISO kind)
  ↔ kind ∈ ["past"; "now"; "forecast"; "delta"].
Proof.
  unfold kind_indices. rewrite !elem_of_cons, elem_of_nil.
  repeat case_bool_decide; split; intros Hx; eauto; try tauto.
  by destruct Hx as [? [=]].
Qed.

Lemma elem_of_all_indices DATES_ISO ti :
  ti ∈ all_indices DATES_ISO ↔ ∃ d, DATES_ISO !! ti = Some d.
Proof.
  unfold all_indices. rewrite elem_of_lookup_imap. split.
  - intros (i & d & -> & H). eauto.
  - intros (d & H). eauto.
Qed.

(** The indices chosen for a kind are the positions of the dates on the
    side of today that the kind names; all positions for delta. *)
Lemma elem_of_kind_indices Date_parse startOfDay DATES_ISO TODAY_ISO kind idx ti :
  kind_indices Date_parse startOfDay DATES_ISO TODAY_ISO kind = Some idx →
  ti ∈ idx ↔
  ∃ d, DATES_ISO !! ti = Some d ∧
       (kind = "past" ∧ time_lt (toD Date_parse startOfDay d)
                                (toD Date_parse startOfDay TODAY_ISO) = true
        ∨ kind = "now" ∧ time_eq (toD Date_parse startOfDay d)
                                 (toD Date_parse startOfDay TODAY_ISO) = true
        ∨ kind = "forecast" ∧ time_lt (toD Date_parse startOfDay TODAY_ISO)
                                      (toD Date_parse startOfDay d) = true
        ∨ kind = "delta").
Proof.
  unfold kind_indices, PAST_IDX, NOW_IDX, FWD_IDX.
  repeat case_bool_decide; intros [= <-]; subst kind.
  - rewrite (elem_of_idx DATES_ISO
               (λ x, time_lt (toD Date_parse startOfDay x.1)
                             (toD Date_parse startOfDay TODAY_ISO) = true)).
    simpl. split; intros (d & Hd & Hx); exists d; (split; [done|]); [by left; split|].
    destruct Hx as [[_ Hy]|[[[=] _]|[[[=] _]|[=]]]]. done.
  - rewrite (elem_of_idx DATES_ISO
               (λ x, time_eq (toD Date_parse startOfDay x.1)
                             (toD Date_parse startOfDay TODAY_ISO) = true)).
    simpl. split; intros (d & Hd & Hx); exists d; (split; [done|]); [by right; left; split|].
    destruct Hx as [[[=] _]|[[_ Hy]|[[[=] _]|[=]]]]. done.
  - rewrite (elem_of_idx DATES_ISO
               (λ x, time_lt (toD Date_parse startOfDay TODAY_ISO)
                             (toD Date_parse startOfDay x.1) = true)).
    simpl. split; intros (d & Hd & Hx); exists d; (split; [done|]); [by right; right; left; split|].
    destruct Hx as [[[=] _]|[[[=] _]|[[_ Hy]|[=]]]]. done.
  - rewrite elem_of_all_indices. split; intros (d & Hd); exists d; [split; [done|]|tauto].
    by right; right; right.
Qed.

(** X15.  The route answers every request: over whatever [loadCsv] has
    returned, also the empty dataset of a server started without a CSV
    file, the handler does not throw; it answers 400 exactly for a kind
    other than past, now, forecast and delta, and with no CSV file every
    known kind gets the empty feature collection. *)
Theorem geo_route_always_answers
    Math_cos cfg grid Number Date_parse startOfDay csv gm dates TODAY_ISO kind q_stride q_min :
  loadCsv Math_cos cfg grid Number csv = Ok (gm, dates) →
  ∃ resp,
    geo_handler cfg grid Number Date_parse startOfDay gm dates TODAY_ISO kind q_stride q_min
    = Ok resp ∧
    (resp = BadKind ↔ kind ∉ ["past"; "now"; "forecast"; "delta"]) ∧
    (csv = None → kind ∈ ["past"; "now"; "forecast"; "delta"] → resp = Json []).
Proof.
  intros Hload. unfold geo_handler.
  pose proof (kind_indices_is_Some Date_parse startOfDay dates TODAY_ISO kind) as Hk.
  destruct (kind_indices Date_parse startOfDay dates TODAY_ISO kind) as [idx|] eqn:Eidx.
  - assert (Hin : kind ∈ ["past"; "now"; "forecast"; "delta"]) by (apply Hk; eauto).
    destruct csv as [rows|].
    + assert (∃ m, gm = Some m) as [m ->].
      { unfold loadCsv in Hload.
        destruct (ingest Math_cos cfg grid Number _ rows); simpl in Hload; [|done].
        injection Hload as <- _. eauto. }
      rewrite buildFeatures_pushed by (by eapply loadCsv_has_cells).
      simpl. eexists. split; [done|]. split; [|done]. split; [done|]. intros Hn. done.
    + injection Hload as <- <-.
      assert (idx = []) as ->.
      { revert Eidx. unfold kind_indices. by repeat case_bool_decide; intros [= <-]. }
      simpl. eexists. split; [done|]. split; [|done]. split; [done|]. intros Hn. done.
  - eexists. split; [done|]. split; [|intros _ Hin; apply Hk in Hin; by destruct Hin].
    split; [|done]. intros _ Hin. apply Hk in Hin. by destruct Hin.
Qed.

Lemma geo_route_always_answers_witness :
  ∃ resp,
    geo_handler Ex.cfgA Ex.gridA Host.Number Host.Date_parse Host.startOfDay
      (Some Data.store) Data.dates "2024-01-02" "forecast" (Some "abc") (Some "0.02")
    = Ok resp ∧
    (resp = BadKind ↔ "forecast" ∉ ["past"; "now"; "forecast"; "delta"]).
Proof.
  destruct (geo_route_always_answers Host.cos Ex.cfgA Ex.gridA Host.Number
              Host.Date_parse Host.startOfDay (Some Data.rows) (Some Data.store) Data.dates
              "2024-01-02" "forecast" (Some "abc") (Some "0.02"))
    as (resp & H1 & H2 & _).
  - apply loadCsv_loaded. vm_compute; reflexivity.
  - exists resp. split; [exact H1|exact H2].
Defined.

(** X16.  What a layer holds: the response for a kind is made of the
    features that the passes of [buildFeatures] push for the cells of the
    grid and the dates of the index that lie, as calendar days, before
    today (past), on today (now) or after today (forecast), and for all
    dates of the index (delta); a date that does not parse is in the delta
    layer only. *)
Theorem layer_holds_the_days_of_its_kind
    cfg grid Number Date_parse startOfDay m DATES_ISO TODAY_ISO kind q_stride q_min feats :
  (∀ c, c ∈ cells grid → is_Some (m !! id c)) →
  geo_handler cfg grid Number Date_parse startOfDay (Some m) DATES_ISO TODAY_ISO
    kind q_stride q_min = Ok (Json feats) →
  ∀ f, f ∈ feats ↔
    ∃ ti d c,
      DATES_ISO !! ti = Some d ∧ c ∈ cells grid ∧
      (kind = "past" ∧ time_lt (toD Date_parse startOfDay d)
                               (toD Date_parse startOfDay TODAY_ISO) = true
       ∨ kind = "now" ∧ time_eq (toD Date_parse startOfDay d)
                                (toD Date_parse startOfDay TODAY_ISO) = true
       ∨ kind = "forecast" ∧ time_lt (toD Date_parse startOfDay TODAY_ISO)
                                     (toD Date_parse startOfDay d) = true
       ∨ kind = "delta") ∧
      f_time f = Some d ∧ f_cell_id f = id c ∧
      pushed cfg DATES_ISO (Some m) (if bool_decide (kind = "delta") then "delta" else "value")
        (query_stride q_stride) (query_min Number q_min) ti c = Some f.
Proof.
  intros Hdom. unfold geo_handler.
  destruct (kind_indices Date_parse startOfDay DATES_ISO TODAY_ISO kind) as [idx|] eqn:Eidx;
    [|done].
  rewrite buildFeatures_pushed by done. simpl. intros [= <-] f.
  rewrite elem_of_features. split.
  - intros (ti & c & Hti & Hc & Hp).
    apply (elem_of_kind_indices _ _ _ _ _ _ _ Eidx) in Hti as (d & Hd & Hside).
    destruct (pushed_spec cfg DATES_ISO m
                (if bool_decide (kind = "delta") then "delta" else "value")
                (query_stride q_stride) (query_min Number q_min) c ti (Hdom c Hc)) as [_ Hf].
    destruct (Hf f Hp) as (Ht & Hid & _).
    exists ti, d, c. rewrite Ht, Hd. done.
  - intros (ti & d & c & Hd & Hc & Hside & _ & _ & Hp).
    exists ti, c. split; [|done].
    apply (elem_of_kind_indices _ _ _ _ _ _ _ Eidx). eauto.
Qed.

Lemma layer_holds_the_days_of_its_kind_witness :
  ∃ feats,
    geo_handler Ex.cfgA Ex.gridA Host.Number Host.Date_parse Host.startOfDay
      (Some Data.store) Data.dates "2024-01-02" "past" None None = Ok (Json feats) ∧
    ∀ f, f ∈ feats →
      ∃ ti d c, Data.dates !! ti = Some d ∧ c ∈ cells Ex.gridA ∧ f_time f = Some d ∧
                time_lt (toD Host.Date_parse Host.startOfDay d)
                        (toD Host.Date_parse Host.startOfDay "2024-01-02") = true.
Proof.
  destruct (geo_handler Ex.cfgA Ex.gridA Host.Number Host.Date_parse Host.startOfDay
              (Some Data.store) Data.dates "2024-01-02" "past" None None)
    as [[feats|]|] eqn:E; [|vm_compute in E; discriminate E..].
  exists feats. split; [reflexivity|]. intros f Hf.
  apply (layer_holds_the_days_of_its_kind _ _ _ _ _ _ _ _ _ _ _ _ Data_store_has_cells E)
    in Hf as (ti & d & c & Hd & Hc & Hside & Ht & _).
  exists ti, d, c. repeat (split; [done|]).
  destruct Hside as [[_ H]|[[[=] _]|[[[=] _]|[=]]]]. exact H.
Defined.

(** ** The browser client *)

(** X17.  A feature is drawn, with a stroke and a fill that are not fully
    transparent, exactly when its value is a positive number, and exactly
    then it gets a popup; so on the delta layer a decrease or no change is
    never visible: of the ten colours of [deltaColor] only the five for
    increases are ever shown. *)
Theorem only_positive_values_are_drawn type v :
  ((0 < StaticApp.fillOpacity (StaticApp.styleFor type v))%Q ↔ ∃ x, v = Some x ∧ (0 < x)%Q) ∧
  ((0 < StaticApp.opacity (StaticApp.styleFor type v))%Q ↔ ∃ x, v = Some x ∧ (0 < x)%Q) ∧
  ((0 < StaticApp.weight (StaticApp.styleFor type v))%Q ↔ ∃ x, v = Some x ∧ (0 < x)%Q) ∧
  (StaticApp.onEach v = true ↔ ∃ x, v = Some x ∧ (0 < x)%Q) ∧
  ((0 < StaticApp.fillOpacity (StaticApp.styleFor type v))%Q → type = "delta" →
   StaticApp.fillColor (StaticApp.styleFor type v)
     ∈ ["#99000d"; "#cb181d"; "#ef3b2c"; "#fb6a4a"; "#fcae91"]).
Proof.
  assert (Hpos : ∀ (a : Q), (0 < a)%Q →
            (0 < (if match v with Some x => Qltb 0 x | None => false end then a else 0))%Q
            ↔ ∃ x, v = Some x ∧ (0 < x)%Q).
  { intros a Ha. destruct v as [x|]; [destruct (Qltb 0 x) eqn:E|].
    - apply Qltb_lt in E. split; eauto.
    - apply Qltb_ge in E. split; [intros H; by apply Qlt_irrefl in H|].
      intros (y & [= <-] & Hy). lra.
    - split; [intros H; by apply Qlt_irrefl in H|]. intros (y & Hy & _); discriminate. }
  unfold StaticApp.styleFor. cbn [StaticApp.fillOpacity StaticApp.opacity StaticApp.weight
                                  StaticApp.fillColor].
  split; [by apply Hpos|]. split; [by apply Hpos|]. split; [by apply Hpos|].
  split.
  - unfold StaticApp.onEach, StaticApp.gt. rewrite Qltb_lt. destruct v as [x|]; simpl.
    + split; [eauto|]. by intros (y & [= <-] & Hy).
    + split; [intros H; by apply Qlt_irrefl in H|]. intros (y & Hy & _); discriminate.
  - intros Hd ->. destruct (proj1 (Hpos (65 # 100)%Q eq_refl) Hd) as (x & -> & Hx).
    rewrite bool_decide_eq_true_2 by done.
    unfold StaticApp.deltaColor, StaticApp.gt. simpl.
    assert (Qltb 0 x = true) as E by (by apply Qltb_lt).
    repeat match goal with
           | |- context [if Qltb ?c x then _ else _] => destruct (Qltb c x) eqn:?
           end;
      first [congruence | apply list_elem_of_In; simpl; auto 10].
Qed.

(** X18.  The stride the page asks for at a zoom level is the stride the
    server applies: [strideForZoom(z)] written into the query string and
    read back by [parseInt] and [Math.max] is unchanged.  It is 4, 2 or 1,
    and neither it nor the threshold [minForZoom(z)] grows when the user
    zooms in. *)
Theorem zoom_stride_reaches_the_server z :
  query_stride (Some (show (StaticApp.strideForZoom z))) = StaticApp.strideForZoom z ∧
  StaticApp.strideForZoom z ∈ [4; 2; 1] ∧
  ∀ z', (z <= z')%Q →
        StaticApp.strideForZoom z' ≤ StaticApp.strideForZoom z ∧
        (StaticApp.minForZoom z' <= StaticApp.minForZoom z)%Q.
Proof.
  split; [|split].
  - unfold query_stride, Math_max.
    change (default "1" (Some (show (StaticApp.strideForZoom z))))
      with (show (StaticApp.strideForZoom z)).
    rewrite parseInt_show. unfold StaticApp.strideForZoom.
    by destruct (Qle_bool z 6), (Qle_bool z 7).
  - unfold StaticApp.strideForZoom. rewrite !elem_of_cons.
    destruct (Qle_bool z 6), (Qle_bool z 7); auto.
  - intros z' Hz. unfold StaticApp.strideForZoom, StaticApp.minForZoom.
    destruct (Qle_bool z 6) eqn:E1, (Qle_bool z 7) eqn:E2,
             (Qle_bool z' 6) eqn:E3, (Qle_bool z' 7) eqn:E4;
      (split; [try lia|try discriminate]); exfalso;
      rewrite ?Qle_bool_iff in *;
      repeat match goal with
             | H : Qle_bool ?a ?b = false |- _ =>
                 assert (¬ (a <= b)%Q) by (rewrite <- Qle_bool_iff; congruence); clear H
             end; lra.
Qed.

Lemma zoom_stride_reaches_the_server_witness :
  StaticApp.strideForZoom 8 ≤ StaticApp.strideForZoom (25 # 4) ∧
  (StaticApp.minForZoom 8 <= StaticApp.minForZoom (25 # 4))%Q.
Proof.
  destruct (zoom_stride_reaches_the_server (25 # 4)) as (_ & _ & H).
  apply H. discriminate.
Defined.

(** ** The village summary *)

Lemma foldl_Qplus a l : (foldl Qplus a l == a + foldr Qplus 0 l)%Q.
Proof.
  revert a. induction l as [|x l IH]; intros a; simpl; [ring|]. rewrite IH. ring.
Qed.

Lemma foldl_Zadd a l : foldl Z.add a l = a + foldr Z.add 0 l.
Proof.
  revert a. induction l as [|x l IH]; intros a; simpl; [lia|]. rewrite IH. lia.
Qed.

Lemma sum_scaled (t s : Q) (l : list Q) :
  ¬ (s == 0)%Q →
  (foldr Qplus 0 ((λ v, v * t / s) <$> l) == foldr Qplus 0 l * t / s)%Q.
Proof.
  intros Hs. induction l as [|x l IH]; simpl; [field; done|]. rewrite IH. field. done.
Qed.

Lemma sum_floors (l : list Q) :
  (inject_Z (foldr Z.add 0%Z (Math_floor <$> l)) <= foldr Qplus 0 l)%Q ∧
  (foldr Qplus 0 l
   <= inject_Z (foldr Z.add 0%Z (Math_floor <$> l)) + inject_Z (Z.of_nat (length l)))%Q.
Proof.
  induction l as [|x l [IH1 IH2]]; [split; discriminate|].
  cbn [fmap list_fmap foldr length]. rewrite Nat2Z.inj_succ, !inject_Z_plus.
  unfold Z.succ. rewrite inject_Z_plus. change (inject_Z 1) with 1%Q.
  pose proof (Qfloor_le x). pose proof (Qlt_floor x) as Hlt.
  rewrite inject_Z_plus in Hlt. change (inject_Z 1) with 1%Q in Hlt.
  unfold Math_floor in *. split; lra.
Qed.

Lemma sum_alter_succ (l : list Z) i :
  (i < length l)%nat → foldr Z.add 0 (alter Z.succ i l) = foldr Z.add 0 l + 1.
Proof.
  revert i. induction l as [|x l IH]; intros [|i] Hi; simpl in Hi; try lia.
  - simpl. lia.
  - change (alter Z.succ (S i) (x :: l)) with (x :: alter Z.succ i l).
    cbn [foldr]. rewrite IH by lia. lia.
Qed.

Lemma hand_out_sum order : ∀ remainder floors,
  0 ≤ remainder ≤ Z.of_nat (length order) →
  (∀ o, o ∈ order → (o.1 < length floors)%nat) →
  length (Component.hand_out order remainder floors) = length floors ∧
  foldr Z.add 0 (Component.hand_out order remainder floors) = foldr Z.add 0 floors + remainder.
Proof.
  induction order as [|o order IH]; intros remainder floors Hr Hin; simpl in *.
  - split; [done|lia].
  - destruct (0 <? remainder) eqn:E.
    + apply Z.ltb_lt in E.
      destruct (IH (remainder - 1) (alter Z.succ o.1 floors)) as [IH1 IH2].
      * lia.
      * intros o' Ho'. rewrite length_alter. apply Hin. by right.
      * rewrite IH1, IH2, length_alter, sum_alter_succ by (apply Hin; by left).
        split; [done|lia].
    + apply Z.ltb_ge in E. split; [done|lia].
Qed.

Lemma insert_by_frac_perm a l : Component.insert_by_frac a l ≡ₚ a :: l.
Proof.
  induction l as [|b l IH]; simpl; [done|].
  destruct (Qltb a.2 b.2); [|done]. rewrite IH. apply Permutation_swap.
Qed.

Lemma sort_by_frac_perm l : Component.sort_by_frac l ≡ₚ l.
Proof.
  induction l as [|a l IH]; simpl; [done|]. by rewrite insert_by_frac_perm, IH.
Qed.

Lemma Map_of_list_to_map {V} (l : list (string * V)) :
  Component.Map_of l = list_to_map (reverse l).
Proof.
  unfold Component.Map_of. rewrite <- (reverse_involutive l) at 1.
  generalize (reverse l). clear l. intros l.
  induction l as [|[k v] l IH]; [done|].
  rewrite reverse_cons, foldl_app. simpl. by rewrite IH.
Qed.

Lemma Map_of_lookup {V} (l : list (string * V)) k v :
  NoDup l.*1 → (k, v) ∈ l → Component.Map_of l !! k = Some v.
Proof.
  intros Hnd Hin. rewrite Map_of_list_to_map. apply elem_of_list_to_map_1.
  - by rewrite fmap_reverse, reverse_Permutation.
  - by apply elem_of_reverse.
Qed.

Lemma imap_indices {A B} (g : nat → A → B) (l : list A) :
  (imap (λ i x, (i, g i x)) l).*1 = seq 0 (length l).
Proof.
  rewrite fmap_imap.
  rewrite (imap_ext _ (λ j _, Datatypes.id j)) by done.
  by rewrite imap_seq_0, list_fmap_id.
Qed.

(** The list of final floors inside [scaleVillageCounts], when the base
    sum is positive. *)
Lemma scale_floors (vs : list Q) (target : Z) :
  let baseSum := foldl Qplus 0%Q vs in
  let scaledFloat := (λ v, (v * inject_Z target / baseSum)%Q) <$> vs in
  let floors := Math_floor <$> scaledFloat in
  let remainder := target - foldl Z.add 0 floors in
  let order := Component.sort_by_frac
                 (imap (λ i x, (i, (x - inject_Z (floors !!! i))%Q)) scaledFloat) in
  (0 < baseSum)%Q →
  0 ≤ remainder ≤ Z.of_nat (length order) ∧
  order.*1 ≡ₚ seq 0 (length vs) ∧
  length (Component.hand_out order remainder floors) = length vs ∧
  foldr Z.add 0 (Component.hand_out order remainder floors) = target.
Proof.
  intros baseSum scaledFloat floors remainder order Hpos.
  assert (Hlen : length floors = length vs) by (unfold floors, scaledFloat; by rewrite !length_fmap).
  assert (Hord : order.*1 ≡ₚ seq 0 (length vs)).
  { unfold order. rewrite sort_by_frac_perm, imap_indices.
    unfold scaledFloat. by rewrite length_fmap. }
  assert (Hlo : length order = length vs).
  { rewrite <- (length_fmap fst), Hord. apply length_seq. }
  assert (Hsum : (foldr Qplus 0 scaledFloat == inject_Z target)%Q).
  { unfold scaledFloat. rewrite sum_scaled by lra.
    pose proof (foldl_Qplus 0 vs) as E. fold baseSum in E. rewrite Qplus_0_l in E.
    rewrite <- E. field. lra. }
  assert (Hrem : 0 ≤ remainder ≤ Z.of_nat (length order)).
  { unfold remainder. rewrite foldl_Zadd, Z.add_0_l, Hlo.
    destruct (sum_floors scaledFloat) as [H1 H2]. fold floors in H1, H2.
    rewrite Hsum in H1, H2. rewrite <- inject_Z_plus in H2.
    rewrite <- Zle_Qle in H1, H2.
    unfold scaledFloat in H2. rewrite length_fmap in H2. lia. }
  destruct (hand_out_sum order remainder floors Hrem) as [H1 H2].
  { intros o Ho. rewrite Hlen.
    assert (o.1 ∈ seq 0 (length vs)) as Hs%elem_of_seq; [|lia].
    rewrite <- Hord. apply list_elem_of_fmap. eauto. }
  split; [done|]. split; [done|]. split; [by rewrite H1|].
  rewrite H2. unfold remainder. rewrite foldl_Zadd. lia.
Qed.

Lemma Map_of_points (points : list Component.Village) (vals : list Z) i p :
  NoDup (Component.name <$> points) →
  points !! i = Some p →
  Component.Map_of (imap (λ idx p, (Component.name p, vals !!! idx)) points)
    !! Component.name p = Some (vals !!! i).
Proof.
  intros Hnd Hp. apply Map_of_lookup.
  - rewrite fmap_imap.
    rewrite (imap_ext _ (const Component.name)) by done.
    by rewrite imap_const.
  - apply elem_of_lookup_imap. eauto.
Qed.

Lemma Map_of_points_values (points : list Component.Village) (vals : list Z) :
  NoDup (Component.name <$> points) → length vals = length points →
  (λ p, default 0 (Component.Map_of (imap (λ idx p, (Component.name p, vals !!! idx)) points)
                     !! Component.name p)) <$> points = vals.
Proof.
  intros Hnd Hlen. apply list_eq. intros i. rewrite list_lookup_fmap.
  destruct (points !! i) as [p|] eqn:Hp; simpl.
  - rewrite (Map_of_points points vals i p Hnd Hp). simpl.
    symmetry. apply list_lookup_lookup_total_lt. rewrite Hlen. by eapply lookup_lt_Some.
  - symmetry. apply lookup_ge_None. rewrite Hlen. by apply lookup_ge_None.
Qed.

(** X19.  The total that the summary shows is the sum of the numbers shown
    for the villages, whose names are distinct.  When the 2025 counts sum
    to a positive number the total is the integer target itself: the
    largest-remainder step hands out exactly what the floors leave.  When
    they do not, every village shows 0 and so does the total. *)
Theorem scaled_counts_add_up_to_the_total points target scaled total :
  NoDup (Component.name <$> points) →
  Component.scaleVillageCounts points target = (scaled, total) →
  foldr Z.add 0 ((λ p, default 0 (scaled !! Component.name p)) <$> points) = total ∧
  (∀ p, p ∈ points → is_Some (scaled !! Component.name p)) ∧
  ((0 < foldl Qplus 0 ((λ p, Component.count p 2025) <$> points))%Q → total = target) ∧
  ((foldl Qplus 0 ((λ p, Component.count p 2025) <$> points) <= 0)%Q →
   total = 0 ∧ ∀ p, p ∈ points → scaled !! Component.name p = Some 0).
Proof.
  intros Hnd. unfold Component.scaleVillageCounts.
  remember ((λ p, Component.count p 2025) <$> points) as vs eqn:Evs.
  destruct (Qle_bool (foldl Qplus 0%Q vs) 0%Q) eqn:E.
  - apply Qle_bool_iff in E. intros [= <- <-].
    assert (Hz : ∀ p, p ∈ points →
              Component.Map_of ((λ p, (Component.name p, 0)) <$> points) !! Component.name p
              = Some 0).
    { intros p Hp. apply Map_of_lookup.
      - by rewrite <- list_fmap_compose.
      - apply list_elem_of_fmap. eauto. }
    split; [|split; [|split]].
    + assert (Hall : ∀ l, (∀ p, p ∈ l → p ∈ points) →
                foldr Z.add 0
                  ((λ p, default 0 (Component.Map_of
                                      ((λ p, (Component.name p, 0)) <$> points)
                                      !! Component.name p)) <$> l) = 0).
      { induction l as [|p l IH]; intros Hl; [done|].
        cbn [fmap list_fmap foldr]. rewrite Hz by (apply Hl; left). simpl.
        apply IH. intros q Hq. apply Hl. by right. }
      by apply Hall.
    + intros p Hp. rewrite Hz by done. eauto.
    + intros Hpos. lra.
    + done.
  - assert (Hpos : (0 < foldl Qplus 0 vs)%Q).
    { apply Qnot_le_lt. intros H%Qle_bool_iff. congruence. }
    destruct (scale_floors vs target Hpos) as (_ & _ & Hlen & Hsum).
    intros [= <- <-].
    assert (Hlen' : length (Component.hand_out
                      (Component.sort_by_frac
                         (imap (λ i x, (i, (x - inject_Z
                            ((Math_floor <$> ((λ v, (v * inject_Z target / foldl Qplus 0 vs)%Q) <$> vs))
                               !!! i))%Q))
                            ((λ v, (v * inject_Z target / foldl Qplus 0 vs)%Q) <$> vs)))
                      (target - foldl Z.add 0
                         (Math_floor <$> ((λ v, (v * inject_Z target / foldl Qplus 0 vs)%Q) <$> vs)))
                      (Math_floor <$> ((λ v, (v * inject_Z target / foldl Qplus 0 vs)%Q) <$> vs)))
                    = length points).
    { rewrite Hlen, Evs. by rewrite length_fmap. }
    split; [|split; [|split]].
    + by rewrite Map_of_points_values.
    + intros p (i & Hi)%list_elem_of_lookup. erewrite Map_of_points by done. eauto.
    + done.
    + intros Hle. lra.
Qed.

Lemma hand_out_spec order : ∀ remainder floors i,
  NoDup order.*1 → 0 ≤ remainder →
  Component.hand_out order remainder floors !! i
  = if bool_decide (i ∈ (take (Z.to_nat remainder) order).*1)
    then Z.succ <$> floors !! i else floors !! i.
Proof.
  induction order as [|o order IH]; intros remainder floors i Hnd Hr.
  - rewrite take_nil. case_bool_decide as Hx; [by apply elem_of_nil in Hx|done].
  - simpl. rewrite fmap_cons in Hnd. apply NoDup_cons in Hnd as [Hno Hnd].
    destruct (0 <? remainder) eqn:E.
    + apply Z.ltb_lt in E.
      replace (Z.to_nat remainder) with (S (Z.to_nat (remainder - 1))) by lia.
      rewrite IH by (done || lia). cbn [take fmap list_fmap].
      destruct (decide (i = o.1)) as [->|Hne].
      * assert (Hnot : o.1 ∉ (take (Z.to_nat (remainder - 1)) order).*1).
        { intros Hin. apply Hno. apply list_elem_of_fmap in Hin as (x & -> & Hx).
          apply list_elem_of_fmap. exists x. split; [done|].
          apply elem_of_take in Hx as (k & Hk & _). by eapply list_elem_of_lookup_2. }
        rewrite (bool_decide_eq_false_2 _ Hnot).
        rewrite (bool_decide_eq_true_2 (o.1 ∈ o.1 :: _)) by left.
        apply list_lookup_alter_eq.
      * rewrite list_lookup_alter_ne by done.
        assert (Hiff : i ∈ (take (Z.to_nat (remainder - 1)) order).*1
                       ↔ i ∈ o.1 :: (take (Z.to_nat (remainder - 1)) order).*1).
        { rewrite elem_of_cons. tauto. }
        by rewrite (bool_decide_ext _ _ Hiff).
    + apply Z.ltb_ge in E. replace (Z.to_nat remainder) with 0%nat by lia.
      rewrite take_0. case_bool_decide as Hx; [by apply elem_of_nil in Hx|done].
Qed.

Lemma insert_by_frac_sorted a l :
  StronglySorted (λ x y, (y.2 <= x.2)%Q) l →
  StronglySorted (λ x y, (y.2 <= x.2)%Q) (Component.insert_by_frac a l).
Proof.
  induction 1 as [|b l Hs IH Hall]; simpl; [repeat constructor|].
  destruct (Qltb a.2 b.2) eqn:E.
  - apply Qltb_lt in E. constructor; [done|].
    rewrite insert_by_frac_perm. constructor; [lra|done].
  - apply Qltb_ge in E. constructor; [by constructor|].
    constructor; [done|]. eapply Forall_impl; [exact Hall|]. simpl. intros; lra.
Qed.

Lemma sort_by_frac_sorted l :
  StronglySorted (λ x y, (y.2 <= x.2)%Q) (Component.sort_by_frac l).
Proof.
  induction l as [|a l IH]; simpl; [constructor|]. by apply insert_by_frac_sorted.
Qed.

(** Which floors are raised: those of a set [up] of indices whose
    fractions are at least the fractions of all other indices. *)
Lemma scale_raised (vs : list Q) (target : Z) :
  let baseSum := foldl Qplus 0%Q vs in
  let scaledFloat := (λ v, (v * inject_Z target / baseSum)%Q) <$> vs in
  let floors := Math_floor <$> scaledFloat in
  let remainder := target - foldl Z.add 0 floors in
  let order := Component.sort_by_frac
                 (imap (λ i x, (i, (x - inject_Z (floors !!! i))%Q)) scaledFloat) in
  (0 < baseSum)%Q →
  ∃ up : list nat,
    (∀ i, Component.hand_out order remainder floors !! i
          = if bool_decide (i ∈ up) then Z.succ <$> floors !! i else floors !! i) ∧
    (∀ i j x y, i ∈ up → j ∉ up →
       scaledFloat !! i = Some x → scaledFloat !! j = Some y →
       (y - inject_Z (Math_floor y) <= x - inject_Z (Math_floor x))%Q).
Proof.
  intros baseSum scaledFloat floors remainder order Hpos.
  destruct (scale_floors vs target Hpos) as ([Hr _] & Hperm & _).
  fold baseSum scaledFloat floors remainder order in Hr, Hperm.
  assert (Hnd : NoDup order.*1) by (rewrite Hperm; apply NoDup_seq).
  exists (take (Z.to_nat remainder) order).*1. split.
  - intros i. by apply hand_out_spec.
  - intros i j x y Hi Hj Hx Hy.
    assert (Hentry : ∀ k f, (k, f) ∈ order → ∀ z, scaledFloat !! k = Some z →
              f = (z - inject_Z (Math_floor z))%Q).
    { intros k f Hk z Hz. unfold order in Hk. rewrite sort_by_frac_perm in Hk.
      apply elem_of_lookup_imap in Hk as (k' & z' & [= <- ->] & Hz').
      assert (z' = z) as -> by congruence.
      f_equal. f_equal. unfold floors.
      apply list_lookup_total_correct. by rewrite list_lookup_fmap, Hz. }
    apply list_elem_of_fmap in Hi as ([i' fi] & -> & Hi). simpl in Hx.
    assert (Hjo : j ∈ order.*1).
    { rewrite Hperm. apply elem_of_seq. apply lookup_lt_Some in Hy.
      unfold scaledFloat in Hy. rewrite length_fmap in Hy. lia. }
    rewrite <- (take_drop (Z.to_nat remainder) order), fmap_app, elem_of_app in Hjo.
    destruct Hjo as [Hjo|Hjo]; [done|].
    apply list_elem_of_fmap in Hjo as ([j' fj] & -> & Hjd). simpl in Hy.
    pose proof (sort_by_frac_sorted
                  (imap (λ i x, (i, (x - inject_Z (floors !!! i))%Q)) scaledFloat)) as Hs.
    fold order in Hs. rewrite <- (take_drop (Z.to_nat remainder) order) in Hs.
    pose proof (StronglySorted_app_1_elem_of _ _ _ _ _ Hs Hi Hjd) as Hle. simpl in Hle.
    assert (Hio : (i', fi) ∈ order).
    { apply elem_of_take in Hi as (k & Hk & _). by eapply list_elem_of_lookup_2. }
    assert (Hjo : (j', fj) ∈ order).
    { rewrite <- (take_drop (Z.to_nat remainder) order). apply elem_of_app. by right. }
    rewrite <- (Hentry _ _ Hio _ Hx), <- (Hentry _ _ Hjo _ Hy). exact Hle.
Qed.

Lemma scaled_counts_add_up_to_the_total_witness :
  foldr Z.add 0
    ((λ p, default 0 ((Component.scaleVillageCounts Villages.three 100).1 !! Component.name p))
       <$> Villages.three)
  = (Component.scaleVillageCounts Villages.three 100).2.
Proof.
  apply (scaled_counts_add_up_to_the_total Villages.three 100).
  - apply (bool_decide_unpack _). vm_compute. reflexivity.
  - apply surjective_pairing.
Defined.

(** X20.  The numbers shown are the largest-remainder shares of the
    target: each village gets its exact share [count * target / sum]
    rounded down or up, and a village whose share is rounded up has a
    fractional part at least that of every village whose share is rounded
    down. *)
Theorem scaled_counts_are_largest_remainder_shares points target scaled total :
  NoDup (Component.name <$> points) →
  (0 < foldl Qplus 0%Q ((λ p, Component.count p 2025) <$> points))%Q →
  Component.scaleVillageCounts points target = (scaled, total) →
  (∀ p, p ∈ points →
     scaled !! Component.name p
     = Some (Math_floor (Component.count p 2025 * inject_Z target
                         / foldl Qplus 0%Q ((λ p, Component.count p 2025) <$> points))%Q)
     ∨ scaled !! Component.name p
       = Some (Math_floor (Component.count p 2025 * inject_Z target
                           / foldl Qplus 0%Q ((λ p, Component.count p 2025) <$> points))%Q + 1)) ∧
  (∀ p q up down, p ∈ points → q ∈ points →
     up = (Component.count p 2025 * inject_Z target
           / foldl Qplus 0%Q ((λ p, Component.count p 2025) <$> points))%Q →
     down = (Component.count q 2025 * inject_Z target
             / foldl Qplus 0%Q ((λ p, Component.count p 2025) <$> points))%Q →
     scaled !! Component.name p = Some (Math_floor up + 1) →
     scaled !! Component.name q = Some (Math_floor down) →
     (down - inject_Z (Math_floor down) <= up - inject_Z (Math_floor up))%Q).
Proof.
  intros Hnd Hpos. unfold Component.scaleVillageCounts.
  remember ((λ p, Component.count p 2025) <$> points) as vs eqn:Evs.
  destruct (Qle_bool (foldl Qplus 0%Q vs) 0%Q) eqn:E.
  { apply Qle_bool_iff in E. lra. }
  destruct (scale_raised vs target Hpos) as (raised & Hfin & Hfair).
  intros [= <- <-].
  assert (Hlook : ∀ i p, points !! i = Some p →
            Component.Map_of (imap (λ idx p, (Component.name p,
              Component.hand_out
                (Component.sort_by_frac
                   (imap (λ i x, (i, (x - inject_Z
                      ((Math_floor <$> ((λ v, (v * inject_Z target / foldl Qplus 0%Q vs)%Q) <$> vs))
                         !!! i))%Q))
                      ((λ v, (v * inject_Z target / foldl Qplus 0%Q vs)%Q) <$> vs)))
                (target - foldl Z.add 0
                   (Math_floor <$> ((λ v, (v * inject_Z target / foldl Qplus 0%Q vs)%Q) <$> vs)))
                (Math_floor <$> ((λ v, (v * inject_Z target / foldl Qplus 0%Q vs)%Q) <$> vs))
              !!! idx)) points) !! Component.name p
            = Some (Math_floor (Component.count p 2025 * inject_Z target / foldl Qplus 0%Q vs)%Q
                    + (if bool_decide (i ∈ raised) then 1 else 0)) ∧
            ((λ v, (v * inject_Z target / foldl Qplus 0%Q vs)%Q) <$> vs) !! i
            = Some (Component.count p 2025 * inject_Z target / foldl Qplus 0%Q vs)%Q).
  { intros i p Hp.
    assert (Hx : ((λ v, (v * inject_Z target / foldl Qplus 0%Q vs)%Q) <$> vs) !! i
                 = Some (Component.count p 2025 * inject_Z target / foldl Qplus 0%Q vs)%Q).
    { assert (Hv : vs !! i = Some (Component.count p 2025))
        by (by rewrite Evs, list_lookup_fmap, Hp).
      by rewrite list_lookup_fmap, Hv. }
    split; [|exact Hx].
    rewrite (Map_of_points points _ i p Hnd Hp). f_equal.
    apply list_lookup_total_correct. rewrite Hfin, list_lookup_fmap, Hx. simpl.
    case_bool_decide; f_equal; lia. }
  split.
  - intros p (i & Hi)%list_elem_of_lookup.
    destruct (Hlook i p Hi) as [-> _]. case_bool_decide; [right|left]; f_equal; lia.
  - intros p q up down (i & Hi)%list_elem_of_lookup (j & Hj)%list_elem_of_lookup -> ->.
    destruct (Hlook i p Hi) as [-> Hx]. destruct (Hlook j q Hj) as [-> Hy].
    intros Hup Hdown.
    apply (Hfair i j); [| |exact Hx|exact Hy].
    + destruct (decide (i ∈ raised)) as [Hin|Hnin]; [done|].
      rewrite bool_decide_eq_false_2 in Hup by done. injection Hup. lia.
    + intros Hin. rewrite bool_decide_eq_true_2 in Hdown by done. injection Hdown. lia.
Qed.

Lemma scaled_counts_are_largest_remainder_shares_witness :
  (Component.scaleVillageCounts Villages.three 100).1 !! "Umphang" = Some 11 ∧
  (Component.scaleVillageCounts Villages.three 100).1 !! "Mae Sot" = Some 60 ∧
  ((4400 # 73) - inject_Z (Math_floor (4400 # 73))
   <= (800 # 73) - inject_Z (Math_floor (800 # 73)))%Q.
Proof.
  assert (H1 : (Component.scaleVillageCounts Villages.three 100).1 !! "Umphang" = Some 11)
    by (vm_compute; reflexivity).
  assert (H2 : (Component.scaleVillageCounts Villages.three 100).1 !! "Mae Sot" = Some 60)
    by (vm_compute; reflexivity).
  split; [exact H1|]. split; [exact H2|].
  refine (proj2 (scaled_counts_are_largest_remainder_shares Villages.three 100
                   (Component.scaleVillageCounts Villages.three 100).1
                   (Component.scaleVillageCounts Villages.three 100).2 _ _ _)
            (Component.mkVillage "Umphang" "Tak"
               (Some {[ 2025 := 8%Q; 2024 := 1%Q; 2023 := 0%Q ]}))
            (Component.mkVillage "Mae Sot" "Tak"
               (Some {[ 2025 := 44%Q; 2024 := 5%Q; 2023 := 2%Q ]}))
            (800 # 73) (4400 # 73) _ _ _ _ H1 H2).
  - apply (bool_decide_unpack _). vm_compute. reflexivity.
  - vm_compute. reflexivity.
  - apply surjective_pairing.
  - left.
  - right. left.
  - vm_compute. reflexivity.
  - vm_compute. reflexivity.
Defined.

(** ** The order of the three layers *)

(** X21.  When the order of the date index is the order in time of its
    dates that parse, as it is for ISO dates, the three index arrays are
    consecutive stretches of the index: every past index is below every
    now index, and every now index below every forecast index. *)
Theorem layers_are_consecutive_stretches Date_parse startOfDay DATES_ISO TODAY_ISO :
  (∀ i j di dj x y, (i < j)%nat →
     DATES_ISO !! i = Some di → DATES_ISO !! j = Some dj →
     toD Date_parse startOfDay di = Some x → toD Date_parse startOfDay dj = Some y → x ≤ y) →
  ∀ p n f,
    (p ∈ PAST_IDX Date_parse startOfDay DATES_ISO TODAY_ISO →
     n ∈ NOW_IDX Date_parse startOfDay DATES_ISO TODAY_ISO → (p < n)%nat) ∧
    (n ∈ NOW_IDX Date_parse startOfDay DATES_ISO TODAY_ISO →
     f ∈ FWD_IDX Date_parse startOfDay DATES_ISO TODAY_ISO → (n < f)%nat) ∧
    (p ∈ PAST_IDX Date_parse startOfDay DATES_ISO TODAY_ISO →
     f ∈ FWD_IDX Date_parse startOfDay DATES_ISO TODAY_ISO → (p < f)%nat).
Proof.
  intros Hmono p n f. unfold PAST_IDX, NOW_IDX, FWD_IDX.
  rewrite (elem_of_idx DATES_ISO
             (λ x, time_lt (toD Date_parse startOfDay x.1)
                           (toD Date_parse startOfDay TODAY_ISO) = true)).
  rewrite (elem_of_idx DATES_ISO
             (λ x, time_eq (toD Date_parse startOfDay x.1)
                           (toD Date_parse startOfDay TODAY_ISO) = true)).
  rewrite (elem_of_idx DATES_ISO
             (λ x, time_lt (toD Date_parse startOfDay TODAY_ISO)
                           (toD Date_parse startOfDay x.1) = true)).
  simpl. repeat split.
  - intros (dp & Hp & (x & t & Hx & Ht & Hlt)%time_lt_spec)
           (dn & Hn & (y & t' & Hy & Ht' & ->)%time_eq_spec).
    assert (t' = t) as -> by congruence.
    destruct (decide (p < n)%nat) as [|Hge]; [done|]. exfalso.
    destruct (decide (n = p)) as [->|Hne].
    + assert (x = t) by congruence. lia.
    + pose proof (Hmono n p dn dp t x ltac:(lia) Hn Hp Hy Hx). lia.
  - intros (dn & Hn & (y & t' & Hy & Ht' & ->)%time_eq_spec)
           (df & Hf & (t & z & Ht & Hz & Hlt)%time_lt_spec).
    assert (t' = t) as -> by congruence.
    destruct (decide (n < f)%nat) as [|Hge]; [done|]. exfalso.
    destruct (decide (n = f)) as [->|Hne].
    + assert (z = t) by congruence. lia.
    + pose proof (Hmono f n df dn z t ltac:(lia) Hf Hn Hz Hy). lia.
  - intros (dp & Hp & (x & t & Hx & Ht & Hlt)%time_lt_spec)
           (df & Hf & (t' & z & Ht' & Hz & Hlt')%time_lt_spec).
    assert (t' = t) as -> by congruence.
    destruct (decide (p < f)%nat) as [|Hge]; [done|]. exfalso.
    destruct (decide (p = f)) as [->|Hne].
    + assert (z = x) by congruence. lia.
    + pose proof (Hmono f p df dp z x ltac:(lia) Hf Hp Hz Hx). lia.
Qed.

Lemma layers_are_consecutive_stretches_witness :
  0%nat ∈ PAST_IDX Host.Date_parse Host.startOfDay Data.dates "2024-01-02" ∧
  1%nat ∈ NOW_IDX Host.Date_parse Host.startOfDay Data.dates "2024-01-02" ∧
  (0 < 1)%nat.
Proof.
  assert (H0 : 0%nat ∈ PAST_IDX Host.Date_parse Host.startOfDay Data.dates "2024-01-02")
    by (vm_compute; left).
  assert (H1 : 1%nat ∈ NOW_IDX Host.Date_parse Host.startOfDay Data.dates "2024-01-02")
    by (vm_compute; left).
  split; [exact H0|]. split; [exact H1|].
  refine (proj1 (layers_are_consecutive_stretches Host.Date_parse Host.startOfDay
                   Data.dates "2024-01-02" _ 0%nat 1%nat 0%nat) H0 H1).
  intros i j di dj x y Hij Hi Hj Hx Hy.
  change Data.dates with ["2024-01-01"; "2024-01-02"] in Hi, Hj.
  destruct i as [|[|i]], j as [|[|j]]; try lia; try discriminate.
  injection Hi as <-. injection Hj as <-. vm_compute in Hx, Hy.
  injection Hx as <-. injection Hy as <-. lia.
Defined.

(** ** Finding the CSV file *)

Lemma endsWith_app a b : endsWith (a +:+ b) b = true.
Proof.
  induction a as [|c a IH].
  - change ("" +:+ b) with b. destruct b; cbn [endsWith]; by rewrite String.eqb_refl.
  - change (String c a +:+ b) with (String c (a +:+ b)). cbn [endsWith].
    rewrite IH. apply orb_true_r.
Qed.

Lemma first_found_spec resolve existsSync l :
  match first_found resolve existsSync l with
  | Some f =>
      existsSync f = true ∧
      ∃ l1 p l2, l = l1 ++ p :: l2 ∧
        (∀ p', p' ∈ l1 → existsSync (resolve p') = false ∧
                         existsSync (resolve p' +:+ ".gz") = false) ∧
        (f = resolve p ∨ f = resolve p +:+ ".gz" ∧ existsSync (resolve p) = false)
  | None =>
      ∀ p, p ∈ l → existsSync (resolve p) = false ∧ existsSync (resolve p +:+ ".gz") = false
  end.
Proof.
  induction l as [|p l IH]; simpl; [by intros p ?%elem_of_nil|].
  destruct (existsSync (resolve p)) eqn:E1.
  { split; [done|]. exists [], p, l. split; [done|]. split; [by intros p' ?%elem_of_nil|auto]. }
  destruct (existsSync (resolve p +:+ ".gz")) eqn:E2.
  { split; [done|]. exists [], p, l. split; [done|]. split; [by intros p' ?%elem_of_nil|auto]. }
  destruct (first_found resolve existsSync l) as [f|].
  - destruct IH as (Hf & l1 & q & l2 & -> & Hl1 & Hq). split; [done|].
    exists (p :: l1), q, l2. split; [done|]. split; [|done].
    intros p' [->|Hp']%elem_of_cons; auto.
  - intros p' [->|Hp']%elem_of_cons; auto.
Qed.

(** X22.  The file the server loads is the one named by [CSV_FILE] when
    that is set and not empty, whether it exists or not; otherwise it is
    the first default name that exists, taken plain before its [.gz]
    form, and a file found under its [.gz] name is read through gunzip.
    There is no file to load exactly when [CSV_FILE] is unset or empty and
    no default name exists in either form. *)
Theorem guessed_csv_is_configured_or_first_existing resolve existsSync CSV_FILE :
  match guessCsv resolve existsSync CSV_FILE with
  | Some f =>
      CSV_FILE = Some f ∧ f ≠ "" ∨
      (CSV_FILE = None ∨ CSV_FILE = Some "") ∧ existsSync f = true ∧
      ∃ l1 p l2, DEFAULTS = l1 ++ p :: l2 ∧
        (∀ p', p' ∈ l1 → existsSync (resolve p') = false ∧
                         existsSync (resolve p' +:+ ".gz") = false) ∧
        (f = resolve p ∨
         f = resolve p +:+ ".gz" ∧ existsSync (resolve p) = false ∧ openMaybeGzip f = true)
  | None =>
      (CSV_FILE = None ∨ CSV_FILE = Some "") ∧
      ∀ p, p ∈ DEFAULTS →
           existsSync (resolve p) = false ∧ existsSync (resolve p +:+ ".gz") = false
  end.
Proof.
  unfold guessCsv.
  assert (Hloop : (CSV_FILE = None ∨ CSV_FILE = Some "") →
    match first_found resolve existsSync DEFAULTS with
    | Some f =>
        CSV_FILE = Some f ∧ f ≠ "" ∨
        (CSV_FILE = None ∨ CSV_FILE = Some "") ∧ existsSync f = true ∧
        ∃ l1 p l2, DEFAULTS = l1 ++ p :: l2 ∧
          (∀ p', p' ∈ l1 → existsSync (resolve p') = false ∧
                           existsSync (resolve p' +:+ ".gz") = false) ∧
          (f = resolve p ∨
           f = resolve p +:+ ".gz" ∧ existsSync (resolve p) = false ∧ openMaybeGzip f = true)
    | None =>
        (CSV_FILE = None ∨ CSV_FILE = Some "") ∧
        ∀ p, p ∈ DEFAULTS →
             existsSync (resolve p) = false ∧ existsSync (resolve p +:+ ".gz") = false
    end).
  { intros Henv. pose proof (first_found_spec resolve existsSync DEFAULTS) as H.
    destruct (first_found resolve existsSync DEFAULTS) as [f|]; [|done].
    destruct H as (Hf & l1 & p & l2 & Hl & Hl1 & Hp). right.
    split; [done|]. split; [done|]. exists l1, p, l2. split; [done|]. split; [done|].
    destruct Hp as [->|(-> & Hp)]; [by left|right].
    split; [done|]. split; [done|]. apply endsWith_app. }
  destruct CSV_FILE as [f|]; [|by apply Hloop; left].
  case_bool_decide as Hf; [subst f; by apply Hloop; right|]. by left.
Qed.

(** ** The five provinces of the summary *)

Lemma Map_get_set k v m k' :
  Component.Map_get k' (Component.Map_set k v m)
  = if bool_decide (k' = k) then Some v else Component.Map_get k' m.
Proof.
  induction m as [|[k0 v0] m IH]; simpl.
  - repeat case_bool_decide; congruence.
  - repeat (case_bool_decide; simpl in * ); subst; try congruence.
Qed.

Lemma Map_set_keys k v m :
  (Component.Map_set k v m).*1 = if bool_decide (k ∈ m.*1) then m.*1 else m.*1 ++ [k].
Proof.
  induction m as [|[k0 v0] m IH].
  - cbn [Component.Map_set fmap list_fmap].
    case_bool_decide as E; [by apply elem_of_nil in E|done].
  - cbn [Component.Map_set]. destruct (decide (k0 = k)) as [->|Hne].
    + rewrite (bool_decide_eq_true_2 ((k, v0).1 = k)) by done.
      rewrite fmap_cons. rewrite bool_decide_eq_true_2; [done|]. rewrite fmap_cons. left.
    + rewrite (bool_decide_eq_false_2 ((k0, v0).1 = k)) by done.
      rewrite !fmap_cons, IH. cbn [fst].
      destruct (decide (k ∈ m.*1)) as [Hin|Hnin].
      * rewrite !bool_decide_eq_true_2; [done|by right|done].
      * rewrite !bool_decide_eq_false_2; [done| |done].
        intros [?|?]%elem_of_cons; congruence.
Qed.

Lemma Map_get_Some k m v : Component.Map_get k m = Some v → (k, v) ∈ m.
Proof.
  induction m as [|[k0 v0] m IH]; simpl; [done|].
  case_bool_decide as E; simpl in *.
  - intros [= <-]. subst. left.
  - intros H. right. by apply IH.
Qed.

Lemma Map_get_elem k v m : NoDup m.*1 → (k, v) ∈ m → Component.Map_get k m = Some v.
Proof.
  induction m as [|[k0 v0] m IH]; simpl; [by intros _ ?%elem_of_nil|].
  intros [Hno Hnd]%NoDup_cons [[= -> ->]|Hin]%elem_of_cons.
  - by rewrite bool_decide_eq_true_2.
  - rewrite bool_decide_eq_false_2; [by apply IH|].
    simpl. intros ->. apply Hno. apply list_elem_of_fmap. by exists (k, v).
Qed.

Lemma province_total_absent points countMap prov :
  prov ∉ Component.province <$> points → province_total points countMap prov = 0.
Proof.
  intros Hno. unfold province_total.
  destruct (filter (λ p, Component.province p = prov) points) as [|q l] eqn:E; [done|].
  exfalso. apply Hno.
  assert (Hq : q ∈ filter (λ p, Component.province p = prov) points) by (rewrite E; left).
  apply list_elem_of_filter in Hq as [<- Hq]. apply list_elem_of_fmap. eauto.
Qed.

Lemma province_total_snoc points p countMap prov :
  province_total (points ++ [p]) countMap prov
  = province_total points countMap prov
    + if bool_decide (Component.province p = prov)
      then default 0 (countMap !! Component.name p) else 0.
Proof.
  unfold province_total. rewrite filter_app, fmap_app, foldr_app.
  assert (Hadd : ∀ l a, foldr Z.add a l = foldr Z.add 0 l + a).
  { clear. induction l as [|x l IH]; intros a; simpl; [lia|]. rewrite IH. lia. }
  rewrite Hadd. f_equal. rewrite filter_cons, filter_nil.
  destruct (decide (Component.province p = prov)) as [E|E].
  - rewrite bool_decide_eq_true_2 by done. simpl. lia.
  - by rewrite bool_decide_eq_false_2.
Qed.

(** The map [byProv] after the loop over the villages. *)
Lemma byProv_spec (countMap : gmap string Z) (points : list Component.Village) :
  let byProv :=
    foldl (λ byProv p,
             Component.Map_set (Component.province p)
               (default 0 (Component.Map_get (Component.province p) byProv)
                + default 0 (countMap !! Component.name p)) byProv)
          [] points in
  NoDup byProv.*1 ∧
  (∀ prov, prov ∈ byProv.*1 ↔ prov ∈ Component.province <$> points) ∧
  (∀ prov v, (prov, v) ∈ byProv → v = province_total points countMap prov).
Proof.
  induction points as [|p points IH] using rev_ind; simpl.
  - split; [constructor|]. split; [done|]. by intros prov v ?%elem_of_nil.
  - rewrite foldl_app. simpl. simpl in IH.
    remember (foldl _ [] points) as m eqn:Em. clear Em.
    destruct IH as (Hnd & Hkeys & Hget).
    assert (Hnd' : NoDup (Component.Map_set (Component.province p)
                     (default 0 (Component.Map_get (Component.province p) m)
                      + default 0 (countMap !! Component.name p)) m).*1).
    { rewrite Map_set_keys. case_bool_decide; [done|]. apply NoDup_app. split; [done|].
      split; [|apply NoDup_singleton]. intros x Hx Hy%list_elem_of_singleton. by subst x. }
    split; [done|]. split.
    + intros prov. rewrite Map_set_keys, fmap_app, elem_of_app. simpl.
      rewrite list_elem_of_singleton, <- Hkeys.
      case_bool_decide as E.
      * split; [by left|]. intros [Hp | ->]; done.
      * rewrite elem_of_app, list_elem_of_singleton. done.
    + intros prov v Hin. apply (Map_get_elem _ _ _ Hnd') in Hin.
      rewrite Map_get_set in Hin. rewrite province_total_snoc.
      destruct (decide (prov = Component.province p)) as [->|Hne].
      * rewrite !bool_decide_eq_true_2 in * by done. injection Hin as <-. f_equal.
        destruct (Component.Map_get (Component.province p) m) as [v|] eqn:Ev; simpl.
        -- apply Map_get_Some in Ev. by apply Hget.
        -- symmetry. apply province_total_absent. rewrite <- Hkeys.
           intros (kv & Hk & Hkv)%list_elem_of_fmap. destruct kv as [k v]. simpl in Hk. subst k.
           by rewrite (Map_get_elem _ _ _ Hnd Hkv) in Ev.
      * rewrite bool_decide_eq_false_2 in Hin by done.
        rewrite bool_decide_eq_false_2 by done.
        apply Map_get_Some in Hin. rewrite (Hget _ _ Hin). lia.
Qed.

Lemma insert_by_value_perm a l : Component.insert_by_value a l ≡ₚ a :: l.
Proof.
  induction l as [|b l IH]; simpl; [done|].
  destruct (a.2 <? b.2); [|done]. rewrite IH. apply Permutation_swap.
Qed.

Lemma sort_by_value_perm l : Component.sort_by_value l ≡ₚ l.
Proof.
  induction l as [|a l IH]; simpl; [done|]. by rewrite insert_by_value_perm, IH.
Qed.

Lemma insert_by_value_sorted a l :
  StronglySorted (λ x y, y.2 ≤ x.2) l →
  StronglySorted (λ x y, y.2 ≤ x.2) (Component.insert_by_value a l).
Proof.
  induction 1 as [|b l Hs IH Hall]; simpl; [repeat constructor|].
  destruct (a.2 <? b.2) eqn:E.
  - apply Z.ltb_lt in E. constructor; [done|].
    rewrite insert_by_value_perm. constructor; [lia|done].
  - apply Z.ltb_ge in E. constructor; [by constructor|].
    constructor; [done|]. eapply Forall_impl; [exact Hall|]. simpl. intros; lia.
Qed.

Lemma sort_by_value_sorted l :
  StronglySorted (λ x y, y.2 ≤ x.2) (Component.sort_by_value l).
Proof.
  induction l as [|a l IH]; simpl; [constructor|]. by apply insert_by_value_sorted.
Qed.

(** X23.  The provinces of the summary are the (up to) five provinces
    with the largest totals: the entries are distinct provinces of the
    village points, each with the sum of the numbers of its villages, in
    descending order, and no province left out has a larger total than one
    that is listed. *)
Theorem top5_are_the_largest_province_totals points countMap :
  (length (Component.top5ByProvinceScaled points countMap) ≤ 5)%nat ∧
  NoDup (Component.top5ByProvinceScaled points countMap).*1 ∧
  StronglySorted (λ a b, b.2 ≤ a.2) (Component.top5ByProvinceScaled points countMap) ∧
  (∀ prov v, (prov, v) ∈ Component.top5ByProvinceScaled points countMap →
     prov ∈ Component.province <$> points ∧ v = province_total points countMap prov) ∧
  (∀ prov v q, (prov, v) ∈ Component.top5ByProvinceScaled points countMap →
     q ∈ points →
     Component.province q ∉ (Component.top5ByProvinceScaled points countMap).*1 →
     province_total points countMap (Component.province q) ≤ v).
Proof.
  unfold Component.top5ByProvinceScaled. cbv zeta.
  destruct (byProv_spec countMap points) as (Hnd & Hkeys & Hget). cbv zeta in Hnd, Hkeys, Hget.
  remember (foldl _ [] points) as m eqn:Em. clear Em.
  pose proof (sort_by_value_perm m) as Hperm.
  pose proof (sort_by_value_sorted m) as Hsort.
  remember (Component.sort_by_value m) as s eqn:Es. clear Es.
  assert (Hsub : ∀ x, x ∈ take 5 s → x ∈ m).
  { intros x (i & Hi & _)%elem_of_take. rewrite <- Hperm. by eapply list_elem_of_lookup_2. }
  split; [|split; [|split; [|split]]].
  - rewrite length_take. lia.
  - assert (Hs : NoDup s.*1) by (by rewrite Hperm).
    rewrite <- (take_drop 5 s), fmap_app in Hs. by apply NoDup_app in Hs as [? _].
  - rewrite <- (take_drop 5 s) in Hsort. by apply StronglySorted_app_1_l in Hsort.
  - intros prov v Hin%Hsub. split; [|by apply Hget].
    apply Hkeys. apply list_elem_of_fmap. by exists (prov, v).
  - intros prov v q Hin Hq Hout.
    assert (Hk : Component.province q ∈ m.*1).
    { apply Hkeys. apply list_elem_of_fmap. eauto. }
    apply list_elem_of_fmap in Hk as ([k v'] & Hk & Hkv). simpl in Hk. subst k.
    pose proof (Hget _ _ Hkv) as ->.
    rewrite <- Hperm, <- (take_drop 5 s), elem_of_app in Hkv.
    destruct Hkv as [Hkv|Hkv].
    + exfalso. apply Hout. apply list_elem_of_fmap.
      by exists (Component.province q, province_total points countMap (Component.province q)).
    + rewrite <- (take_drop 5 s) in Hsort.
      apply (StronglySorted_app_1_elem_of _ _ _ _ _ Hsort Hin Hkv).
Qed.

(** ** Cell centres *)





Lemma pushed_geometry cfg DATES_ISO GRID_MAP metric stride minValue ti c f :
  pushed cfg DATES_ISO GRID_MAP metric stride minValue ti c = Some f →
  f_coordinates f = [cellPolygon cfg c] ∧
  f_center_lat f = toFixed (COORD_DEC cfg) (lat_c c) ∧
  f_center_lon f = toFixed (COORD_DEC cfg) (lon_c c).
Proof.
  unfold pushed, feature_step. repeat case_match; intros; simplify_eq/=; done.
Qed.

(** X25.  The centre a feature reports lies inside the ring it reports:
    for a grid built with positive steps, the rounded centre of every
    feature is between the rounded west and east bounds and between the
    rounded south and north bounds of its polygon. *)
Theorem feature_centre_lies_in_its_ring
    Math_cos cfg fuel g DATES_ISO m idx metric stride minValue feats :
  (0 < DLAT cfg)%Q → (0 < DLON Math_cos cfg)%Q →
  buildGrid Math_cos cfg fuel = Some g →
  (∀ c, c ∈ cells g → is_Some (m !! id c)) →
  buildFeatures cfg g DATES_ISO (Some m) idx metric stride minValue = Ok feats →
  ∀ f, f ∈ feats →
    ∃ w s e n,
      f_coordinates f = [[(w, s); (e, s); (e, n); (w, n); (w, s)]] ∧
      (w <= f_center_lon f <= e)%Q ∧ (s <= f_center_lat f <= n)%Q.
Proof.
  intros HDLAT HDLON Hg Hdom. rewrite buildFeatures_pushed by done. intros [= <-] f.
  intros (ti & c & _ & Hc & Hp)%elem_of_features.
  apply pushed_geometry in Hp as (-> & -> & ->).
  apply buildGrid_inv in Hg as (rowsL & colsL & Hr & Hcols & ->).
  apply elem_of_grid_of in Hc as (r & la & k & lo & Hin1 & Hin2 & ->).
  destruct Hcols as [[-> _]|Hcols]; [by apply elem_of_nil in Hin1|].
  destruct (axis_starts _ _ _ _ _ _ _ _ Hr Hin1) as (_ & _ & Hla).
  destruct (axis_starts _ _ _ _ _ _ _ _ Hcols Hin2) as (_ & _ & Hlo).
  assert (Hmid : ∀ s step hi, (0 < step)%Q → (s < hi - EPS)%Q →
            (s <= (s + Math_min (s + step) hi) / 2)%Q ∧
            ((s + Math_min (s + step) hi) / 2 <= Math_min (s + step) hi)%Q).
  { intros s step hi Hstep Hs. assert (0 < EPS)%Q by done.
    assert (s < Math_min (s + step) hi)%Q by (apply Math_min_glb_lt; lra).
    split; [apply Qle_shift_div_l|apply Qle_shift_div_r]; lra. }
  destruct (Hmid la (DLAT cfg) (LAT_MAX cfg) HDLAT Hla) as [Ha1 Ha2].
  destruct (Hmid lo (DLON Math_cos cfg) (LON_MAX cfg) HDLON Hlo) as [Ho1 Ho2].
  unfold cellPolygon, make_cell.
  cbn [lat_min lat_max lon_min lon_max lat_c lon_c].
  eexists _, _, _, _. split; [reflexivity|].
  repeat split; by apply toFixed_mono.
Qed.

Lemma feature_centre_lies_in_its_ring_witness :
  ∃ feats,
    buildFeatures Ex.cfgA Ex.gridA Data.dates (Some Data.store) [0%nat] "value" 1 None
    = Ok feats ∧
    ∀ f, f ∈ feats →
      ∃ w s e n,
        f_coordinates f = [[(w, s); (e, s); (e, n); (w, n); (w, s)]] ∧
        (w <= f_center_lon f <= e)%Q ∧ (s <= f_center_lat f <= n)%Q.
Proof.
  destruct (buildFeatures Ex.cfgA Ex.gridA Data.dates (Some Data.store) [0%nat] "value" 1 None)
    as [feats|] eqn:E; [|vm_compute in E; discriminate E].
  exists feats. split; [reflexivity|].
  apply (feature_centre_lies_in_its_ring Host.cos Ex.cfgA 10 Ex.gridA Data.dates Data.store
           [0%nat] "value" 1 None feats).
  - reflexivity.
  - reflexivity.
  - exact buildGrid_gridA.
  - exact Data_store_has_cells.
  - exact E.
Defined.

(** ** The date selector *)

Lemma indexOf_range today dates :
  -1 ≤ Component.indexOf today dates < Z.of_nat (length dates) ∧
  (today ∈ dates → 0 ≤ Component.indexOf today dates ∧
                   dates !! Z.to_nat (Component.indexOf today dates) = Some today).
Proof.
  unfold Component.indexOf.
  destruct (list_find (λ d, d = today) dates) as [[i d]|] eqn:E.
  - apply list_find_Some in E as (Hi & -> & _). apply lookup_lt_Some in Hi as Hlt.
    split; [lia|]. intros _. split; [lia|]. by rewrite Nat2Z.id.
  - split; [lia|]. intros Hin. apply list_find_None in E.
    rewrite Forall_forall in E. by destruct (E today Hin).
Qed.

(** X26.  The date selector never leaves the loaded dates: once a
    non-empty list of dates is loaded, the index starts at today's
    position (0 when today is not among the dates) and stays within
    [0 .. dates.length - 1] under every sequence of the previous and next
    buttons, player ticks and slider values the range input offers; so the
    selected date is [dates[dateIdx]], and the dates the past and delta
    layers ([dateIdx - 1], read when [dateIdx > 0]) and the forecast layer
    ([dateIdx + 1], read when [dateIdx < dates.length - 1]) are dates of
    the list. *)
Theorem date_selector_stays_in_range today dates (cs : list Component.Control) :
  dates ≠ [] → Forall (Component.offered dates) cs →
  let i := foldl (Component.control dates) (Component.initial_dateIdx today dates) cs in
  0 ≤ i < Z.of_nat (length dates) ∧
  Component.selected dates i = dates !! Z.to_nat i ∧
  is_Some (dates !! Z.to_nat i) ∧
  (0 < i → is_Some (dates !! Z.to_nat (i - 1))) ∧
  (i < Z.of_nat (length dates) - 1 → is_Some (dates !! Z.to_nat (i + 1))) ∧
  (cs = [] → today ∈ dates → dates !! Z.to_nat i = Some today).
Proof.
  intros Hne Hcs. cbv zeta.
  assert (Hlen : 0 < Z.of_nat (length dates)) by (destruct dates; [done|simpl; lia]).
  destruct (indexOf_range today dates) as [Hidx Htoday].
  assert (Hinit : 0 ≤ Component.initial_dateIdx today dates < Z.of_nat (length dates)).
  { unfold Component.initial_dateIdx. lia. }
  assert (Hstep : ∀ i c, Component.offered dates c →
            0 ≤ i < Z.of_nat (length dates) →
            0 ≤ Component.control dates i c < Z.of_nat (length dates)).
  { intros i c Hc Hi. destruct c as [| | |v]; simpl in *; try lia.
    destruct (Z.of_nat (length dates) <=? 1) eqn:E; [lia|]. apply Z.leb_gt in E.
    unfold js_rem. pose proof (Z.rem_bound_pos (i + 1) (Z.of_nat (length dates))). lia. }
  assert (Hrange : 0 ≤ foldl (Component.control dates)
                         (Component.initial_dateIdx today dates) cs
                   < Z.of_nat (length dates)).
  { revert Hinit. generalize (Component.initial_dateIdx today dates).
    induction Hcs as [|c cs Hc Hcs IH]; intros i Hi; simpl; [done|].
    apply IH. by apply Hstep. }
  split; [done|].
  remember (foldl _ _ cs) as i eqn:Ei.
  split; [|split; [|split; [|split]]].
  - unfold Component.selected.
    replace (Z.min (Z.max i 0) (Z.of_nat (length dates) - 1)) with i by lia.
    destruct (i <? 0) eqn:E; [apply Z.ltb_lt in E; lia|done].
  - apply lookup_lt_is_Some_2. lia.
  - intros Hi. apply lookup_lt_is_Some_2. lia.
  - intros Hi. apply lookup_lt_is_Some_2. lia.
  - intros -> Hin. simpl in Ei. subst i. unfold Component.initial_dateIdx.
    destruct (Htoday Hin) as [H0 Hl]. by rewrite Z.max_r by lia.
Qed.

Lemma date_selector_stays_in_range_witness :
  foldl (Component.control ["2024-01-01"; "2024-01-02"; "2024-01-03"])
    (Component.initial_dateIdx "2024-01-02" ["2024-01-01"; "2024-01-02"; "2024-01-03"])
    [Component.Following; Component.Following; Component.Tick; Component.Previous;
     Component.Slider 2]
  < Z.of_nat (length ["2024-01-01"; "2024-01-02"; "2024-01-03"]).
Proof.
  refine (proj2 (proj1 (date_selector_stays_in_range "2024-01-02"
                          ["2024-01-01"; "2024-01-02"; "2024-01-03"]
                          [Component.Following; Component.Following; Component.Tick;
                           Component.Previous; Component.Slider 2] _ _))).
  - discriminate.
  - repeat constructor; simpl; lia.
Defined.
